(** * grep: a shallow embedding of [src/grep.c] and its verified properties

    The development follows the C source function by function.  C strings
    are [string]s (the terminating NUL is implicit), [size_t] values are
    integers with the wrap-around written out, the process environment
    (allocator, standard output, standard error, files) is an explicit
    [world] threaded through every function next to the [grep_ctx]. *)

From Stdlib Require Import ZArith List Bool Ascii String Lia.
From Stdlib Require Import DecimalString.
From Equations.Prop Require Import Equations Logic.
Import ListNotations.

Local Open Scope string_scope.
Local Open Scope list_scope.

(** ** C strings and characters *)

Module CStr.

(** [tolower] of the "C" locale: only the 26 ASCII capitals change. *)
Definition tolower (c : ascii) : ascii :=
  let n := nat_of_ascii c in
  if (65 <=? n)%nat && (n <=? 90)%nat then ascii_of_nat (n + 32) else c.

(** Character-wise case folding of a whole string. *)
Fixpoint fold_case (s : string) : string :=
  match s with
  | EmptyString => EmptyString
  | String c s' => String (tolower c) (fold_case s')
  end.

Definition NUL : ascii := Ascii.zero.
Definition NL : ascii := "010"%char.

(** The C string held by a buffer: its bytes up to the first NUL. *)
Fixpoint c_str (buf : string) : string :=
  match buf with
  | EmptyString => EmptyString
  | String c buf' => if Ascii.eqb c NUL then EmptyString else String c (c_str buf')
  end.

(** All bytes of a buffer but the last one. *)
Fixpoint drop_last (buf : string) : string :=
  match buf with
  | EmptyString => EmptyString
  | String c EmptyString => EmptyString
  | String c buf' => String c (drop_last buf')
  end.

(** [strcmp(a, b) == 0]. *)
Definition strcmp_eq0 (a b : string) : bool := String.eqb a b.

(** [strcasecmp(a, b) == 0]. *)
Definition strcasecmp_eq0 (a b : string) : bool :=
  String.eqb (fold_case a) (fold_case b).

(** Does [s] start with the characters of [p]? *)
Fixpoint starts_with (s p : string) {struct p} : bool :=
  match p with
  | EmptyString => true
  | String a p' =>
      match s with
      | EmptyString => false
      | String b s' => Ascii.eqb a b && starts_with s' p'
      end
  end.

(** [strstr(s1, s2)]: offset of the first occurrence of [s2] in [s1]. *)
Fixpoint strstr (s1 s2 : string) : option nat :=
  if starts_with s1 s2 then Some 0%nat
  else match s1 with
       | EmptyString => None
       | String _ s1' => option_map S (strstr s1' s2)
       end.

(** *** [strtok] with the delimiter set ["\n"]

    [strtok] skips the delimiters in front of the token, returns the token
    and keeps the position behind the delimiter that ended it (the end of
    the string when none did) for the next call. *)

Fixpoint skip_delim (s : string) : string :=
  match s with
  | EmptyString => EmptyString
  | String c s' => if Ascii.eqb c NL then skip_delim s' else s
  end.

(** The token at the front of [s] and the position saved behind it. *)
Fixpoint span_token (s : string) : string * string :=
  match s with
  | EmptyString => (EmptyString, EmptyString)
  | String c s' =>
      if Ascii.eqb c NL then (EmptyString, s')
      else let '(tok, saved) := span_token s' in (String c tok, saved)
  end.

(** One call of [strtok] at position [s]: [None] for a null result. *)
Definition strtok (s : string) : option (string * string) :=
  match skip_delim s with
  | EmptyString => None
  | s' => Some (span_token s')
  end.

Lemma skip_delim_length (s : string) :
  (String.length (skip_delim s) <= String.length s)%nat.
Proof.
  induction s as [|c s IH]; simpl; [lia|].
  destruct (Ascii.eqb c NL); simpl; lia.
Qed.

Lemma span_token_length (s : string) :
  (String.length (snd (span_token s)) <= String.length s)%nat.
Proof.
  induction s as [|c s IH]; simpl; [lia|].
  destruct (Ascii.eqb c NL); simpl; [lia|].
  destruct (span_token s) as [tok saved]; simpl in *; lia.
Qed.

Lemma span_token_shorter (c : ascii) (s : string) :
  (String.length (snd (span_token (String c s))) < String.length (String c s))%nat.
Proof.
  pose proof (span_token_length s) as Hl. simpl.
  destruct (Ascii.eqb c NL); simpl; [lia|].
  destruct (span_token s) as [tok saved]; simpl in *; lia.
Qed.

Lemma strtok_decreases (s tok saved : string) :
  strtok s = Some (tok, saved) -> (String.length saved < String.length s)%nat.
Proof.
  unfold strtok. intros H.
  pose proof (skip_delim_length s) as Hs.
  destruct (skip_delim s) as [|c s'] eqn:E; [discriminate|].
  pose proof (span_token_shorter c s') as Hl.
  injection H as H. change (span_token (String c s') = (tok, saved)) in H.
  rewrite H in Hl. simpl in Hl, Hs. lia.
Qed.

(** The loop [for(tok = strtok(s, "\n"); tok; tok = strtok(NULL, "\n"))]
    running [body] on the loop state for each token. *)
Equations strtok_loop {A : Type} (body : A -> string -> A) (st : A) (s : string)
  : A by wf (String.length s) lt :=
  strtok_loop body st s with inspect (strtok s) => {
    | exist _ None _ => st
    | exist _ (Some (tok, saved)) H => strtok_loop body (body st tok) saved }.
Next Obligation. eapply strtok_decreases; eassumption. Qed.

End CStr.
Import CStr.

(** ** Overflow-checked [size_t] arithmetic *)

(** [size_t] is 64 bits wide on the platform the structure padding of the
    source ([pad[7]], [pad[6]]) is laid out for. *)
Definition SIZE_MAX : Z := 2 ^ 64 - 1.

(** [int] is 32 bits wide there. *)
Definition INT_MAX : Z := 2 ^ 31 - 1.

Definition size_t_wrap (z : Z) : Z := z mod (SIZE_MAX + 1).

Definition is_size_t (z : Z) : Prop := (0 <= z <= SIZE_MAX)%Z.

(** [si_add_size_t a b] is the pair (wraps, *result). *)
Definition si_add_size_t (a b : Z) : bool * Z :=
  let result := size_t_wrap (a + b) in
  let wraps := if (result <? a)%Z then true else false in
  (wraps, result).

(** [si_mul_size_t a b] is the pair (wraps, *result). *)
Definition si_mul_size_t (a b : Z) : bool * Z :=
  let result := size_t_wrap (a * b) in
  let wraps := if negb (b =? 0)%Z && (a >? SIZE_MAX / b)%Z then true else false in
  (wraps, result).

(** ** Case-insensitive substring search *)

(** Result of the inner [while(1)] loop of [grep_strcasestr] for the
    character [c = *s1]: either the end of [s2] was reached ([return s1])
    or the loop broke, leaving [s2] advanced past the characters that
    compared equal to [c]. *)
Inductive inner_result : Type :=
| ReturnS1
| Break (s2 : string).

Fixpoint strcasestr_inner (c : ascii) (s2 : string) : inner_result :=
  match s2 with
  | EmptyString => ReturnS1
  | String d s2' =>
      if negb (Ascii.eqb (tolower c) (tolower d)) then Break s2
      else strcasestr_inner c s2'
  end.

(** The outer [while( *s1 )] loop; [off] is the distance of [s1] from the
    start of the searched string. *)
Fixpoint strcasestr_outer (s1 s2 : string) (off : nat) : option nat :=
  match s1 with
  | EmptyString => None
  | String c s1' =>
      match strcasestr_inner c s2 with
      | ReturnS1 => Some off
      | Break s2' => strcasestr_outer s1' s2' (S off)
      end
  end.

(** [grep_strcasestr s1 s2]: [Some off] for the pointer [s1 + off],
    [None] for [NULL]. *)
Definition grep_strcasestr (s1 s2 : string) : option nat :=
  match s2 with
  | EmptyString => Some 0%nat
  | _ => strcasestr_outer s1 s2 0
  end.
(** ** The regular-expression facility

    [regcomp], [regexec] and [regerror] belong to the C library, not to the
    program: they are an interface the development is parametric in. *)

Class regex_lib : Type := {
  regex_t : Type;
  REG_EXTENDED : Z;
  REG_ICASE : Z;
  REG_NOSUB : Z;
  (** [regcomp(&preg, regex, cflags)]: the compiled form when the call
      returns 0, the error code otherwise. *)
  regcomp : string -> Z -> regex_t + Z;
  (** [regexec(preg, string, 0, NULL, 0) == 0]. *)
  regexec : regex_t -> string -> bool;
  (** The text [regerror] writes for an error code. *)
  regerror : Z -> string
}.

(** ** Exit status *)

Inductive exit_status : Type :=
| GREP_EXIT_MATCH
| GREP_EXIT_NOMATCH
| GREP_EXIT_FAILURE.

Definition exit_code (s : exit_status) : Z :=
  match s with
  | GREP_EXIT_MATCH => 0
  | GREP_EXIT_NOMATCH => 1
  | GREP_EXIT_FAILURE => 2
  end.

Definition exit_status_eqb (a b : exit_status) : bool :=
  match a, b with
  | GREP_EXIT_MATCH, GREP_EXIT_MATCH
  | GREP_EXIT_NOMATCH, GREP_EXIT_NOMATCH
  | GREP_EXIT_FAILURE, GREP_EXIT_FAILURE => true
  | _, _ => false
  end.

(** ** The process environment *)

(** One argument of a [printf]-style diagnostic. *)
Inductive fmt_arg : Type :=
| ArgStr (s : string)
| ArgNum (z : Z).

(** One call of [vwarn] ([wn_errno = true]) or [vwarnx]. *)
Record warning : Type := mk_warning {
  wn_errno : bool;
  wn_fmt : string;
  wn_args : list fmt_arg
}.

(** An input stream, seen through [getline]: [f_pending] are the records
    the coming [getline] calls return, each with its line terminator when
    the stream has one there; [f_fail] tells whether the read that finds
    nothing left fails instead of reporting the end of the file;
    [f_errind] is the error indicator [ferror] reads. *)
Record FILE : Type := mk_FILE {
  f_pending : list string;
  f_fail : bool;
  f_errind : bool;
  f_close_fails : bool
}.

Inductive errno_t : Type :=
| EACCES | EISDIR | ELOOP | ENAMETOOLONG | ENOENT | ENOTDIR | ENXIO
| EMFILE | ENFILE | ENOMEM.

(** The environment: [w_alloc] and [w_write] give the outcomes of the
    coming allocation ([malloc], [realloc], [strdup]) and output ([puts],
    [printf]) calls in order, [true] for success, and success once the
    list is used up; [w_stdout] collects the text of the output calls that
    succeeded, [w_stderr] the diagnostics, [w_freed] the pattern strings
    released with [free]; [w_fopen] is the result of opening a path for
    reading, [w_stdin] the standard input. *)
Record world : Type := mk_world {
  w_alloc : list bool;
  w_write : list bool;
  w_stdout : list string;
  w_stderr : list warning;
  w_freed : list string;
  w_fopen : string -> FILE + errno_t;
  w_stdin : FILE
}.

Definition next_outcome (l : list bool) : bool * list bool :=
  match l with
  | [] => (true, [])
  | b :: l' => (b, l')
  end.

(** One allocation request: did it succeed, and the environment after. *)
Definition alloc (w : world) : bool * world :=
  let '(ok, rest) := next_outcome (w_alloc w) in
  (ok, mk_world rest (w_write w) (w_stdout w) (w_stderr w) (w_freed w)
         (w_fopen w) (w_stdin w)).

(** One output call writing [text]: did it succeed, and the environment
    after. *)
Definition write_out (w : world) (text : string) : bool * world :=
  let '(ok, rest) := next_outcome (w_write w) in
  (ok, mk_world (w_alloc w) rest
         (if ok then w_stdout w ++ [text] else w_stdout w)
         (w_stderr w) (w_freed w) (w_fopen w) (w_stdin w)).

Definition emit_warning (w : world) (m : warning) : world :=
  mk_world (w_alloc w) (w_write w) (w_stdout w) (w_stderr w ++ [m])
    (w_freed w) (w_fopen w) (w_stdin w).

(** [free] of a pattern string. *)
Definition free_str (w : world) (s : string) : world :=
  mk_world (w_alloc w) (w_write w) (w_stdout w) (w_stderr w)
    (w_freed w ++ [s]) (w_fopen w) (w_stdin w).

(** [getline(&line, &len, fp)]: the record read, or [None] for -1; the
    read that finds nothing sets the error indicator when it fails. *)
Definition getline (fp : FILE) : option string * FILE :=
  match f_pending fp with
  | [] => (None, mk_FILE [] (f_fail fp) (f_fail fp) (f_close_fails fp))
  | raw :: rest =>
      (Some raw, mk_FILE rest (f_fail fp) (f_errind fp) (f_close_fails fp))
  end.

(** The loop [while((read = getline(&line, &len, fp)) != -1){ body }] on
    a loop state [st]; [body] also tells whether it left with [break].
    The result is the final loop state and the stream as the loop left
    it.  [getline_loop_eq] below is the loop's unfolding. *)
Fixpoint read_loop {A : Type} (body : A -> string -> A * bool) (st : A)
    (pending : list string) (fail errind closef : bool) : A * FILE :=
  match pending with
  | [] => (st, mk_FILE [] fail fail closef)
  | raw :: rest =>
      let '(st1, brk) := body st raw in
      if brk then (st1, mk_FILE rest fail errind closef)
      else read_loop body st1 rest fail errind closef
  end.

Definition getline_loop {A : Type} (body : A -> string -> A * bool) (st : A)
    (fp : FILE) : A * FILE :=
  read_loop body st (f_pending fp) (f_fail fp) (f_errind fp) (f_close_fails fp).

Lemma getline_loop_eq {A : Type} (body : A -> string -> A * bool) (st : A) (fp : FILE) :
  getline_loop body st fp =
  match getline fp with
  | (None, fp1) => (st, fp1)
  | (Some raw, fp1) =>
      let '(st1, brk) := body st raw in
      if brk then (st1, fp1) else getline_loop body st1 fp1
  end.
Proof.
  unfold getline_loop, getline. destruct fp as [pending fail errind closef]; simpl.
  destruct pending as [|raw rest]; reflexivity.
Qed.

Definition ferror (fp : FILE) : bool := f_errind fp.

(** [fclose(fp) != 0]. *)
Definition fclose_failed (fp : FILE) : bool := f_close_fails fp.

(** The records [getline] cuts a byte stream into: every record ends with
    its newline, except a last one the stream leaves unterminated. *)
Fixpoint records_from (cur : string) (data : string) : list string :=
  match data with
  | EmptyString =>
      match cur with EmptyString => [] | _ => [cur] end
  | String c data' =>
      if Ascii.eqb c NL
      then (cur ++ String c EmptyString)%string :: records_from EmptyString data'
      else records_from (cur ++ String c EmptyString)%string data'
  end.

Definition records (data : string) : list string := records_from EmptyString data.

(** A readable stream with the given content. *)
Definition stream_of (data : string) : FILE :=
  mk_FILE (records data) false false false.

(** The line the program works on after [line[read - 1] = '\0']. *)
Definition chomp (raw : string) : string := c_str (drop_last raw).

(** [printf("%d", z)]. *)
Definition fmt_d (z : Z) : string := NilZero.string_of_int (Z.to_int z).
(** ** Patterns and the grep context *)

Section Grep.

Context {R : regex_lib}.

(** [struct grep_pattern]; [regex] is [None] while the [regex_t] member is
    not the result of a successful [regcomp]. *)
Record grep_pattern : Type := mk_pattern {
  pattern : string;
  regex : option regex_t;
  compiled : bool
}.

(** [struct grep_ctx].  [pattern_list] is the allocated array and
    [num_patterns] the count the program keeps next to it; [fn_match] is
    [None] for the null pointer [memset] leaves. *)
Record grep_ctx : Type := mk_ctx {
  status_code : exit_status;
  num_files : Z;
  line_count : bool;
  extended_reg_expr : bool;
  fixed_string : bool;
  case_insensitive : bool;
  write_file_names : bool;
  line_number : bool;
  quiet : bool;
  ignore_file_error : bool;
  invert_match : bool;
  full_string_match : bool;
  pattern_list : list grep_pattern;
  num_patterns : Z;
  fn_match : option (grep_pattern -> string -> bool)
}.

Definition set_status_code (c : grep_ctx) (s : exit_status) : grep_ctx :=
  mk_ctx s (num_files c) (line_count c) (extended_reg_expr c) (fixed_string c)
    (case_insensitive c) (write_file_names c) (line_number c) (quiet c)
    (ignore_file_error c) (invert_match c) (full_string_match c)
    (pattern_list c) (num_patterns c) (fn_match c).

Definition set_num_files (c : grep_ctx) (n : Z) : grep_ctx :=
  mk_ctx (status_code c) n (line_count c) (extended_reg_expr c) (fixed_string c)
    (case_insensitive c) (write_file_names c) (line_number c) (quiet c)
    (ignore_file_error c) (invert_match c) (full_string_match c)
    (pattern_list c) (num_patterns c) (fn_match c).

Definition set_patterns (c : grep_ctx) (l : list grep_pattern) (n : Z) : grep_ctx :=
  mk_ctx (status_code c) (num_files c) (line_count c) (extended_reg_expr c)
    (fixed_string c) (case_insensitive c) (write_file_names c) (line_number c)
    (quiet c) (ignore_file_error c) (invert_match c) (full_string_match c)
    l n (fn_match c).

Definition set_fn_match (c : grep_ctx) (f : grep_pattern -> string -> bool) : grep_ctx :=
  mk_ctx (status_code c) (num_files c) (line_count c) (extended_reg_expr c)
    (fixed_string c) (case_insensitive c) (write_file_names c) (line_number c)
    (quiet c) (ignore_file_error c) (invert_match c) (full_string_match c)
    (pattern_list c) (num_patterns c) (Some f).

(** The option letters that set a flag of the context. *)
Inductive flag : Type :=
| F_line_count | F_extended_reg_expr | F_fixed_string | F_case_insensitive
| F_write_file_names | F_line_number | F_quiet | F_ignore_file_error
| F_invert_match | F_full_string_match.

Definition flag_eqb (a b : flag) : bool :=
  match a, b with
  | F_line_count, F_line_count
  | F_extended_reg_expr, F_extended_reg_expr
  | F_fixed_string, F_fixed_string
  | F_case_insensitive, F_case_insensitive
  | F_write_file_names, F_write_file_names
  | F_line_number, F_line_number
  | F_quiet, F_quiet
  | F_ignore_file_error, F_ignore_file_error
  | F_invert_match, F_invert_match
  | F_full_string_match, F_full_string_match => true
  | _, _ => false
  end.

(** [grep_ctx.<flag> = true]. *)
Definition set_flag (c : grep_ctx) (f : flag) : grep_ctx :=
  let on (g : flag) (old : bool) := if flag_eqb f g then true else old in
  mk_ctx (status_code c) (num_files c)
    (on F_line_count (line_count c))
    (on F_extended_reg_expr (extended_reg_expr c))
    (on F_fixed_string (fixed_string c))
    (on F_case_insensitive (case_insensitive c))
    (on F_write_file_names (write_file_names c))
    (on F_line_number (line_number c))
    (on F_quiet (quiet c))
    (on F_ignore_file_error (ignore_file_error c))
    (on F_invert_match (invert_match c))
    (on F_full_string_match (full_string_match c))
    (pattern_list c) (num_patterns c) (fn_match c).

(** The context after [memset(&grep_ctx, 0, sizeof(grep_ctx))]. *)
Definition zero_ctx : grep_ctx :=
  mk_ctx GREP_EXIT_MATCH 0 false false false false false false false false
    false false [] 0 None.

(** The array elements the loops over [i < num_patterns] visit. *)
Definition patterns (c : grep_ctx) : list grep_pattern :=
  firstn (Z.to_nat (num_patterns c)) (pattern_list c).

(** [sizeof(struct grep_pattern)]: a pointer, the 64 bytes of the C
    library's [regex_t], the flag and its 7 bytes of padding. *)
Definition sizeof_grep_pattern : Z := 8 + 64 + 1 + 7.

(** [grep_warn]: record the failure status and write the diagnostic. *)
Definition grep_warn (c : grep_ctx) (w : world) (errno_msg : bool)
    (fmt : string) (args : list fmt_arg) : grep_ctx * world :=
  (set_status_code c GREP_EXIT_FAILURE,
   emit_warning w (mk_warning errno_msg fmt args)).

(** [grep_pattern_add_bol_eol]: returns the context, the environment and
    the pattern structure after the call. *)
Definition grep_pattern_add_bol_eol (c : grep_ctx) (w : world) (p : grep_pattern)
  : grep_ctx * world * grep_pattern :=
  let '(wraps, alloc_sz) :=
    si_add_size_t (Z.of_nat (String.length (pattern p))) 5 in
  if wraps then
    (grep_warn c w false "malloc: %zu" [ArgNum alloc_sz], p)
  else
    let '(ok, w1) := alloc w in
    if negb ok then
      (grep_warn c w1 true "malloc: %zu" [ArgNum alloc_sz], p)
    else
      let new_pattern := ("^(" ++ pattern p ++ ")$")%string in
      (c, free_str w1 (pattern p), mk_pattern new_pattern (regex p) (compiled p)).

(** [cflags] of [grep_compile_pattern_list]. *)
Definition compile_cflags (c : grep_ctx) : Z :=
  let cflags := REG_NOSUB in
  let cflags := if extended_reg_expr c then Z.lor cflags REG_EXTENDED else cflags in
  let cflags := if case_insensitive c then Z.lor cflags REG_ICASE else cflags in
  cflags.

(** One iteration of the loop of [grep_compile_pattern_list]. *)
Definition compile_one (c : grep_ctx) (w : world) (cflags : Z) (p : grep_pattern)
  : grep_ctx * world * grep_pattern :=
  let '(c1, w1, p1) :=
    if full_string_match c then grep_pattern_add_bol_eol c w p else (c, w, p) in
  match regcomp (pattern p1) cflags with
  | inl r => (c1, w1, mk_pattern (pattern p1) (Some r) true)
  | inr errcode =>
      let errbuf := regerror errcode in
      (grep_warn c1 w1 false "regcomp(%s): %s" [ArgStr (pattern p1); ArgStr errbuf],
       mk_pattern (pattern p1) None (compiled p1))
  end.

(** The loop over the array elements [todo], in index order. *)
Fixpoint compile_loop (c : grep_ctx) (w : world) (cflags : Z)
    (todo : list grep_pattern) : grep_ctx * world * list grep_pattern :=
  match todo with
  | [] => (c, w, [])
  | p :: todo' =>
      let '(c1, w1, p1) := compile_one c w cflags p in
      let '(c2, w2, done) := compile_loop c1 w1 cflags todo' in
      (c2, w2, p1 :: done)
  end.

Definition grep_compile_pattern_list (c : grep_ctx) (w : world) : grep_ctx * world :=
  let cflags := compile_cflags c in
  let n := Z.to_nat (num_patterns c) in
  let '(c1, w1, done) := compile_loop c w cflags (patterns c) in
  (set_patterns c1 (done ++ skipn n (pattern_list c)) (num_patterns c1), w1).

(** [grep_pattern_append]. *)
Definition grep_pattern_append (c : grep_ctx) (w : world) (pattern_str : string)
  : grep_ctx * world :=
  let '(wraps1, alloc_sz) := si_add_size_t (num_patterns c) 1 in
  let '(wraps, alloc_sz) :=
    if wraps1 then (true, alloc_sz)
    else si_mul_size_t alloc_sz sizeof_grep_pattern in
  if wraps then
    let '(c1, w1) := grep_warn c w false "realloc: %zu" [ArgNum alloc_sz] in
    (c1, free_str w1 pattern_str)
  else
    let '(ok, w1) := alloc w in
    if negb ok then
      let '(c1, w2) := grep_warn c w1 true "realloc: %zu" [ArgNum alloc_sz] in
      (c1, free_str w2 pattern_str)
    else
      let new_pattern := mk_pattern pattern_str None false in
      (set_patterns c (patterns c ++ [new_pattern]) (num_patterns c + 1), w1).

(** [grep_free_pattern_list]. *)
Definition grep_free_pattern_list (c : grep_ctx) (w : world) : grep_ctx * world :=
  let w1 := fold_left (fun w0 p => free_str w0 (pattern p)) (patterns c) w in
  (set_patterns c [] 0, w1).

(** The C string at [pattern_str] once the first [strtok] call has put a
    NUL behind the first token: the delimiters in front, then the token. *)
Fixpoint buffer_after_strtok (s : string) : string :=
  match s with
  | EmptyString => EmptyString
  | String c s' =>
      if Ascii.eqb c NL then String c (buffer_after_strtok s')
      else fst (span_token s)
  end.

(** The body of the token loop of [grep_pattern_string]. *)
Definition pattern_string_body (buf : string) (st : grep_ctx * world)
    (pattern_token : string) : grep_ctx * world :=
  let '(c, w) := st in
  let '(ok, w1) := alloc w in
  if negb ok then grep_warn c w1 true "strdup: %s" [ArgStr buf]
  else grep_pattern_append c w1 pattern_token.

(** [grep_pattern_string]. *)
Definition grep_pattern_string (c : grep_ctx) (w : world) (pattern_str : string)
  : grep_ctx * world :=
  match pattern_str with
  | EmptyString =>
      let '(ok, w1) := alloc w in
      if negb ok then
        grep_warn c w1 true
          ("strdup: " ++ String (ascii_of_nat 34) (String (ascii_of_nat 34) EmptyString))%string
          []
      else grep_pattern_append c w1 EmptyString
  | _ =>
      strtok_loop (pattern_string_body (buffer_after_strtok pattern_str))
        (c, w) pattern_str
  end.

(** The body of the read loop of [grep_pattern_file]. *)
Definition pattern_file_body (st : grep_ctx * world) (raw : string)
  : grep_ctx * world * bool :=
  let '(c, w) := st in
  let line := chomp raw in
  (grep_pattern_append c w line, false).

(** [grep_pattern_file]. *)
Definition grep_pattern_file (c : grep_ctx) (w : world) (path : string)
  : grep_ctx * world :=
  match w_fopen w path with
  | inr _ => grep_warn c w true "fopen: %s" [ArgStr path]
  | inl fp =>
      let '(c1, w1, fp1) := getline_loop pattern_file_body (c, w) fp in
      let '(c2, w2) :=
        if ferror fp1 then grep_warn c1 w1 true "ferror: %s" [ArgStr path]
        else (c1, w1) in
      if fclose_failed fp1 then grep_warn c2 w2 true "fclose: %s" [ArgStr path]
      else (c2, w2)
  end.

(** ** Match strategies *)

Definition is_some {A : Type} (o : option A) : bool :=
  match o with Some _ => true | None => false end.

Definition grep_match_fixed_strcmp (p : grep_pattern) (line : string) : bool :=
  strcmp_eq0 line (pattern p).

Definition grep_match_fixed_strcasecmp (p : grep_pattern) (line : string) : bool :=
  strcasecmp_eq0 line (pattern p).

Definition grep_match_fixed_strstr (p : grep_pattern) (line : string) : bool :=
  is_some (strstr line (pattern p)).

Definition grep_match_fixed_strcasestr (p : grep_pattern) (line : string) : bool :=
  is_some (grep_strcasestr line (pattern p)).

(** [regexec] on the [regex] member; the program only gets here with
    every pattern compiled. *)
Definition grep_match_regex (p : grep_pattern) (line : string) : bool :=
  match regex p with
  | Some r => regexec r line
  | None => false
  end.

(** [grep_set_fn_match]. *)
Definition grep_set_fn_match (c : grep_ctx) : grep_ctx :=
  if fixed_string c then
    if case_insensitive c then
      if full_string_match c then set_fn_match c grep_match_fixed_strcasecmp
      else set_fn_match c grep_match_fixed_strcasestr
    else
      if full_string_match c then set_fn_match c grep_match_fixed_strcmp
      else set_fn_match c grep_match_fixed_strstr
  else set_fn_match c grep_match_regex.

(** The call through the [fn_match] pointer. *)
Definition call_fn_match (c : grep_ctx) (p : grep_pattern) (line : string) : bool :=
  match fn_match c with
  | Some f => f p line
  | None => false
  end.

(** The loop of [grep_match_output_line] over the array elements. *)
Fixpoint match_loop (c : grep_ctx) (todo : list grep_pattern) (line : string)
    (matched : bool) : bool :=
  match todo with
  | [] => matched
  | p :: todo' =>
      match_loop c todo' line (if call_fn_match c p line then true else matched)
  end.

(** [grep_match_output_line]. *)
Definition grep_match_output_line (c : grep_ctx) (line : string) : bool :=
  let matched := match_loop c (patterns c) line false in
  if invert_match c then negb matched else matched.

(** ** Scanning a stream *)

Definition puts (w : world) (s : string) : bool * world :=
  write_out w (s ++ String NL EmptyString)%string.

(** [printf("%s:", s)]. *)
Definition printf_s_colon (w : world) (s : string) : bool * world :=
  write_out w (s ++ ":")%string.

(** [printf("%d:", d)]. *)
Definition printf_d_colon (w : world) (d : Z) : bool * world :=
  write_out w (fmt_d d ++ ":")%string.

(** [printf("%d\n", d)]. *)
Definition printf_d_nl (w : world) (d : Z) : bool * world :=
  write_out w (fmt_d d ++ String NL EmptyString)%string.

(** The local variables of [grep_match_output_fp] that live across the
    iterations of its loop, with the context and the environment.  The
    counters are C [int]s; they are not wrapped: a stream of [INT_MAX]
    lines or more, on which [line_i += 1] overflows, is outside the
    model, and what is proved of a counter that is written is proved of
    streams of fewer lines. *)
Record scan_state : Type := mk_scan {
  sc_ctx : grep_ctx;
  sc_world : world;
  sc_line_i : Z;
  sc_match_i : Z
}.

(** The output of a matching line when file names are not asked for. *)
Definition output_match (c : grep_ctx) (w : world) (path line : string) (line_i : Z)
  : grep_ctx * world :=
  if Bool.eqb (quiet c) false && Bool.eqb (line_count c) false then
    let '(c1, w1) :=
      if (num_files c >? 1)%Z then
        let '(ok, w0) := printf_s_colon w path in
        if negb ok then grep_warn c w0 true "fputs: %s" [ArgStr path] else (c, w0)
      else (c, w) in
    let '(c2, w2) :=
      if line_number c1 then
        let '(ok, w0) := printf_d_colon w1 line_i in
        if negb ok then grep_warn c1 w0 true "printf: %d" [ArgNum line_i] else (c1, w0)
      else (c1, w1) in
    let '(ok, w3) := puts w2 line in
    if negb ok then grep_warn c2 w3 true "puts: stdout: %s" [ArgStr line]
    else (c2, w3)
  else (c, w).

(** The body of the read loop of [grep_match_output_fp]; the boolean is
    [true] when the body leaves the loop with [break]. *)
Definition output_fp_body (path : string) (st : scan_state) (raw : string)
  : scan_state * bool :=
  let c := sc_ctx st in
  let w := sc_world st in
  let line_i := sc_line_i st in
  let match_i := sc_match_i st in
  let line := chomp raw in
  if grep_match_output_line c line then
    let match_i := (match_i + 1)%Z in
    let c :=
      if negb (exit_status_eqb (status_code c) GREP_EXIT_FAILURE)
      then set_status_code c GREP_EXIT_MATCH else c in
    if write_file_names c then
      let '(ok, w1) := puts w path in
      let '(c1, w2) :=
        if negb ok then grep_warn c w1 true "puts: %s" [ArgStr path] else (c, w1) in
      (mk_scan c1 w2 line_i match_i, true)
    else
      let '(c1, w1) := output_match c w path line line_i in
      (mk_scan c1 w1 (line_i + 1)%Z match_i, false)
  else
    (mk_scan c w (line_i + 1)%Z match_i, false).

(** [grep_match_output_fp]: the context and the environment after the
    call, and the stream as the call left it. *)
Definition grep_match_output_fp (c : grep_ctx) (w : world) (path : string) (fp : FILE)
  : grep_ctx * world * FILE :=
  let '(st, fp1) := getline_loop (output_fp_body path) (mk_scan c w 1 0) fp in
  let c1 := sc_ctx st in
  let w1 := sc_world st in
  let match_i := sc_match_i st in
  let '(c2, w2) :=
    if ferror fp1 then grep_warn c1 w1 true path [] else (c1, w1) in
  let '(c3, w3) :=
    if line_count c2 then
      let '(c4, w4) :=
        if (num_files c2 >? 1)%Z then
          let '(ok, w0) := printf_s_colon w2 path in
          if negb ok then grep_warn c2 w0 true "fputs: %s" [ArgStr path] else (c2, w0)
        else (c2, w2) in
      let '(ok, w5) := printf_d_nl w4 match_i in
      if negb ok then grep_warn c4 w5 true "printf: %d" [ArgNum match_i]
      else (c4, w5)
    else (c2, w2) in
  (c3, w3, fp1).

(** The [switch(errno)] of [grep_match_output_path]: is the failure of
    [fopen] one of those [-s] silences? *)
Definition fopen_error_suppressed (e : errno_t) : bool :=
  match e with
  | EACCES | EISDIR | ELOOP | ENAMETOOLONG | ENOENT | ENOTDIR | ENXIO => true
  | _ => false
  end.

(** [grep_match_output_path]. *)
Definition grep_match_output_path (c : grep_ctx) (w : world) (path : string)
  : grep_ctx * world :=
  match w_fopen w path with
  | inr e =>
      let fopen_error_display :=
        if ignore_file_error c then negb (fopen_error_suppressed e) else true in
      if fopen_error_display then grep_warn c w true "fopen: %s" [ArgStr path]
      else (c, w)
  | inl fp =>
      let '(c1, w1, fp1) := grep_match_output_fp c w path fp in
      if fclose_failed fp1 then grep_warn c1 w1 true "fclose: %s" [ArgStr path]
      else (c1, w1)
  end.

(** ** The entry point *)

(** One result of [getopt(argc, argv, "ce:Ef:Filnqsvx")]: the character
    returned and [optarg]. *)
Record getopt_result : Type := mk_opt {
  opt_c : ascii;
  optarg : string
}.

(** The [switch(c)] of the option loop. *)
Definition main_option (c : grep_ctx) (w : world) (o : getopt_result)
  : grep_ctx * world :=
  let opt_is (x : ascii) := Ascii.eqb (opt_c o) x in
  if opt_is "c"%char then (set_flag c F_line_count, w)
  else if opt_is "e"%char then grep_pattern_string c w (optarg o)
  else if opt_is "E"%char then (set_flag c F_extended_reg_expr, w)
  else if opt_is "f"%char then grep_pattern_file c w (optarg o)
  else if opt_is "F"%char then (set_flag c F_fixed_string, w)
  else if opt_is "i"%char then (set_flag c F_case_insensitive, w)
  else if opt_is "l"%char then (set_flag c F_write_file_names, w)
  else if opt_is "n"%char then (set_flag c F_line_number, w)
  else if opt_is "q"%char then (set_flag c F_quiet, w)
  else if opt_is "s"%char then (set_flag c F_ignore_file_error, w)
  else if opt_is "v"%char then (set_flag c F_invert_match, w)
  else if opt_is "x"%char then (set_flag c F_full_string_match, w)
  else (set_status_code c GREP_EXIT_FAILURE, w).

Definition main_options (c : grep_ctx) (w : world) (opts : list getopt_result)
  : grep_ctx * world :=
  fold_left (fun st o => main_option (fst st) (snd st) o) opts (c, w).

(** The checks between the option loop and the pattern compilation:
    exclusive options, and the pattern list taken from the first operand
    when no option gave one.  Returns the operands left in [argv]. *)
Definition main_checks (c : grep_ctx) (w : world) (argv : list string)
  : grep_ctx * world * list string :=
  let '(c1, w1) :=
    if extended_reg_expr c && fixed_string c
    then grep_warn c w false "[-E|-F]" [] else (c, w) in
  let '(c2, w2) :=
    if (line_count c1 && write_file_names c1)
       || (line_count c1 && quiet c1)
       || (write_file_names c1 && quiet c1)
    then grep_warn c1 w1 false "[-c|-l|-q]" [] else (c1, w1) in
  if (num_patterns c2 =? 0)%Z then
    match argv with
    | [] => (grep_warn c2 w2 false "missing pattern_list" [], [])
    | a :: argv' => (grep_pattern_string c2 w2 a, argv')
    end
  else (c2, w2, argv).

Definition set_stdin (w : world) (fp : FILE) : world :=
  mk_world (w_alloc w) (w_write w) (w_stdout w) (w_stderr w) (w_freed w)
    (w_fopen w) fp.

(** The loop [for(i = 0; i < argc; i++) grep_match_output_path(...)]. *)
Definition main_scan_paths (c : grep_ctx) (w : world) (argv : list string)
  : grep_ctx * world :=
  fold_left (fun st path => grep_match_output_path (fst st) (snd st) path) argv (c, w).

(** The scanning step of [grep_main], guarded by the status. *)
Definition main_scan (c : grep_ctx) (w : world) (argv : list string)
  : grep_ctx * world :=
  if negb (exit_status_eqb (status_code c) GREP_EXIT_FAILURE) then
    match argv with
    | [] =>
        let c1 := set_num_files c 1 in
        let '(c2, w2, fp) := grep_match_output_fp c1 w "(standard input)" (w_stdin w) in
        (c2, set_stdin w2 fp)
    | _ =>
        let c1 := set_num_files c (Z.of_nat (List.length argv)) in
        main_scan_paths c1 w argv
    end
  else (c, w).

(** Set the match function and compile the patterns unless they are
    fixed strings. *)
Definition main_compile (c : grep_ctx) (w : world) : grep_ctx * world :=
  let c1 := grep_set_fn_match c in
  if negb (fixed_string c1) then grep_compile_pattern_list c1 w else (c1, w).

(** [grep_main], from the results of [getopt] ([opts]) and the operands
    behind the options ([argv + optind]): the exit status and the
    environment the run leaves. *)
Definition grep_main (opts : list getopt_result) (argv : list string) (w : world)
  : exit_status * world :=
  let c := set_status_code zero_ctx GREP_EXIT_NOMATCH in
  let '(c1, w1) := main_options c w opts in
  let '(c2, w2, argv1) := main_checks c1 w1 argv in
  let '(c3, w3) := main_compile c2 w2 in
  let '(c4, w4) := main_scan c3 w3 argv1 in
  let '(c5, w5) := grep_free_pattern_list c4 w4 in
  (status_code c5, w5).

End Grep.

(** ** Inputs for concrete runs *)

(** No path can be opened. *)
Definition no_files : string -> FILE + errno_t := fun _ => inr ENOENT.

(** An environment in which every allocation and every output call
    succeeds, with the given standard input and no file. *)
Definition calm_world (stdin_data : string) : world :=
  mk_world [] [] [] [] [] no_files (stream_of stdin_data).

(** The same with the outcomes of the coming allocation and output
    calls given. *)
Definition world_with (allocs writes : list bool) (stdin_data : string) : world :=
  mk_world allocs writes [] [] [] no_files (stream_of stdin_data).

Section Contexts.

Context {R : regex_lib}.

(** The context [grep_main] starts from, holding the given pattern texts
    uncompiled. *)
Definition ctx_with (texts : list string) : grep_ctx :=
  set_patterns (set_status_code zero_ctx GREP_EXIT_NOMATCH)
    (map (fun t => mk_pattern t None false) texts)
    (Z.of_nat (List.length texts)).

(** The context of [grep -x] with the given pattern texts. *)
Definition ctx_x (texts : list string) : grep_ctx :=
  set_flag (ctx_with texts) F_full_string_match.

(** The context of [grep -F] with the option [f] and the pattern "abc",
    as it is when the scan begins. *)
Definition ctx_F_abc (f : flag) : grep_ctx :=
  grep_set_fn_match (set_flag (set_flag (ctx_with ["abc"]) F_fixed_string) f).

(** The context of [grep -F -l abc]. *)
Definition ctx_F_l_abc : grep_ctx :=
  grep_set_fn_match
    (set_flag (set_flag (ctx_with ["abc"]) F_fixed_string) F_write_file_names).

End Contexts.

(** The option [-<letter>] as [getopt] returns it, with its argument. *)
Definition opt (letter : ascii) (arg : string) : getopt_result := mk_opt letter arg.

(** A line with its terminator, and the text made of such lines. *)
Definition terminated (line : string) : string := (line ++ String NL EmptyString)%string.

Definition text_of (lines : list string) : string :=
  fold_right (fun line acc => (terminated line ++ acc)%string) EmptyString lines.

(** ** A regex facility for concrete runs

    It covers the basic regular expressions made of ordinary characters, with [^] as
    the first and [$] as the last character for the two anchors; in a
    basic regular expression parentheses and braces are ordinary
    characters.  Texts with one of the characters [. * \ [] and
    compilations with [REG_EXTENDED] are outside what it covers and are
    refused; a bracket that is never closed is refused with
    [REG_EBRACK], as [regcomp] does. *)

Module Fixtures.

Record bre : Type := mk_bre {
  bre_bol : bool;
  bre_eol : bool;
  bre_body : string;
  bre_icase : bool
}.

Fixpoint has_char (c : ascii) (s : string) : bool :=
  match s with
  | EmptyString => false
  | String d s' => Ascii.eqb c d || has_char c s'
  end.

Definition strip_bol (s : string) : bool * string :=
  match s with
  | String c s' => if Ascii.eqb c "^"%char then (true, s') else (false, s)
  | EmptyString => (false, s)
  end.

Fixpoint strip_eol (s : string) : bool * string :=
  match s with
  | EmptyString => (false, EmptyString)
  | String c EmptyString =>
      if Ascii.eqb c "$"%char then (true, EmptyString) else (false, s)
  | String c s' => let '(b, r) := strip_eol s' in (b, String c r)
  end.

Fixpoint ends_with (s p : string) : bool :=
  String.eqb s p ||
  match s with
  | EmptyString => false
  | String _ s' => ends_with s' p
  end.

Definition REG_EBRACK : Z := 7.
Definition REG_BADPAT : Z := 2.

Definition bre_comp (text : string) (cflags : Z) : bre + Z :=
  if has_char "["%char text && negb (has_char "]"%char text) then inr REG_EBRACK
  else if Z.testbit cflags 0
          || has_char "."%char text || has_char "*"%char text
          || has_char "\"%char text || has_char "["%char text
       then inr REG_BADPAT
       else
         let '(bol, s1) := strip_bol text in
         let '(eol, s2) := strip_eol s1 in
         inl (mk_bre bol eol s2 (Z.testbit cflags 1)).

Definition bre_exec (r : bre) (line : string) : bool :=
  let l := if bre_icase r then fold_case line else line in
  let b := if bre_icase r then fold_case (bre_body r) else bre_body r in
  match bre_bol r, bre_eol r with
  | true, true => String.eqb l b
  | true, false => starts_with l b
  | false, true => ends_with l b
  | false, false => is_some (strstr l b)
  end.

Definition basic_regex : regex_lib := {|
  regex_t := bre;
  REG_EXTENDED := 1;
  REG_ICASE := 2;
  REG_NOSUB := 8;
  regcomp := bre_comp;
  regexec := bre_exec;
  regerror := fun errcode =>
    if (errcode =? REG_EBRACK)%Z then "Unmatched [, [^, [:, [., or [="
    else "Invalid regular expression"
|}.

End Fixtures.
Import Fixtures.

(** ** Notions the properties are stated with *)

(** [p] occurs in [s] as a contiguous substring. *)
Definition occurs (p s : string) : Prop :=
  exists pre post, s = (pre ++ p ++ post)%string.

(** [p] occurs in [s] as a contiguous substring under ASCII case
    folding. *)
Definition occurs_fold (p s : string) : Prop :=
  occurs (fold_case p) (fold_case s).

(** The pieces of [s] between its newlines, empty ones included. *)
Fixpoint split_nl (s : string) : list string :=
  match s with
  | EmptyString => [EmptyString]
  | String c s' =>
      if Ascii.eqb c NL then EmptyString :: split_nl s'
      else match split_nl s' with
           | [] => [String c EmptyString]
           | seg :: rest => String c seg :: rest
           end
  end.

Definition nonempty (t : string) : bool :=
  match t with EmptyString => false | _ => true end.

(** The maximal non-empty newline-free segments of [s], in order. *)
Definition segments (s : string) : list string := filter nonempty (split_nl s).

(** [s] consists of newlines only. *)
Fixpoint only_newlines (s : string) : bool :=
  match s with
  | EmptyString => true
  | String c s' => Ascii.eqb c NL && only_newlines s'
  end.

(** [s] has no newline and no NUL character. *)
Fixpoint plain_line (s : string) : bool :=
  match s with
  | EmptyString => true
  | String c s' => negb (Ascii.eqb c NL) && negb (Ascii.eqb c NUL) && plain_line s'
  end.

(** Every character of [run] folds to the same character as [c]. *)
Fixpoint all_fold_to (c : ascii) (run : string) : bool :=
  match run with
  | EmptyString => true
  | String d run' => Ascii.eqb (tolower c) (tolower d) && all_fold_to c run'
  end.

(** [spread p s]: the characters of [p] are found along [s] in order,
    each character of [s] that is used standing for a run of one or more
    characters of [p] that fold to it. *)
Inductive spread : string -> string -> Prop :=
| spread_last (c : ascii) (s run : string) :
    run <> EmptyString -> all_fold_to c run = true -> spread run (String c s)
| spread_more (c : ascii) (s run rest : string) :
    run <> EmptyString -> all_fold_to c run = true -> spread rest s ->
    spread (run ++ rest)%string (String c s)
| spread_skip (c : ascii) (s p : string) :
    spread p s -> spread p (String c s).

(** The environment after output calls that wrote [texts]. *)
Definition after_writes (w : world) (texts : list string) : world :=
  mk_world (w_alloc w) (skipn (List.length texts) (w_write w))
    (w_stdout w ++ texts) (w_stderr w) (w_freed w) (w_fopen w) (w_stdin w).

(** The environment after the strings [texts] were freed. *)
Definition after_frees (w : world) (texts : list string) : world :=
  mk_world (w_alloc w) (w_write w) (w_stdout w) (w_stderr w)
    (w_freed w ++ texts) (w_fopen w) (w_stdin w).

(** The line counter of [grep_match_output_fp], an [int] that starts
    at 1 and is incremented for every record, does not overflow on the
    records [pending]; the match counter stays below it. *)
Definition fits_int (pending : list string) : Prop :=
  (Z.of_nat (List.length pending) < INT_MAX)%Z.

(** The file [path] opens, has fewer than [INT_MAX] lines, is read
    without an error and closes. *)
Definition clean_file (w : world) (path : string) : Prop :=
  exists fp, w_fopen w path = inl fp /\ fits_int (f_pending fp) /\
             f_fail fp = false /\ f_close_fails fp = false.

(** The records of the file [path]. *)
Definition pending_of (w : world) (path : string) : list string :=
  match w_fopen w path with
  | inl fp => f_pending fp
  | inr _ => []
  end.

(** Lines joined by newlines, none behind the last. *)
Definition join_lines (lines : list string) : string :=
  String.concat (String NL EmptyString) lines.

(** Every coming call succeeds. *)
Definition all_succeed (outcomes : list bool) : Prop :=
  Forall (fun b => b = true) outcomes.

(** The text [grep_pattern_add_bol_eol] builds with its three [stpcpy]. *)
Definition anchored (text : string) : string := ("^(" ++ text ++ ")$")%string.

(** The order of the three status values: no match yet, matched,
    failure. *)
Definition severity (s : exit_status) : nat :=
  match s with
  | GREP_EXIT_NOMATCH => 0
  | GREP_EXIT_MATCH => 1
  | GREP_EXIT_FAILURE => 2
  end.

(** The status [b] is [a] or a more severe one. *)
Definition escalates (a b : exit_status) : Prop := (severity a <= severity b)%nat.

(** A file system with one file, the pattern file "patterns": it holds
    the three bytes "abc" and no newline. *)
Definition unterminated_pattern_file (path : string) : FILE + errno_t :=
  if String.eqb path "patterns" then inl (stream_of "abc") else inr ENOENT.

(** A file system with a pattern file and two files to search. *)
Definition sample_files (path : string) : FILE + errno_t :=
  if String.eqb path "patterns" then inl (stream_of (text_of ["abc"; "d"]))
  else if String.eqb path "a.txt" then inl (stream_of (text_of ["xabc"; "none"]))
  else if String.eqb path "b.txt" then inl (stream_of (text_of ["d"; "abcabc"]))
  else inr ENOENT.

Definition sample_world : world :=
  mk_world [] [] [] [] [] sample_files (stream_of EmptyString).

Section Notions.

Context {R : regex_lib}.

(** A pattern as [grep_pattern_append] stores it. *)
Definition fresh_pattern (text : string) : grep_pattern := mk_pattern text None false.

(** The allocation size [grep_pattern_append] asks for overflows. *)
Definition append_overflows (c : grep_ctx) : Prop :=
  (SIZE_MAX < (num_patterns c + 1) * sizeof_grep_pattern)%Z.

(** The pattern text leaves room for the five more bytes of the anchored
    copy. *)
Definition anchor_fits (p : grep_pattern) : Prop :=
  (Z.of_nat (String.length (pattern p)) + 5 <= SIZE_MAX)%Z.

(** The compiled form of a pattern is what [regcomp] made of its text. *)
Definition compiled_from_text (cflags : Z) (p : grep_pattern) : Prop :=
  match regcomp (pattern p) cflags with
  | inl r => regex p = Some r /\ compiled p = true
  | inr _ => regex p = None
  end.

Definition compile_fails (cflags : Z) (p : grep_pattern) : Prop :=
  exists errcode, regcomp (pattern p) cflags = inr errcode.

(** The text a pattern is compiled from, when nothing fails. *)
Definition compile_text (c : grep_ctx) (p : grep_pattern) : string :=
  if full_string_match c then anchored (pattern p) else pattern p.

(** [regcomp] accepts the text the pattern is compiled from. *)
Definition compiles (c : grep_ctx) (p : grep_pattern) : Prop :=
  exists r, regcomp (compile_text c p) (compile_cflags c) = inl r.

(** The pattern holds the compiled form of the text [text]. *)
Definition holds_compiled (cflags : Z) (text : string) (p : grep_pattern) : Prop :=
  pattern p = text /\ compiled p = true /\
  exists r, regex p = Some r /\ regcomp text cflags = inl r.

(** The three flags of the output mode. *)
Definition output_flags (c : grep_ctx) : bool * bool * bool :=
  (line_count c, write_file_names c, quiet c).

(** What a run has written to and may still read from its standard
    streams. *)
Definition io_of (w : world) : list string * FILE * list bool :=
  (w_stdout w, w_stdin w, w_write w).

(** The streams as a context and environment pair has them. *)
Definition io_at (st : grep_ctx * world) : list string * FILE * list bool :=
  io_of (snd st).

(** The status of a context paired with an environment. *)
Definition status_of (st : grep_ctx * world) : exit_status := status_code (fst st).

(** The status update of a matching line. *)
Definition note_match (c : grep_ctx) : grep_ctx :=
  if negb (exit_status_eqb (status_code c) GREP_EXIT_FAILURE)
  then set_status_code c GREP_EXIT_MATCH else c.

(** The line the read loop tests for a record of the stream. *)
Definition selects (c : grep_ctx) (raw : string) : bool :=
  grep_match_output_line c (chomp raw).

(** The output calls for a selected line, the [line_i]-th of [path]. *)
Definition line_output (c : grep_ctx) (path : string) (line_i : Z) (line : string)
  : list string :=
  (if (num_files c >? 1)%Z then [(path ++ ":")%string] else []) ++
  (if line_number c then [(fmt_d line_i ++ ":")%string] else []) ++
  [terminated line].

(** The output for the selected ones of the records [pending], the first
    of them being line [line_i]. *)
Fixpoint selected_output (c : grep_ctx) (path : string) (line_i : Z)
    (pending : list string) : list string :=
  match pending with
  | [] => []
  | raw :: rest =>
      (if selects c raw then line_output c path line_i (chomp raw) else []) ++
      selected_output c path (line_i + 1)%Z rest
  end.

Definition count_selected (c : grep_ctx) (pending : list string) : Z :=
  Z.of_nat (List.length (filter (selects c) pending)).

(** The output calls of the line count. *)
Definition count_output (c : grep_ctx) (path : string) (n : Z) : list string :=
  (if (num_files c >? 1)%Z then [(path ++ ":")%string] else []) ++
  [(fmt_d n ++ String NL EmptyString)%string].

(** The output of the scan of a stream under [path] without [-l]. *)
Definition mode_output (c : grep_ctx) (path : string) (pending : list string)
  : list string :=
  if line_count c then count_output c path (count_selected c pending)
  else if quiet c then []
  else selected_output c path 1 pending.

(** The context after a stream with the records [pending] was scanned
    without a failure. *)
Definition ctx_after_scan (c : grep_ctx) (pending : list string) : grep_ctx :=
  if existsb (selects c) pending then note_match c else c.

(** The value of an option flag of the context. *)
Definition flag_value (c : grep_ctx) (f : flag) : bool :=
  match f with
  | F_line_count => line_count c
  | F_extended_reg_expr => extended_reg_expr c
  | F_fixed_string => fixed_string c
  | F_case_insensitive => case_insensitive c
  | F_write_file_names => write_file_names c
  | F_line_number => line_number c
  | F_quiet => quiet c
  | F_ignore_file_error => ignore_file_error c
  | F_invert_match => invert_match c
  | F_full_string_match => full_string_match c
  end.

(** The option letter that sets a flag in the option loop. *)
Definition flag_letter (f : flag) : ascii :=
  match f with
  | F_line_count => "c"
  | F_extended_reg_expr => "E"
  | F_fixed_string => "F"
  | F_case_insensitive => "i"
  | F_write_file_names => "l"
  | F_line_number => "n"
  | F_quiet => "q"
  | F_ignore_file_error => "s"
  | F_invert_match => "v"
  | F_full_string_match => "x"
  end%char.

(** The letter [x] is among the options [getopt] returned. *)
Definition given (opts : list getopt_result) (x : ascii) : bool :=
  existsb (fun o => Ascii.eqb (opt_c o) x) opts.

(** The letters of the option string "ce:Ef:Filnqsvx". *)
Definition known_option (x : ascii) : bool :=
  existsb (Ascii.eqb x) (list_ascii_of_string "ceEfFilnqsvx").

(** Two options of which [grep_main] accepts only one. *)
Definition exclusive_options_given (opts : list getopt_result) : bool :=
  (given opts "E" && given opts "F")
  || (given opts "c" && given opts "l")
  || (given opts "c" && given opts "q")
  || (given opts "l" && given opts "q").



(** From [st] to [st'] the status only escalated, and unless it became
    the failure status no diagnostic was written. *)
Definition accounted (st st' : grep_ctx * world) : Prop :=
  escalates (status_of st) (status_of st') /\
  (w_stderr (snd st') = w_stderr (snd st) \/ status_of st' = GREP_EXIT_FAILURE).

(** The operations a run of [grep_main] is made of, each with the
    arguments it is called with: the diagnostic, one round of the option
    loop, the checks behind it, the pattern loaders, the compilation, one
    round of the read loop of [grep_match_output_fp] (with the line and
    match counters it runs with), the scan of a stream, of a path, of all
    operands, and the release of the patterns. *)
Inductive operation : Type :=
| Op_warn (errno_msg : bool) (fmt : string) (args : list fmt_arg)
| Op_option (o : getopt_result)
| Op_checks (argv : list string)
| Op_pattern_append (s : string)
| Op_pattern_string (s : string)
| Op_pattern_file (path : string)
| Op_add_bol_eol (p : grep_pattern)
| Op_compile_one (cflags : Z) (p : grep_pattern)
| Op_compile_list
| Op_compile
| Op_line (path raw : string) (line_i match_i : Z)
| Op_scan_fp (path : string) (fp : FILE)
| Op_scan_path (path : string)
| Op_scan (argv : list string)
| Op_free.

Definition run_op (st : grep_ctx * world) (op : operation) : grep_ctx * world :=
  let '(c, w) := st in
  match op with
  | Op_warn e fmt args => grep_warn c w e fmt args
  | Op_option o => main_option c w o
  | Op_checks argv => fst (main_checks c w argv)
  | Op_pattern_append s => grep_pattern_append c w s
  | Op_pattern_string s => grep_pattern_string c w s
  | Op_pattern_file path => grep_pattern_file c w path
  | Op_add_bol_eol p => fst (grep_pattern_add_bol_eol c w p)
  | Op_compile_one cflags p => fst (compile_one c w cflags p)
  | Op_compile_list => grep_compile_pattern_list c w
  | Op_compile => main_compile c w
  | Op_line path raw line_i match_i =>
      let st1 := fst (output_fp_body path (mk_scan c w line_i match_i) raw) in
      (sc_ctx st1, sc_world st1)
  | Op_scan_fp path fp => fst (grep_match_output_fp c w path fp)
  | Op_scan_path path => grep_match_output_path c w path
  | Op_scan argv => main_scan c w argv
  | Op_free => grep_free_pattern_list c w
  end.

Definition run_ops (st : grep_ctx * world) (ops : list operation) : grep_ctx * world :=
  fold_left run_op ops st.

End Notions.

(** * Properties *)

(** ** The library functions on small inputs *)

Example strtok_loop_ex :
  strtok_loop (fun acc t => acc ++ [t]) []
    (String NL (String "a" (String NL (String NL (String "b" (String "c" (String NL EmptyString)))))))
  = ["a"; "bc"].
Proof. reflexivity. Qed.

Example strcasestr_aBc_b : grep_strcasestr "aBc" "b" = Some 1%nat.
Proof. reflexivity. Qed.
Example strcasestr_abc_d : grep_strcasestr "abc" "d" = None.
Proof. reflexivity. Qed.
Example strcasestr_axb_ab : grep_strcasestr "axb" "ab" = Some 2%nat.
Proof. reflexivity. Qed.
Example strstr_ex : strstr "hello" "ll" = Some 2%nat /\ strstr "hello" EmptyString = Some 0%nat /\ strstr "abc" "d" = None.
Proof. repeat split; reflexivity. Qed.

Example records_ex :
  records (String "a" (String NL (String NL (String "b" (String "c" EmptyString)))))
  = [String "a" (String NL EmptyString); String NL EmptyString; "bc"].
Proof. reflexivity. Qed.
Example fmt_d_ex : fmt_d 42 = "42" /\ fmt_d 0 = "0".
Proof. split; reflexivity. Qed.

Example segments_ex :
  segments (String NL (String "a" (String NL (String NL (String "b" (String "c" (String NL EmptyString)))))))
  = ["a"; "bc"].
Proof. reflexivity. Qed.


(** * Properties *)

(** ** Substring search *)

Lemma sapp_assoc (x y z : string) : ((x ++ y) ++ z = x ++ (y ++ z))%string.
Proof. induction x as [|c x IH]; simpl; [reflexivity|f_equal; exact IH]. Qed.

Lemma sapp_nil_r (x : string) : (x ++ EmptyString)%string = x.
Proof. induction x as [|c x IH]; simpl; [reflexivity|f_equal; exact IH]. Qed.

Lemma starts_with_spec (p s : string) :
  starts_with s p = true <-> exists post, s = (p ++ post)%string.
Proof.
  revert s. induction p as [|c p IH]; intros s; simpl.
  - split; [intros _; exists s; reflexivity | reflexivity].
  - destruct s as [|d s].
    + split; [discriminate | intros [post H]; discriminate].
    + rewrite andb_true_iff, Ascii.eqb_eq, IH. split.
      * intros [-> [post ->]]. exists post. reflexivity.
      * intros [post H]. injection H as -> ->. split; [reflexivity|].
        exists post. reflexivity.
Qed.

Lemma strstr_spec (s p : string) : strstr s p <> None <-> occurs p s.
Proof.
  induction s as [|c s IH].
  - simpl. destruct (starts_with EmptyString p) eqn:E.
    + split; [intros _|discriminate].
      apply starts_with_spec in E. destruct E as [post E].
      exists EmptyString, post. exact E.
    + split; [congruence|]. intros [pre [post H]].
      destruct pre as [|d pre]; [|discriminate].
      assert (starts_with EmptyString p = true) as E'
        by (apply starts_with_spec; exists post; exact H).
      congruence.
  - cbn [strstr]. destruct (starts_with (String c s) p) eqn:E.
    + split; [intros _|discriminate].
      apply starts_with_spec in E. destruct E as [post E].
      exists EmptyString, post. exact E.
    + destruct (strstr s p) as [n|] eqn:En; cbn [option_map].
      * split; [intros _|discriminate].
        assert (occurs p s) as [pre [post H]] by (apply IH; discriminate).
        exists (String c pre), post. rewrite H. reflexivity.
      * split; [congruence|]. intros [pre [post H]].
        destruct pre as [|d pre].
        -- assert (starts_with (String c s) p = true) as E'
             by (apply starts_with_spec; exists post; exact H).
           congruence.
        -- injection H as _ H.
           assert (occurs p s) as Ho by (exists pre, post; exact H).
           apply IH in Ho. congruence.
Qed.

(** The inner loop consumes the longest run of characters of [s2] that
    fold to the same character as [c]; what it leaves is a suffix. *)
Lemma strcasestr_inner_suffix (c : ascii) (s2 r : string) :
  strcasestr_inner c s2 = Break r -> exists x, s2 = (x ++ r)%string.
Proof.
  revert r. induction s2 as [|d s2 IH]; intros r; simpl; [discriminate|].
  destruct (Ascii.eqb (tolower c) (tolower d)); simpl.
  - intros H. destruct (IH _ H) as [x Hx]. exists (String d x). rewrite Hx at 1. reflexivity.
  - intros H. injection H as <-. exists EmptyString. reflexivity.
Qed.

(** Being further along in [s2] never hurts: the inner loop started on a
    suffix ends on a suffix of where it ends from the whole. *)
Lemma strcasestr_inner_mono (c : ascii) (x s2 : string) :
  match strcasestr_inner c (x ++ s2)%string with
  | ReturnS1 => strcasestr_inner c s2 = ReturnS1
  | Break r =>
      strcasestr_inner c s2 = ReturnS1 \/
      exists r' y, strcasestr_inner c s2 = Break r' /\ r = (y ++ r')%string
  end.
Proof.
  induction x as [|d x IH]; simpl.
  - destruct (strcasestr_inner c s2) as [|r] eqn:E; [reflexivity|].
    right. exists r, EmptyString. split; reflexivity.
  - destruct (Ascii.eqb (tolower c) (tolower d)); simpl; [exact IH|].
    destruct (strcasestr_inner c s2) as [|r'] eqn:E; [left; reflexivity|].
    right. destruct (strcasestr_inner_suffix _ _ _ E) as [y Hy].
    exists r', (String d (x ++ y)). split; [reflexivity|].
    rewrite Hy. simpl. rewrite sapp_assoc. reflexivity.
Qed.

Lemma strcasestr_outer_mono (s1 : string) :
  forall x s2 off, strcasestr_outer s1 (x ++ s2)%string off <> None ->
                   forall off', strcasestr_outer s1 s2 off' <> None.
Proof.
  induction s1 as [|c s1 IH]; intros x s2 off H off'; simpl in *; [congruence|].
  pose proof (strcasestr_inner_mono c x s2) as M.
  destruct (strcasestr_inner c (x ++ s2)) as [|r].
  - rewrite M. discriminate.
  - destruct M as [M|[r' [y [M ->]]]]; rewrite M; [discriminate|].
    eapply IH; eassumption.
Qed.

Lemma strcasestr_outer_skip (c : ascii) (s1 s2 : string) (off : nat) :
  strcasestr_outer s1 s2 off <> None ->
  forall off', strcasestr_outer (String c s1) s2 off' <> None.
Proof.
  intros H off'. simpl.
  destruct (strcasestr_inner c s2) as [|r] eqn:E; [discriminate|].
  destruct (strcasestr_inner_suffix _ _ _ E) as [x ->].
  eapply strcasestr_outer_mono; eassumption.
Qed.

Lemma tolower_idem (c : ascii) : tolower (tolower c) = tolower c.
Proof.
  unfold tolower.
  destruct ((65 <=? nat_of_ascii c)%nat && (nat_of_ascii c <=? 90)%nat) eqn:E.
  - apply andb_prop in E. destruct E as [E1 E2].
    apply Nat.leb_le in E1. apply Nat.leb_le in E2.
    rewrite nat_ascii_embedding by lia.
    replace ((nat_of_ascii c + 32 <=? 90)%nat) with false
      by (symmetry; apply Nat.leb_gt; lia).
    rewrite andb_false_r. reflexivity.
  - rewrite E. reflexivity.
Qed.

Lemma strcasestr_outer_prefix (p : string) :
  forall s post off, p <> EmptyString ->
    fold_case s = (fold_case p ++ post)%string ->
    strcasestr_outer s p off <> None.
Proof.
  induction p as [|d p IH]; intros s post off Hne H; [congruence|].
  destruct s as [|c s]; [discriminate|].
  simpl in H. injection H as Hc H.
  simpl. rewrite Hc, Ascii.eqb_refl. simpl.
  destruct (strcasestr_inner c p) as [|r] eqn:E; [discriminate|].
  destruct (strcasestr_inner_suffix _ _ _ E) as [x ->].
  destruct (x ++ r)%string as [|e q] eqn:Eq; [simpl in E; discriminate|].
  rewrite <- Eq in *.
  eapply strcasestr_outer_mono with (x := x) (off := off).
  eapply IH; [rewrite Eq; discriminate | exact H].
Qed.

(** [grep_strcasestr] never misses an occurrence. *)
Lemma grep_strcasestr_complete (s p : string) :
  occurs_fold p s -> grep_strcasestr s p <> None.
Proof.
  intros [pre [post H]]. unfold grep_strcasestr.
  destruct p as [|d p]; [discriminate|].
  remember (String d p) as p0 eqn:Ep.
  assert (p0 <> EmptyString) as Hne by (subst; discriminate). clear Ep.
  revert s H. generalize 0%nat.
  induction pre as [|e pre IH]; intros off s H.
  - eapply strcasestr_outer_prefix; eassumption.
  - destruct s as [|c s]; [discriminate|]. simpl in H. injection H as _ H.
    eapply strcasestr_outer_skip with (off := off). apply IH. exact H.
Qed.

Lemma occurs_fold_dec (p s : string) :
  occurs_fold p s <-> strstr (fold_case s) (fold_case p) <> None.
Proof. unfold occurs_fold. symmetry. apply strstr_spec. Qed.

Section Properties.

Context {R : regex_lib}.

(** C1.  The case-insensitive fixed-string strategy is not a substring
    test.  It does give the two results the specification lists
    ([grep_strcasestr "aBc" "b"] is the pointer at offset 1,
    [grep_strcasestr "abc" "d"] is null), but it also reports lines that
    do not contain the pattern: the inner loop of [grep_strcasestr] advances [s2] only
    and never rewinds it, so the line "axb" is reported for the pattern
    "ab", which does not occur in it. *)
Theorem grep_strcasestr_reports_non_substring :
  grep_strcasestr "aBc" "b" = Some 1%nat /\
  grep_strcasestr "abc" "d" = None /\
  grep_match_fixed_strcasestr (mk_pattern "ab" None false) "axb" = true /\
  grep_strcasestr "axb" "ab" = Some 2%nat /\
  ~ occurs_fold "ab" "axb".
Proof.
  split; [reflexivity|]. split; [reflexivity|].
  split; [reflexivity|]. split; [reflexivity|].
  rewrite occurs_fold_dec. intros H. apply H. reflexivity.
Qed.

(** X5.  What does hold: a line that contains the pattern under case folding
    is always reported. *)
Lemma grep_match_fixed_strcasestr_complete (p : grep_pattern) (line : string) :
  occurs_fold (pattern p) line -> grep_match_fixed_strcasestr p line = true.
Proof.
  intros H. unfold grep_match_fixed_strcasestr.
  apply grep_strcasestr_complete in H.
  destruct (grep_strcasestr line (pattern p)); [reflexivity|congruence].
Qed.

(** ** Line evaluation *)

Lemma match_loop_orb (c : grep_ctx) (line : string) (todo : list grep_pattern) :
  forall matched,
    match_loop c todo line matched =
    matched || existsb (fun p => call_fn_match c p line) todo.
Proof.
  induction todo as [|p todo IH]; intros matched; simpl.
  - rewrite orb_false_r. reflexivity.
  - rewrite IH. destruct (call_fn_match c p line), matched; reflexivity.
Qed.

Lemma existsb_ext_in {A : Type} (f g : A -> bool) (l : list A) :
  (forall x, f x = g x) -> existsb f l = existsb g l.
Proof.
  intros H. induction l as [|x l IH]; simpl; [reflexivity|].
  rewrite H, IH. reflexivity.
Qed.

(** C2.  With the match function [f] selected, the evaluation of a line
    is the disjunction of [f p line] over the patterns [p] of the list
    when [invert_match] is off, and the negation of that disjunction when
    it is on. *)
Theorem grep_match_output_line_is_or (c : grep_ctx)
    (f : grep_pattern -> string -> bool) (line : string) :
  fn_match c = Some f ->
  grep_match_output_line c line =
  if invert_match c
  then negb (existsb (fun p => f p line) (patterns c))
  else existsb (fun p => f p line) (patterns c).
Proof.
  intros Hf. unfold grep_match_output_line.
  rewrite match_loop_orb. simpl.
  rewrite (existsb_ext_in (fun p => call_fn_match c p line) (fun p => f p line))
    by (intros p; unfold call_fn_match; rewrite Hf; reflexivity).
  reflexivity.
Qed.

(** The same, for the regex strategy. *)
Lemma regex_line_evaluation_is_or (c : grep_ctx) (line : string) :
  fn_match c = Some grep_match_regex ->
  grep_match_output_line c line =
  if invert_match c
  then negb (existsb (fun p => grep_match_regex p line) (patterns c))
  else existsb (fun p => grep_match_regex p line) (patterns c).
Proof.
  intros Hf. unfold grep_match_output_line.
  rewrite match_loop_orb. simpl.
  rewrite (existsb_ext_in (fun p => call_fn_match c p line)
             (fun p => grep_match_regex p line))
    by (intros p; unfold call_fn_match; rewrite Hf; reflexivity).
  reflexivity.
Qed.

End Properties.

(** ** Overflow-checked arithmetic and the pattern store *)

Local Open Scope Z_scope.

Lemma SIZE_MAX_pos : (0 < SIZE_MAX)%Z.
Proof. reflexivity. Qed.

Lemma si_add_size_t_spec (a b : Z) :
  0 <= a -> is_size_t b ->
  fst (si_add_size_t a b) = (SIZE_MAX <? a + b)%Z /\
  (fst (si_add_size_t a b) = false -> snd (si_add_size_t a b) = (a + b)%Z).
Proof.
  unfold is_size_t, si_add_size_t, size_t_wrap. intros Ha Hb. cbn [fst snd].
  pose proof SIZE_MAX_pos as HM.
  destruct (Z.ltb_spec SIZE_MAX (a + b)) as [Hov|Hok].
  - pose proof (Z.mod_pos_bound (a + b) (SIZE_MAX + 1) ltac:(lia)) as Hr.
    destruct (Z.ltb_spec ((a + b) mod (SIZE_MAX + 1)) a) as [|Hge];
      [split; [reflexivity|discriminate]|].
    exfalso.
    assert ((a + b) mod (SIZE_MAX + 1) = a + b - (SIZE_MAX + 1))%Z as E.
    { symmetry. apply Z.mod_unique with (q := 1%Z); lia. }
    lia.
  - rewrite Z.mod_small by lia.
    destruct (Z.ltb_spec (a + b) a); [lia|]. split; reflexivity.
Qed.

Lemma si_mul_size_t_spec (a b : Z) :
  is_size_t a -> is_size_t b ->
  fst (si_mul_size_t a b) = (SIZE_MAX <? a * b)%Z /\
  (fst (si_mul_size_t a b) = false -> snd (si_mul_size_t a b) = (a * b)%Z).
Proof.
  unfold is_size_t, si_mul_size_t, size_t_wrap. intros Ha Hb. cbn [fst snd].
  pose proof SIZE_MAX_pos as HM.
  destruct (Z.eqb_spec b 0) as [->|Hb0]; cbn [negb andb].
  - rewrite Z.mul_0_r. split; [reflexivity|intros _; reflexivity].
  - rewrite Z.gtb_ltb.
    destruct (Z.ltb_spec (SIZE_MAX / b) a) as [Hgt|Hle].
    + assert (SIZE_MAX < a * b)%Z as Hov.
      { destruct (Z.ltb_spec SIZE_MAX (a * b)) as [|Hc]; [assumption|].
        assert (a <= SIZE_MAX / b)%Z by (apply Z.div_le_lower_bound; lia). lia. }
      destruct (Z.ltb_spec SIZE_MAX (a * b)); [|lia].
      split; [reflexivity|discriminate].
    + assert (a * b <= SIZE_MAX)%Z as Hok.
      { destruct (Z.leb_spec (a * b) SIZE_MAX) as [|Hc]; [assumption|].
        assert (SIZE_MAX / b < a)%Z by (apply Z.div_lt_upper_bound; lia). lia. }
      destruct (Z.ltb_spec SIZE_MAX (a * b)); [lia|].
      split; [reflexivity|]. intros _. apply Z.mod_small. nia.
Qed.

Example si_add_size_t_tests :
  si_add_size_t 0 1 = (false, 1%Z) /\ fst (si_add_size_t SIZE_MAX 1) = true.
Proof. split; reflexivity. Qed.

Example si_mul_size_t_tests :
  si_mul_size_t (SIZE_MAX / 2) 2 = (false, (SIZE_MAX - 1)%Z) /\
  fst (si_mul_size_t SIZE_MAX 2) = true /\
  si_mul_size_t 2 0 = (false, 0%Z).
Proof. repeat split; reflexivity. Qed.

Section StoreProperties.

Context {R : regex_lib}.

Lemma patterns_set_patterns_app (c : grep_ctx) (l : list grep_pattern) (n : Z) :
  Z.of_nat (List.length l) <= n ->
  patterns (set_patterns c l n) = l.
Proof.
  intros H. unfold patterns. simpl. apply firstn_all2. lia.
Qed.

Lemma patterns_length (c : grep_ctx) :
  Z.of_nat (List.length (patterns c)) <= Z.max 0 (num_patterns c).
Proof.
  unfold patterns. rewrite length_firstn. lia.
Qed.

(** The two paths of [grep_pattern_append], decided by the size check and
    by the allocator. *)
Lemma grep_pattern_append_eq (c : grep_ctx) (w : world) (s : string) :
  is_size_t (num_patterns c) ->
  grep_pattern_append c w s =
  if (SIZE_MAX <? (num_patterns c + 1) * sizeof_grep_pattern) || negb (fst (alloc w))
  then
    (set_status_code c GREP_EXIT_FAILURE,
     free_str
       (emit_warning
          (if SIZE_MAX <? (num_patterns c + 1) * sizeof_grep_pattern then w
           else snd (alloc w))
          (mk_warning
             (negb (SIZE_MAX <? (num_patterns c + 1) * sizeof_grep_pattern))
             "realloc: %zu"
             [ArgNum (if SIZE_MAX <? num_patterns c + 1
                      then size_t_wrap (num_patterns c + 1)
                      else size_t_wrap ((num_patterns c + 1) * sizeof_grep_pattern))]))
       s)
  else
    (set_patterns c (patterns c ++ [mk_pattern s None false]) (num_patterns c + 1),
     snd (alloc w)).
Proof.
  intros Hn. unfold grep_pattern_append.
  assert (is_size_t 1) as H1 by (unfold is_size_t; pose proof SIZE_MAX_pos; lia).
  destruct (si_add_size_t_spec (num_patterns c) 1 (proj1 Hn) H1) as [Ha Ha'].
  destruct (si_add_size_t (num_patterns c) 1) as [wraps1 sz1] eqn:E1.
  simpl in Ha, Ha'. subst wraps1.
  assert (sz1 = size_t_wrap (num_patterns c + 1)) as Esz1
    by (unfold si_add_size_t in E1; injection E1 as _ E1; congruence).
  destruct (Z.ltb_spec SIZE_MAX (num_patterns c + 1)) as [Hov1|Hok1].
  - assert ((SIZE_MAX <? (num_patterns c + 1) * sizeof_grep_pattern) = true) as ->
      by (apply Z.ltb_lt; pose proof SIZE_MAX_pos; unfold sizeof_grep_pattern; lia).
    simpl. rewrite Esz1. reflexivity.
  - specialize (Ha' eq_refl).
    assert (is_size_t sz1) as Hs1 by (unfold is_size_t in *; lia).
    assert (is_size_t sizeof_grep_pattern) as Hsz by (unfold is_size_t; split; discriminate).
    destruct (si_mul_size_t_spec sz1 sizeof_grep_pattern Hs1 Hsz) as [Hm Hm'].
    destruct (si_mul_size_t sz1 sizeof_grep_pattern) as [wraps2 sz2] eqn:E2.
    simpl in Hm, Hm'. subst wraps2.
    assert (sz2 = size_t_wrap (sz1 * sizeof_grep_pattern)) as Esz2
      by (unfold si_mul_size_t in E2; injection E2 as _ E2; congruence).
    rewrite Ha' in *.
    destruct (Z.ltb_spec SIZE_MAX ((num_patterns c + 1) * sizeof_grep_pattern)) as [Hov|Hok].
    + simpl. rewrite Esz2. reflexivity.
    + simpl. destruct (alloc w) as [ok w1]. simpl.
      destruct ok; simpl; [reflexivity|]. rewrite Esz2. reflexivity.
Qed.

(** C7.  [grep_pattern_append] has two outcomes.  When the size
    [(num_patterns + 1) * sizeof(struct grep_pattern)] fits [size_t] and
    the allocation succeeds, the count grows by one, the new pattern is
    stored behind the old ones with [compiled = false], and nothing is
    reported or freed.  When the size overflows or the allocation fails,
    the failure status is set, one diagnostic is written, the pattern
    string is freed, and the count and the stored patterns are as they
    were. *)
Theorem grep_pattern_append_outcomes (c : grep_ctx) (w : world) (s : string) :
  is_size_t (num_patterns c) ->
  let '(c', w') := grep_pattern_append c w s in
  ((num_patterns c + 1) * sizeof_grep_pattern <= SIZE_MAX /\
   fst (alloc w) = true /\
   num_patterns c' = num_patterns c + 1 /\
   patterns c' = patterns c ++ [mk_pattern s None false] /\
   status_code c' = status_code c /\
   w_stderr w' = w_stderr w /\
   w_freed w' = w_freed w)
  \/
  ((append_overflows c \/ fst (alloc w) = false) /\
   status_code c' = GREP_EXIT_FAILURE /\
   (exists m, w_stderr w' = w_stderr w ++ [m]) /\
   w_freed w' = w_freed w ++ [s] /\
   num_patterns c' = num_patterns c /\
   pattern_list c' = pattern_list c).
Proof.
  intros Hn. rewrite (grep_pattern_append_eq c w s Hn).
  unfold append_overflows.
  destruct (Z.ltb_spec SIZE_MAX ((num_patterns c + 1) * sizeof_grep_pattern)) as [Hov|Hok].
  - right. simpl. split; [left; exact Hov|].
    split; [reflexivity|]. split; [eexists; reflexivity|].
    repeat split; reflexivity.
  - simpl. destruct (alloc w) as [ok w1] eqn:Ea.
    assert (w_stderr w1 = w_stderr w /\ w_freed w1 = w_freed w) as [Hs Hf].
    { unfold alloc in Ea. destruct (next_outcome (w_alloc w)).
      injection Ea as _ <-. split; reflexivity. }
    destruct ok; simpl.
    + left. split; [exact Hok|]. split; [reflexivity|]. split; [reflexivity|].
      split.
      * apply patterns_set_patterns_app. rewrite length_app. simpl.
        pose proof (patterns_length c). unfold is_size_t in Hn. lia.
      * repeat split; assumption.
    + right. split; [right; reflexivity|]. split; [reflexivity|].
      split; [eexists; rewrite Hs; reflexivity|]. rewrite Hf.
      repeat split; reflexivity.
Qed.

End StoreProperties.

(** ** Loading patterns from a string *)

Lemma span_token_split (r : string) :
  split_nl r = fst (span_token r) :: tl (split_nl r) /\
  filter nonempty (tl (split_nl r)) = segments (snd (span_token r)).
Proof.
  induction r as [|c r [IH1 IH2]]; simpl.
  - split; reflexivity.
  - destruct (Ascii.eqb c NL); simpl; [split; reflexivity|].
    destruct (span_token r) as [t sv]. simpl in *.
    rewrite IH1. simpl. split; [reflexivity|]. exact IH2.
Qed.

Lemma segments_skip_delim (s : string) : segments (skip_delim s) = segments s.
Proof.
  induction s as [|c s IH]; simpl; [reflexivity|].
  destruct (Ascii.eqb c NL) eqn:E; [|reflexivity].
  rewrite IH. unfold segments. simpl. rewrite E. reflexivity.
Qed.

Lemma skip_delim_head (s : string) (c : ascii) (r : string) :
  skip_delim s = String c r -> Ascii.eqb c NL = false.
Proof.
  induction s as [|d s IH]; simpl; [discriminate|].
  destruct (Ascii.eqb d NL) eqn:E; [exact IH|].
  intros H. injection H as <- _. exact E.
Qed.

Lemma strtok_none (s : string) : strtok s = None -> segments s = [].
Proof.
  unfold strtok. intros H. rewrite <- segments_skip_delim.
  destruct (skip_delim s); [reflexivity|discriminate].
Qed.

Lemma strtok_some (s tok saved : string) :
  strtok s = Some (tok, saved) ->
  segments s = tok :: segments saved /\ tok <> EmptyString.
Proof.
  unfold strtok. intros H. rewrite <- segments_skip_delim.
  destruct (skip_delim s) as [|c r] eqn:E; [discriminate|].
  injection H as H. change (span_token (String c r) = (tok, saved)) in H.
  pose proof (skip_delim_head _ _ _ E) as Hc.
  destruct (span_token_split (String c r)) as [S1 S2].
  rewrite H in S1, S2. cbn [fst snd] in S1, S2.
  unfold segments at 1. rewrite S1. cbn [filter tl].
  assert (nonempty tok = true) as Hne.
  { simpl in H. rewrite Hc in H. destruct (span_token r). injection H as <- _. reflexivity. }
  rewrite Hne, S2. split; [reflexivity|]. intros ->. discriminate.
Qed.

(** The token loop runs its body on the segments, in order. *)
Lemma strtok_loop_segments {A : Type} (body : A -> string -> A) (st : A) (s : string) :
  strtok_loop body st s = fold_left body (segments s) st.
Proof.
  funelim (strtok_loop body st s);
    match goal with
    | E : strtok _ = None |- _ => rewrite (strtok_none _ E); reflexivity
    | E : strtok _ = Some _ |- _ =>
        destruct (strtok_some _ _ _ E) as [-> _]; simpl; assumption
    end.
Qed.

Lemma alloc_all_succeed (w : world) :
  all_succeed (w_alloc w) ->
  fst (alloc w) = true /\ all_succeed (w_alloc (snd (alloc w))).
Proof.
  unfold alloc, all_succeed. intros H.
  destruct (w_alloc w) as [|b l]; simpl; [split; [reflexivity|constructor]|].
  inversion H; subst. split; [reflexivity|assumption].
Qed.

Section LoadProperties.

Context {R : regex_lib}.

Lemma grep_pattern_append_ok (c : grep_ctx) (w : world) (t : string) :
  is_size_t (num_patterns c) ->
  (num_patterns c + 1) * sizeof_grep_pattern <= SIZE_MAX ->
  all_succeed (w_alloc w) ->
  grep_pattern_append c w t =
  (set_patterns c (patterns c ++ [fresh_pattern t]) (num_patterns c + 1), snd (alloc w)).
Proof.
  intros Hn Hcap Hw. rewrite grep_pattern_append_eq by exact Hn.
  destruct (alloc_all_succeed w Hw) as [-> _].
  destruct (Z.ltb_spec SIZE_MAX ((num_patterns c + 1) * sizeof_grep_pattern)); [lia|].
  reflexivity.
Qed.

Lemma patterns_after_append (c : grep_ctx) (t : string) :
  is_size_t (num_patterns c) ->
  patterns (set_patterns c (patterns c ++ [fresh_pattern t]) (num_patterns c + 1))
  = patterns c ++ [fresh_pattern t].
Proof.
  intros Hn. apply patterns_set_patterns_app. rewrite length_app. simpl.
  pose proof (patterns_length c). unfold is_size_t in Hn. lia.
Qed.

(** What the token loop of [grep_pattern_string] leaves when nothing
    fails. *)
Lemma pattern_string_body_run (buf : string) (l : list string) :
  forall (c : grep_ctx) (w : world),
    is_size_t (num_patterns c) ->
    (num_patterns c + Z.of_nat (List.length l)) * sizeof_grep_pattern <= SIZE_MAX ->
    all_succeed (w_alloc w) ->
    let st := fold_left (pattern_string_body buf) l (c, w) in
    patterns (fst st) = patterns c ++ map fresh_pattern l /\
    num_patterns (fst st) = num_patterns c + Z.of_nat (List.length l) /\
    status_code (fst st) = status_code c /\
    all_succeed (w_alloc (snd st)).
Proof.
  induction l as [|t l IH]; intros c w Hn Hcap Hw.
  - simpl. rewrite app_nil_r, Z.add_0_r. repeat split; try reflexivity. exact Hw.
  - assert (0 <= Z.of_nat (List.length l)) as Hl by lia.
    assert (sizeof_grep_pattern = 80) as Hs by reflexivity.
    assert (Z.of_nat (List.length (t :: l)) = Z.of_nat (List.length l) + 1) as Hlen
      by (simpl List.length; lia).
    rewrite Hlen in Hcap |- *.
    destruct (alloc_all_succeed w Hw) as [Hok Hw1].
    destruct (alloc_all_succeed _ Hw1) as [_ Hw2].
    assert (pattern_string_body buf (c, w) t =
            (set_patterns c (patterns c ++ [fresh_pattern t]) (num_patterns c + 1),
             snd (alloc (snd (alloc w))))) as Hstep.
    { unfold pattern_string_body. destruct (alloc w) as [ok w1].
      simpl in Hok, Hw1 |- *. subst ok. cbn [negb].
      apply grep_pattern_append_ok; [exact Hn|unfold is_size_t in Hn; lia|exact Hw1]. }
    cbn [fold_left]. rewrite Hstep.
    specialize (IH (set_patterns c (patterns c ++ [fresh_pattern t]) (num_patterns c + 1))
                  (snd (alloc (snd (alloc w))))).
    cbv zeta in IH. rewrite patterns_after_append in IH by exact Hn.
    destruct IH as [I1 [I2 [I3 I4]]].
    + unfold is_size_t in *. simpl. lia.
    + simpl. lia.
    + exact Hw2.
    + cbv zeta. split; [|split; [|split]].
      * rewrite I1. rewrite <- app_assoc. reflexivity.
      * rewrite I2. simpl num_patterns. lia.
      * rewrite I3. reflexivity.
      * exact I4.
Qed.

Lemma segments_nonempty (s : string) : Forall (fun t => t <> EmptyString) (segments s).
Proof.
  unfold segments. apply Forall_forall. intros t Ht.
  apply filter_In in Ht. destruct Ht as [_ Ht]. intros ->. discriminate.
Qed.

Lemma segments_only_newlines (s : string) :
  only_newlines s = true -> segments s = [].
Proof.
  induction s as [|c s IH]; simpl; [reflexivity|].
  intros H. apply andb_prop in H. destruct H as [Hc Hs].
  unfold segments. simpl. rewrite Hc. simpl. apply IH. exact Hs.
Qed.

(** C10.  For a non-empty pattern-list string [s], [grep_pattern_string]
    runs its loop body on the maximal non-empty newline-free segments of
    [s], in order, and on nothing else; when no allocation fails and the
    array size fits [size_t] it appends exactly these segments as
    patterns.  No segment is empty, whatever newlines [s] starts with,
    ends with or repeats, and a string of newlines only appends nothing.
    The empty string is the one input that appends an empty pattern. *)
Theorem grep_pattern_string_appends_segments (c : grep_ctx) (w : world) (s : string) :
  is_size_t (num_patterns c) ->
  (num_patterns c + Z.of_nat (List.length (segments s)) + 1) * sizeof_grep_pattern
    <= SIZE_MAX ->
  all_succeed (w_alloc w) ->
  let c' := fst (grep_pattern_string c w s) in
  (s <> EmptyString ->
     grep_pattern_string c w s =
       fold_left (pattern_string_body (buffer_after_strtok s)) (segments s) (c, w) /\
     patterns c' = patterns c ++ map fresh_pattern (segments s) /\
     num_patterns c' = num_patterns c + Z.of_nat (List.length (segments s))) /\
  Forall (fun t => t <> EmptyString) (segments s) /\
  (s <> EmptyString -> only_newlines s = true -> patterns c' = patterns c) /\
  (s = EmptyString -> patterns c' = patterns c ++ [fresh_pattern EmptyString]).
Proof.
  intros Hn Hcap Hw.
  assert (sizeof_grep_pattern = 80) as Hs by reflexivity.
  assert (s <> EmptyString ->
          grep_pattern_string c w s =
          fold_left (pattern_string_body (buffer_after_strtok s)) (segments s) (c, w)) as Heq.
  { intros Hne. unfold grep_pattern_string.
    destruct s as [|a s]; [congruence|]. apply strtok_loop_segments. }
  assert (s <> EmptyString ->
          patterns (fst (grep_pattern_string c w s)) =
            patterns c ++ map fresh_pattern (segments s) /\
          num_patterns (fst (grep_pattern_string c w s)) =
            num_patterns c + Z.of_nat (List.length (segments s))) as Hrun.
  { intros Hne. rewrite (Heq Hne).
    destruct (pattern_string_body_run (buffer_after_strtok s) (segments s) c w Hn)
      as [P1 [P2 _]]; [lia|exact Hw|].
    split; assumption. }
  cbv zeta. split; [|split; [|split]].
  - intros Hne. split; [exact (Heq Hne)|exact (Hrun Hne)].
  - apply segments_nonempty.
  - intros Hne Hnl. destruct (Hrun Hne) as [P _]. rewrite P.
    rewrite (segments_only_newlines s Hnl). simpl. apply app_nil_r.
  - intros ->. unfold grep_pattern_string.
    destruct (alloc_all_succeed w Hw) as [Hok Hw1].
    destruct (alloc w) as [ok w1]. simpl in Hok, Hw1. subst ok. cbn [negb].
    rewrite grep_pattern_append_ok; [|exact Hn| |exact Hw1].
    + simpl fst. apply patterns_after_append. exact Hn.
    + simpl in Hcap. unfold is_size_t in Hn. lia.
Qed.

End LoadProperties.

(** ** Loading patterns from a file *)

(** A read loop whose body never leaves with [break] runs the body on
    every record and drains the stream. *)
Lemma read_loop_no_break {A : Type} (step : A -> string -> A) (pending : list string) :
  forall (st : A) (fail errind closef : bool),
    read_loop (fun st raw => (step st raw, false)) st pending fail errind closef =
    (fold_left step pending st, mk_FILE [] fail fail closef).
Proof.
  induction pending as [|raw rest IH]; intros st fail errind closef; simpl.
  - reflexivity.
  - apply IH.
Qed.

Lemma read_loop_ext {A : Type} (body body' : A -> string -> A * bool)
    (pending : list string) :
  (forall st raw, body st raw = body' st raw) ->
  forall (st : A) (fail errind closef : bool),
    read_loop body st pending fail errind closef =
    read_loop body' st pending fail errind closef.
Proof.
  intros Hb. induction pending as [|raw rest IH]; intros st fail errind closef; simpl.
  - reflexivity.
  - rewrite Hb. destruct (body' st raw) as [st1 brk]. destruct brk; [reflexivity|apply IH].
Qed.

Lemma length_c_str (buf : string) : (String.length (c_str buf) <= String.length buf)%nat.
Proof.
  induction buf as [|c buf IH]; simpl; [lia|].
  destruct (Ascii.eqb c NUL); simpl; lia.
Qed.

Lemma length_drop_last (c : ascii) (buf : string) :
  String.length (drop_last (String c buf)) = String.length buf.
Proof.
  revert c. induction buf as [|d buf IH]; intros c; [reflexivity|].
  change (drop_last (String c (String d buf))) with (String c (drop_last (String d buf))).
  cbn [String.length]. rewrite IH. reflexivity.
Qed.

(** A record that ends with its newline and holds no NUL loses exactly
    the newline. *)
Lemma chomp_terminated (content : string) :
  c_str content = content ->
  chomp (content ++ String NL EmptyString)%string = content.
Proof.
  unfold chomp. intros H.
  assert (drop_last (content ++ String NL EmptyString)%string = content) as ->; [|exact H].
  clear H. induction content as [|c content IH]; [reflexivity|].
  simpl append. destruct (content ++ String NL EmptyString)%string eqn:E.
  - destruct content; discriminate.
  - change (String c (drop_last (String a s)) = String c content). rewrite IH. reflexivity.
Qed.

(** [getline] cuts the stream without losing or adding a byte. *)
Lemma records_from_concat (data : string) :
  forall cur, fold_right (fun r acc => (r ++ acc)%string) EmptyString (records_from cur data)
              = (cur ++ data)%string.
Proof.
  induction data as [|c data IH]; intros cur; simpl.
  - destruct cur; simpl; [reflexivity|]. rewrite !sapp_nil_r. reflexivity.
  - destruct (Ascii.eqb c NL); simpl; rewrite IH, ?sapp_assoc; reflexivity.
Qed.

Lemma records_concat (data : string) :
  fold_right (fun r acc => (r ++ acc)%string) EmptyString (records data) = data.
Proof. unfold records. rewrite records_from_concat. reflexivity. Qed.

Lemma records_from_plain (line : string) :
  forall cur rest,
    plain_line line = true ->
    records_from cur (terminated line ++ rest)%string
    = (cur ++ terminated line)%string :: records_from EmptyString rest.
Proof.
  unfold terminated.
  induction line as [|c line IH]; intros cur rest Hp; simpl.
  - reflexivity.
  - simpl in Hp. apply andb_prop in Hp. destruct Hp as [Hc Hp].
    apply andb_prop in Hc. destruct Hc as [Hnl _].
    destruct (Ascii.eqb c NL); [discriminate|].
    rewrite IH by exact Hp. rewrite sapp_assoc. reflexivity.
Qed.

(** A text made of terminated lines is read back line by line. *)
Lemma records_text_of (lines : list string) :
  forallb plain_line lines = true -> records (text_of lines) = map terminated lines.
Proof.
  unfold records. induction lines as [|l lines IH]; intros H; [reflexivity|].
  simpl in H. apply andb_prop in H. destruct H as [Hl H].
  cbn [text_of fold_right map]. rewrite records_from_plain by exact Hl.
  fold (text_of lines). rewrite IH by exact H. reflexivity.
Qed.

Lemma c_str_plain (line : string) : plain_line line = true -> c_str line = line.
Proof.
  induction line as [|c line IH]; intros H; [reflexivity|].
  simpl in H. apply andb_prop in H. destruct H as [Hc H].
  apply andb_prop in Hc. destruct Hc as [_ Hnul].
  simpl. destruct (Ascii.eqb c NUL); [discriminate|]. rewrite IH by exact H. reflexivity.
Qed.

Section FileProperties.

Context {R : regex_lib}.

(** C3.  [grep_pattern_file] does not strip the line terminator, it
    overwrites the last byte [getline] returned, whatever it is: every
    record loses a character, also a last line that ends without a
    newline.  From a pattern file holding "abc" and no newline the pattern
    appended is "ab". *)
Theorem grep_pattern_file_truncates_unterminated_line :
  (forall (c : ascii) (raw : string),
     (String.length (chomp (String c raw)) < String.length (String c raw))%nat) /\
  getline (stream_of "abc") = (Some "abc", mk_FILE [] false false false) /\
  map pattern
    (patterns
       (fst (grep_pattern_file zero_ctx
               (mk_world [] [] [] [] [] unterminated_pattern_file (stream_of EmptyString))
               "patterns")))
  = ["ab"].
Proof.
  split.
  - intros c raw. unfold chomp.
    pose proof (length_c_str (drop_last (String c raw))) as H.
    rewrite length_drop_last in H.
    change (String.length (String c raw)) with (S (String.length raw)). lia.
  - split; reflexivity.
Qed.

(** What the loader does appends, when nothing fails: one pattern per
    record, the record cut by its last byte. *)
Lemma pattern_file_body_run (l : list string) :
  forall (c : grep_ctx) (w : world),
    is_size_t (num_patterns c) ->
    (num_patterns c + Z.of_nat (List.length l)) * sizeof_grep_pattern <= SIZE_MAX ->
    all_succeed (w_alloc w) ->
    let st := fold_left (fun st raw => fst (pattern_file_body st raw)) l (c, w) in
    patterns (fst st) = patterns c ++ map (fun raw => fresh_pattern (chomp raw)) l /\
    num_patterns (fst st) = num_patterns c + Z.of_nat (List.length l) /\
    status_code (fst st) = status_code c /\
    all_succeed (w_alloc (snd st)).
Proof.
  induction l as [|raw l IH]; intros c w Hn Hcap Hw.
  - simpl. rewrite app_nil_r, Z.add_0_r. repeat split; try reflexivity. exact Hw.
  - assert (0 <= Z.of_nat (List.length l)) as Hl by lia.
    assert (sizeof_grep_pattern = 80) as Hs by reflexivity.
    assert (Z.of_nat (List.length (raw :: l)) = Z.of_nat (List.length l) + 1) as Hlen
      by (simpl List.length; lia).
    rewrite Hlen in Hcap |- *.
    destruct (alloc_all_succeed w Hw) as [_ Hw1].
    assert (fst (pattern_file_body (c, w) raw) =
            (set_patterns c (patterns c ++ [fresh_pattern (chomp raw)]) (num_patterns c + 1),
             snd (alloc w))) as Hstep.
    { unfold pattern_file_body. cbn [fst].
      apply grep_pattern_append_ok; [exact Hn|unfold is_size_t in Hn; lia|exact Hw]. }
    cbn [fold_left]. rewrite Hstep.
    specialize (IH (set_patterns c (patterns c ++ [fresh_pattern (chomp raw)]) (num_patterns c + 1))
                  (snd (alloc w))).
    cbv zeta in IH. rewrite patterns_after_append in IH by exact Hn.
    destruct IH as [I1 [I2 [I3 I4]]].
    + unfold is_size_t in *. simpl. lia.
    + simpl. lia.
    + exact Hw1.
    + cbv zeta. split; [|split; [|split]].
      * rewrite I1. rewrite <- app_assoc. reflexivity.
      * rewrite I2. simpl num_patterns. lia.
      * rewrite I3. reflexivity.
      * exact I4.
Qed.

(** X19.  On a pattern file whose lines all end with their newline the loader
    does append the lines, when nothing fails. *)
Lemma grep_pattern_file_terminated_lines (c : grep_ctx) (w : world) (path : string)
    (lines : list string) :
  w_fopen w path = inl (stream_of (text_of lines)) ->
  forallb plain_line lines = true ->
  is_size_t (num_patterns c) ->
  (num_patterns c + Z.of_nat (List.length lines)) * sizeof_grep_pattern <= SIZE_MAX ->
  all_succeed (w_alloc w) ->
  patterns (fst (grep_pattern_file c w path)) = patterns c ++ map fresh_pattern lines /\
  status_code (fst (grep_pattern_file c w path)) = status_code c.
Proof.
  intros Hf Hp Hn Hcap Hw. unfold grep_pattern_file. rewrite Hf.
  unfold getline_loop, stream_of. cbn [f_pending f_fail f_errind f_close_fails].
  rewrite (records_text_of lines Hp).
  rewrite (read_loop_ext pattern_file_body
             (fun st raw => (fst (pattern_file_body st raw), false)))
    by (intros [c0 w0] raw; reflexivity).
  rewrite read_loop_no_break.
  cbn [ferror fclose_failed f_errind f_close_fails].
  destruct (pattern_file_body_run (map terminated lines) c w Hn) as [P1 [_ [P3 _]]].
  - rewrite length_map. exact Hcap.
  - exact Hw.
  - destruct (fold_left _ (map terminated lines) (c, w)) as [c1 w1].
    cbn [fst] in *. split; [|exact P3]. rewrite P1, map_map. f_equal.
    clear -Hp. induction lines as [|l lines IH]; [reflexivity|].
    simpl in Hp. apply andb_prop in Hp. destruct Hp as [Hl Hp].
    cbn [map]. rewrite IH by exact Hp. f_equal. f_equal.
    unfold terminated. apply chomp_terminated. apply c_str_plain. exact Hl.
Qed.

End FileProperties.

(** ** Scanning with file names only *)

Section ScanProperties.

Context {R : regex_lib}.

(** Lines that do not match only advance the line counter. *)
Lemma output_fp_body_no_match (path : string) (st : scan_state) (raw : string) :
  grep_match_output_line (sc_ctx st) (chomp raw) = false ->
  output_fp_body path st raw =
  (mk_scan (sc_ctx st) (sc_world st) (sc_line_i st + 1) (sc_match_i st), false).
Proof.
  intros H. unfold output_fp_body. rewrite H. reflexivity.
Qed.

Lemma read_loop_skip_no_match (path : string) (pre : list string) :
  forall (c : grep_ctx) (w : world) (line_i match_i : Z) (rest : list string)
         (fail errind closef : bool),
    (forall raw, In raw pre -> grep_match_output_line c (chomp raw) = false) ->
    read_loop (output_fp_body path) (mk_scan c w line_i match_i) (pre ++ rest)
      fail errind closef =
    read_loop (output_fp_body path)
      (mk_scan c w (line_i + Z.of_nat (List.length pre)) match_i) rest
      fail errind closef.
Proof.
  induction pre as [|raw pre IH]; intros c w line_i match_i rest fail errind closef H.
  - simpl. rewrite Z.add_0_r. reflexivity.
  - cbn [app read_loop]. rewrite output_fp_body_no_match by (apply H; left; reflexivity).
    cbn [sc_ctx sc_world sc_line_i sc_match_i].
    rewrite IH by (intros r Hr; apply H; right; exact Hr).
    f_equal. f_equal. simpl List.length. lia.
Qed.

(** The match function, the patterns and the flags of a context do not
    depend on its status. *)
Lemma grep_match_output_line_set_status (c : grep_ctx) (s : exit_status) (line : string) :
  grep_match_output_line (set_status_code c s) line = grep_match_output_line c line.
Proof.
  unfold grep_match_output_line. rewrite !match_loop_orb. reflexivity.
Qed.

(** C4.  With [write_file_names] set (and no line count asked for), on a
    stream whose first matching line is [hit], [grep_match_output_fp]
    stops at [hit]: the records behind it are left unread in the stream,
    and the only output is the path, written by one [puts] call (once if
    that call succeeds, and under no circumstances more than once). *)
Theorem filenames_only_stops_at_first_match (c : grep_ctx) (w : world)
    (path : string) (fp : FILE) (pre post : list string) (hit : string) :
  write_file_names c = true ->
  line_count c = false ->
  f_pending fp = pre ++ hit :: post ->
  (forall raw, In raw pre -> grep_match_output_line c (chomp raw) = false) ->
  grep_match_output_line c (chomp hit) = true ->
  let '(c', w', fp') := grep_match_output_fp c w path fp in
  f_pending fp' = post /\
  w_stdout w' =
    w_stdout w ++
    (if fst (next_outcome (w_write w)) then [(path ++ String NL EmptyString)%string] else []) /\
  status_code c' <> GREP_EXIT_NOMATCH.
Proof.
  intros Hl Hc Hfp Hpre Hhit.
  unfold grep_match_output_fp, getline_loop. rewrite Hfp.
  rewrite read_loop_skip_no_match by exact Hpre.
  cbn [read_loop]. unfold output_fp_body.
  cbn [sc_ctx sc_world sc_line_i sc_match_i]. rewrite Hhit.
  set (c1 := if negb (exit_status_eqb (status_code c) GREP_EXIT_FAILURE)
             then set_status_code c GREP_EXIT_MATCH else c).
  assert (write_file_names c1 = true) as Hl1
    by (unfold c1; destruct (negb _); [exact Hl|exact Hl]).
  assert (line_count c1 = false) as Hc1
    by (unfold c1; destruct (negb _); [exact Hc|exact Hc]).
  assert (status_code c1 <> GREP_EXIT_NOMATCH) as Hs1.
  { unfold c1. destruct (status_code c) eqn:E; simpl; rewrite ?E; discriminate. }
  rewrite Hl1. unfold puts, write_out.
  destruct (next_outcome (w_write w)) as [ok rest]. cbn [fst negb].
  destruct ok; cbn [negb grep_warn sc_ctx sc_world sc_match_i ferror f_errind].
  - destruct (f_errind fp); cbn [grep_warn line_count set_status_code emit_warning];
      rewrite Hc1; cbn [f_pending w_stdout status_code];
      (split; [reflexivity|split; [reflexivity|]]); [discriminate|exact Hs1].
  - destruct (f_errind fp); cbn [grep_warn line_count set_status_code emit_warning];
      rewrite Hc1; cbn [f_pending w_stdout status_code];
      (split; [reflexivity|split; [rewrite app_nil_r; reflexivity|discriminate]]).
Qed.

End ScanProperties.

(** ** Anchoring and compilation *)

Section CompileProperties.

Context {R : regex_lib}.

Lemma set_status_code_same (c : grep_ctx) : set_status_code c (status_code c) = c.
Proof. destruct c; reflexivity. Qed.

(** The two ways out of [grep_pattern_add_bol_eol]. *)
Lemma grep_pattern_add_bol_eol_cases (c : grep_ctx) (w : world) (p : grep_pattern) :
  (anchor_fits p /\ fst (alloc w) = true /\
   grep_pattern_add_bol_eol c w p =
   (c, free_str (snd (alloc w)) (pattern p),
    mk_pattern (anchored (pattern p)) (regex p) (compiled p)))
  \/
  ((~ anchor_fits p \/ fst (alloc w) = false) /\
   exists w1, grep_pattern_add_bol_eol c w p = (set_status_code c GREP_EXIT_FAILURE, w1, p) /\
              w_alloc w1 = (if Z.of_nat (String.length (pattern p)) + 5 <=? SIZE_MAX
                            then w_alloc (snd (alloc w)) else w_alloc w)).
Proof.
  unfold grep_pattern_add_bol_eol, anchor_fits.
  assert (is_size_t 5) as H5 by (unfold is_size_t; split; discriminate).
  destruct (si_add_size_t_spec (Z.of_nat (String.length (pattern p))) 5 ltac:(lia) H5)
    as [Ha _].
  destruct (si_add_size_t (Z.of_nat (String.length (pattern p))) 5) as [wraps sz].
  simpl in Ha. subst wraps.
  destruct (Z.ltb_spec SIZE_MAX (Z.of_nat (String.length (pattern p)) + 5)) as [Hov|Hok].
  - right. split; [left; lia|]. eexists. split; [reflexivity|].
    destruct (Z.leb_spec (Z.of_nat (String.length (pattern p)) + 5) SIZE_MAX); [lia|].
    reflexivity.
  - destruct (alloc w) as [ok w1]. destruct ok; cbn [negb fst snd].
    + left. split; [exact Hok|]. split; reflexivity.
    + right. split; [right; reflexivity|]. eexists. split; [reflexivity|].
      destruct (Z.leb_spec (Z.of_nat (String.length (pattern p)) + 5) SIZE_MAX); [|lia].
      reflexivity.
Qed.

(** One iteration of the compile loop: the context only changes in its
    status, the compiled form is [regcomp]'s answer for the text the
    pattern ends up with, and a failure leaves the failure status. *)
Lemma compile_one_spec (c : grep_ctx) (w : world) (cflags : Z) (p : grep_pattern) :
  let '(c1, w1, p1) := compile_one c w cflags p in
  c1 = set_status_code c (status_code c1) /\
  (status_code c1 = status_code c \/ status_code c1 = GREP_EXIT_FAILURE) /\
  compiled_from_text cflags p1 /\
  (compile_fails cflags p1 -> status_code c1 = GREP_EXIT_FAILURE) /\
  (pattern p1 = (if full_string_match c then anchored (pattern p) else pattern p) \/
   (pattern p1 = pattern p /\ status_code c1 = GREP_EXIT_FAILURE)) /\
  (all_succeed (w_alloc w) ->
   all_succeed (w_alloc w1) /\
   (anchor_fits p ->
    pattern p1 = if full_string_match c then anchored (pattern p) else pattern p)).
Proof.
  unfold compile_one, compiled_from_text, compile_fails.
  destruct (full_string_match c) eqn:Ex.
  - destruct (grep_pattern_add_bol_eol_cases c w p)
      as [[Hfit [Hal ->]]|[Hbad [w1 [-> Hw1]]]].
    + cbn [pattern regex compiled].
      destruct (regcomp (anchored (pattern p)) cflags) as [r|e] eqn:Er;
        cbn [grep_warn pattern regex compiled status_code set_status_code];
        rewrite ?Er.
      * rewrite set_status_code_same.
        split; [reflexivity|]. split; [left; reflexivity|]. split; [split; reflexivity|].
        split; [intros [e He]; discriminate|]. split; [left; reflexivity|].
        intros Hw. split; [|reflexivity].
        destruct (alloc_all_succeed w Hw) as [_ H]. exact H.
      * split; [reflexivity|]. split; [right; reflexivity|]. split; [reflexivity|].
        split; [reflexivity|]. split; [left; reflexivity|].
        intros Hw. split; [|reflexivity].
        destruct (alloc_all_succeed w Hw) as [_ H]. exact H.
    + destruct (regcomp (pattern p) cflags) as [r|e] eqn:Er;
        cbn [grep_warn pattern regex compiled status_code set_status_code];
        rewrite ?Er.
      * split; [reflexivity|]. split; [right; reflexivity|]. split; [split; reflexivity|].
        split; [intros [e He]; discriminate|]. split; [right; split; reflexivity|].
        intros Hw. destruct (alloc_all_succeed w Hw) as [Hok Hw'].
        split.
        -- cbn [emit_warning w_alloc]. rewrite Hw1.
           destruct (_ <=? _); [exact Hw'|exact Hw].
        -- intros Hfit. destruct Hbad as [Hbad|Hbad]; [contradiction|congruence].
      * split; [reflexivity|]. split; [right; reflexivity|]. split; [reflexivity|].
        split; [reflexivity|]. split; [right; split; reflexivity|].
        intros Hw. destruct (alloc_all_succeed w Hw) as [Hok Hw'].
        split.
        -- cbn [emit_warning w_alloc]. rewrite Hw1.
           destruct (_ <=? _); [exact Hw'|exact Hw].
        -- intros Hfit. destruct Hbad as [Hbad|Hbad]; [contradiction|congruence].
  - destruct (regcomp (pattern p) cflags) as [r|e] eqn:Er;
      cbn [grep_warn pattern regex compiled status_code set_status_code];
      rewrite ?Er.
    + rewrite set_status_code_same.
      split; [reflexivity|]. split; [left; reflexivity|]. split; [split; reflexivity|].
      split; [intros [e He]; discriminate|]. split; [left; reflexivity|].
      intros Hw. split; [exact Hw|reflexivity].
    + split; [reflexivity|]. split; [right; reflexivity|]. split; [reflexivity|].
      split; [reflexivity|]. split; [left; reflexivity|].
      intros Hw. split; [exact Hw|reflexivity].
Qed.

Lemma compile_loop_spec (cflags : Z) (todo : list grep_pattern) :
  forall (c : grep_ctx) (w : world),
    let '(c', w', done) := compile_loop c w cflags todo in
    c' = set_status_code c (status_code c') /\
    (status_code c' = status_code c \/ status_code c' = GREP_EXIT_FAILURE) /\
    List.length done = List.length todo /\
    Forall (compiled_from_text cflags) done /\
    (Exists (compile_fails cflags) done -> status_code c' = GREP_EXIT_FAILURE) /\
    Forall2 (fun p p1 => pattern p1 = compile_text c p \/
                         (pattern p1 = pattern p /\ status_code c' = GREP_EXIT_FAILURE))
            todo done /\
    (all_succeed (w_alloc w) ->
     all_succeed (w_alloc w') /\
     (Forall anchor_fits todo -> map pattern done = map (compile_text c) todo)).
Proof.
  induction todo as [|p todo IH]; intros c w.
  - simpl. rewrite set_status_code_same.
    split; [reflexivity|]. split; [left; reflexivity|]. split; [reflexivity|].
    split; [constructor|]. split; [intros H; inversion H|]. split; [constructor|].
    intros Hw. split; [exact Hw|reflexivity].
  - cbn [compile_loop].
    pose proof (compile_one_spec c w cflags p) as H1.
    destruct (compile_one c w cflags p) as [[c1 w1] p1].
    destruct H1 as [Hc1 [Hs1 [Hcf1 [Hfail1 [Htxt1 Hal1]]]]].
    specialize (IH c1 w1).
    destruct (compile_loop c1 w1 cflags todo) as [[c2 w2] done].
    destruct IH as [Hc2 [Hs2 [Hlen [Hcf2 [Hfail2 [Htxt2 Hal2]]]]]].
    assert (full_string_match c1 = full_string_match c) as Hx
      by (rewrite Hc1; reflexivity).
    assert (status_code c1 = GREP_EXIT_FAILURE -> status_code c2 = GREP_EXIT_FAILURE) as Habs
      by (intros E; destruct Hs2 as [Hs2|Hs2]; congruence).
    split; [rewrite Hc2, Hc1; reflexivity|].
    split; [destruct Hs1 as [Hs1|Hs1]; [rewrite <- Hs1; exact Hs2|right; auto]|].
    split; [simpl; rewrite Hlen; reflexivity|].
    split; [constructor; assumption|].
    split; [intros H; inversion H; subst; auto|].
    split.
    + constructor.
      * unfold compile_text. destruct Htxt1 as [Ht|[Ht Hf]]; [left; exact Ht|right; auto].
      * eapply Forall2_impl; [|exact Htxt2]. intros a b Hab. cbv beta in Hab |- *.
        unfold compile_text in *. rewrite Hx in Hab. exact Hab.
    + intros Hw. destruct (Hal1 Hw) as [Hw1 Ht1]. destruct (Hal2 Hw1) as [Hw2 Ht2].
      split; [exact Hw2|]. intros Hfit. inversion Hfit; subst.
      simpl. rewrite (Ht1 ltac:(assumption)), (Ht2 ltac:(assumption)).
      unfold compile_text. rewrite Hx. reflexivity.
Qed.

Lemma patterns_compiled (c c1 : grep_ctx) (done : list grep_pattern) :
  num_patterns c1 = num_patterns c ->
  List.length done = List.length (patterns c) ->
  patterns (set_patterns c1 (done ++ skipn (Z.to_nat (num_patterns c)) (pattern_list c))
              (num_patterns c1)) = done.
Proof.
  intros Hn Hlen. unfold patterns in *. cbn [num_patterns pattern_list set_patterns].
  rewrite Hn. rewrite length_firstn in Hlen.
  destruct (Nat.le_gt_cases (Z.to_nat (num_patterns c)) (List.length (pattern_list c)))
    as [Hle|Hgt].
  - rewrite firstn_app. rewrite Hlen, Nat.min_l by exact Hle.
    rewrite Nat.sub_diag, firstn_O, app_nil_r. apply firstn_all2. lia.
  - rewrite skipn_all2 by lia. rewrite app_nil_r. apply firstn_all2. lia.
Qed.

(** [grep_compile_pattern_list] as a whole. *)
Lemma grep_compile_pattern_list_spec (c : grep_ctx) (w : world) :
  let '(c', w') := grep_compile_pattern_list c w in
  let cflags := compile_cflags c in
  (status_code c' = status_code c \/ status_code c' = GREP_EXIT_FAILURE) /\
  num_patterns c' = num_patterns c /\
  fn_match c' = fn_match c /\
  Forall (compiled_from_text cflags) (patterns c') /\
  (Exists (compile_fails cflags) (patterns c') -> status_code c' = GREP_EXIT_FAILURE) /\
  Forall2 (fun p p1 => pattern p1 = compile_text c p \/
                       (pattern p1 = pattern p /\ status_code c' = GREP_EXIT_FAILURE))
          (patterns c) (patterns c') /\
  (all_succeed (w_alloc w) -> Forall anchor_fits (patterns c) ->
   map pattern (patterns c') = map (compile_text c) (patterns c)).
Proof.
  unfold grep_compile_pattern_list.
  pose proof (compile_loop_spec (compile_cflags c) (patterns c) c w) as H.
  destruct (compile_loop c w (compile_cflags c) (patterns c)) as [[c1 w1] done].
  destruct H as [Hc1 [Hs1 [Hlen [Hcf [Hfail [Htxt Hal]]]]]].
  assert (num_patterns c1 = num_patterns c) as Hn by (rewrite Hc1; reflexivity).
  rewrite (patterns_compiled c c1 done Hn Hlen). cbv zeta.
  cbn [status_code num_patterns fn_match set_patterns].
  split; [exact Hs1|]. split; [exact Hn|]. split; [rewrite Hc1; reflexivity|].
  split; [exact Hcf|]. split; [exact Hfail|]. split; [exact Htxt|].
  intros Hw Hfit. destruct (Hal Hw) as [_ Ht]. exact (Ht Hfit).
Qed.

End CompileProperties.

(** ** What touches the standard streams *)

Lemma fold_left_preserves {A B C : Type} (f : A -> C) (step : A -> B -> A) :
  (forall st b, f (step st b) = f st) ->
  forall l st, f (fold_left step l st) = f st.
Proof.
  intros Hstep. induction l as [|b l IH]; intros st; [reflexivity|].
  cbn [fold_left]. rewrite IH. apply Hstep.
Qed.

Lemma read_loop_preserves {A C : Type} (f : A -> C) (body : A -> string -> A * bool) :
  (forall st raw, f (fst (body st raw)) = f st) ->
  forall pending st fail errind closef,
    f (fst (read_loop body st pending fail errind closef)) = f st.
Proof.
  intros Hbody. induction pending as [|raw rest IH]; intros st fail errind closef.
  - reflexivity.
  - cbn [read_loop]. specialize (Hbody st raw).
    destruct (body st raw) as [st1 brk]. cbn [fst] in Hbody.
    destruct brk; [exact Hbody|]. rewrite IH. exact Hbody.
Qed.

Lemma alloc_io (w : world) : io_of (snd (alloc w)) = io_of w.
Proof. unfold alloc. destruct (next_outcome (w_alloc w)). reflexivity. Qed.

Section StreamProperties.

Context {R : regex_lib}.

Lemma grep_pattern_append_io (c : grep_ctx) (w : world) (s : string) :
  io_at (grep_pattern_append c w s) = io_of w.
Proof.
  unfold grep_pattern_append.
  destruct (si_add_size_t (num_patterns c) 1) as [wraps1 sz1].
  destruct (if wraps1 then (true, sz1) else si_mul_size_t sz1 sizeof_grep_pattern)
    as [wraps sz].
  destruct wraps; [reflexivity|].
  pose proof (alloc_io w) as H. destruct (alloc w) as [ok w1].
  destruct ok; exact H.
Qed.

Lemma pattern_string_body_io (buf : string) (st : grep_ctx * world) (tok : string) :
  io_at (pattern_string_body buf st tok) = io_at st.
Proof.
  destruct st as [c w]. unfold pattern_string_body.
  pose proof (alloc_io w) as H. destruct (alloc w) as [ok w1].
  destruct ok; cbn [negb].
  - rewrite grep_pattern_append_io. exact H.
  - exact H.
Qed.

Lemma grep_pattern_string_io (c : grep_ctx) (w : world) (s : string) :
  io_at (grep_pattern_string c w s) = io_of w.
Proof.
  unfold grep_pattern_string. destruct s as [|a s].
  - pose proof (alloc_io w) as H. destruct (alloc w) as [ok w1].
    destruct ok; cbn [negb]; [rewrite grep_pattern_append_io|]; exact H.
  - rewrite strtok_loop_segments.
    apply (fold_left_preserves io_at _ (pattern_string_body_io _) _ (c, w)).
Qed.

Lemma pattern_file_body_io (st : grep_ctx * world) (raw : string) :
  io_at (fst (pattern_file_body st raw)) = io_at st.
Proof.
  destruct st as [c w]. unfold pattern_file_body. cbn [fst].
  apply grep_pattern_append_io.
Qed.

Lemma grep_pattern_file_io (c : grep_ctx) (w : world) (path : string) :
  io_at (grep_pattern_file c w path) = io_of w.
Proof.
  unfold grep_pattern_file. destruct (w_fopen w path) as [fp|e]; [|reflexivity].
  pose proof (read_loop_preserves io_at pattern_file_body pattern_file_body_io
                (f_pending fp) (c, w) (f_fail fp) (f_errind fp) (f_close_fails fp)) as H.
  unfold getline_loop.
  destruct (read_loop pattern_file_body (c, w) (f_pending fp) (f_fail fp)
              (f_errind fp) (f_close_fails fp)) as [[c1 w1] fp1].
  destruct (ferror fp1), (fclose_failed fp1); exact H.
Qed.

Lemma compile_one_io (c : grep_ctx) (w : world) (cflags : Z) (p : grep_pattern) :
  io_at (fst (compile_one c w cflags p)) = io_of w.
Proof.
  unfold compile_one, grep_pattern_add_bol_eol.
  destruct (full_string_match c).
  - destruct (si_add_size_t _ 5) as [wraps sz].
    destruct wraps.
    + cbn [grep_warn]. destruct (regcomp (pattern p) cflags); reflexivity.
    + pose proof (alloc_io w) as H. destruct (alloc w) as [ok w1].
      destruct ok; cbn [negb grep_warn pattern];
        match goal with |- context [regcomp ?t cflags] => destruct (regcomp t cflags) end;
        exact H.
  - destruct (regcomp (pattern p) cflags); reflexivity.
Qed.

Lemma compile_loop_io (cflags : Z) (todo : list grep_pattern) :
  forall (c : grep_ctx) (w : world),
    io_at (fst (compile_loop c w cflags todo)) = io_of w.
Proof.
  induction todo as [|p todo IH]; intros c w; [reflexivity|].
  cbn [compile_loop]. pose proof (compile_one_io c w cflags p) as H1.
  destruct (compile_one c w cflags p) as [[c1 w1] p1].
  specialize (IH c1 w1). destruct (compile_loop c1 w1 cflags todo) as [[c2 w2] done].
  unfold io_at in *. cbn [fst snd] in *. congruence.
Qed.

Lemma main_compile_io (c : grep_ctx) (w : world) :
  io_at (main_compile c w) = io_of w.
Proof.
  unfold main_compile, grep_compile_pattern_list.
  destruct (negb (fixed_string (grep_set_fn_match c))); [|reflexivity].
  pose proof (compile_loop_io (compile_cflags (grep_set_fn_match c))
                (patterns (grep_set_fn_match c)) (grep_set_fn_match c) w) as H.
  destruct (compile_loop _ w _ _) as [[c1 w1] done]. exact H.
Qed.

Lemma main_option_io (st : grep_ctx * world) (o : getopt_result) :
  io_at (main_option (fst st) (snd st) o) = io_at st.
Proof.
  destruct st as [c w]. unfold main_option. cbn [fst snd].
  repeat match goal with
         | |- context [if Ascii.eqb ?a ?b then _ else _] => destruct (Ascii.eqb a b)
         end;
    first [ reflexivity
          | apply grep_pattern_string_io
          | apply grep_pattern_file_io ].
Qed.

Lemma main_options_io (c : grep_ctx) (w : world) (opts : list getopt_result) :
  io_at (main_options c w opts) = io_of w.
Proof.
  unfold main_options.
  apply (fold_left_preserves io_at
           (fun st o => main_option (fst st) (snd st) o) main_option_io opts (c, w)).
Qed.

Lemma main_checks_io (c : grep_ctx) (w : world) (argv : list string) :
  io_at (fst (main_checks c w argv)) = io_of w.
Proof.
  unfold main_checks.
  destruct (extended_reg_expr c && fixed_string c); cbn [grep_warn];
    match goal with
    | |- context [if ?b then grep_warn ?c1 ?w1 _ _ _ else _] => destruct b
    end; cbn [grep_warn];
    match goal with
    | |- context [(num_patterns ?c2 =? 0)%Z] => destruct (num_patterns c2 =? 0)%Z
    end;
    try reflexivity;
    (destruct argv as [|a argv']; [reflexivity|]);
    cbn [fst]; rewrite grep_pattern_string_io; reflexivity.
Qed.

Lemma grep_free_pattern_list_io (c : grep_ctx) (w : world) :
  io_at (grep_free_pattern_list c w) = io_of w.
Proof.
  unfold grep_free_pattern_list, io_at. cbn [snd].
  apply (fold_left_preserves io_of (fun w0 p => free_str w0 (pattern p))).
  reflexivity.
Qed.

(** Up to the scanning step [grep_main] writes nothing to the standard
    output and reads nothing from the standard input; if the status is
    the failure status by then, it never does. *)
Lemma grep_main_no_scan_after_failure (opts : list getopt_result) (argv : list string)
    (w : world) :
  let '(c1, w1) := main_options (set_status_code zero_ctx GREP_EXIT_NOMATCH) w opts in
  let '(c2, w2, argv1) := main_checks c1 w1 argv in
  let '(c3, w3) := main_compile c2 w2 in
  io_of w3 = io_of w /\
  (status_code c3 = GREP_EXIT_FAILURE ->
   fst (grep_main opts argv w) = GREP_EXIT_FAILURE /\
   io_of (snd (grep_main opts argv w)) = io_of w).
Proof.
  unfold grep_main.
  pose proof (main_options_io (set_status_code zero_ctx GREP_EXIT_NOMATCH) w opts) as H1.
  destruct (main_options (set_status_code zero_ctx GREP_EXIT_NOMATCH) w opts) as [c1 w1].
  pose proof (main_checks_io c1 w1 argv) as H2.
  destruct (main_checks c1 w1 argv) as [[c2 w2] argv1].
  pose proof (main_compile_io c2 w2) as H3.
  destruct (main_compile c2 w2) as [c3 w3].
  unfold io_at in *. cbn [fst snd] in *.
  assert (io_of w3 = io_of w) as Hio by congruence.
  split; [exact Hio|]. intros Hs.
  unfold main_scan. rewrite Hs. cbn [exit_status_eqb negb].
  pose proof (grep_free_pattern_list_io c3 w3) as H4.
  destruct (grep_free_pattern_list c3 w3) as [c5 w5] eqn:E5.
  assert (status_code c5 = status_code c3) as Hs5
    by (unfold grep_free_pattern_list in E5; injection E5 as <- _; reflexivity).
  cbn [fst snd]. split; [congruence|]. unfold io_at in H4. cbn [snd] in H4. congruence.
Qed.

End StreamProperties.

Section CompileClaims.

Context {R : regex_lib}.

Lemma patterns_grep_set_fn_match (c : grep_ctx) :
  patterns (grep_set_fn_match c) = patterns c.
Proof.
  unfold grep_set_fn_match.
  destruct (fixed_string c), (case_insensitive c), (full_string_match c); reflexivity.
Qed.

Lemma flags_grep_set_fn_match (c : grep_ctx) :
  fixed_string (grep_set_fn_match c) = fixed_string c /\
  full_string_match (grep_set_fn_match c) = full_string_match c /\
  compile_cflags (grep_set_fn_match c) = compile_cflags c /\
  status_code (grep_set_fn_match c) = status_code c.
Proof.
  unfold grep_set_fn_match.
  destruct (fixed_string c) eqn:E1, (case_insensitive c) eqn:E2,
           (full_string_match c) eqn:E3;
    unfold compile_cflags; simpl; rewrite ?E1, ?E2, ?E3; repeat split; reflexivity.
Qed.

Lemma strcmp_eq0_spec (a b : string) : strcmp_eq0 a b = true <-> a = b.
Proof. unfold strcmp_eq0. apply String.eqb_eq. Qed.

Lemma strcasecmp_eq0_spec (a b : string) :
  strcasecmp_eq0 a b = true <-> fold_case a = fold_case b.
Proof. unfold strcasecmp_eq0. apply String.eqb_eq. Qed.


(** When compilation leaves a status other than the failure status,
    every pattern was rewritten and compiled. *)
Lemma anchored_unless_failed (c : grep_ctx) (w : world) :
  full_string_match c = true ->
  status_code (fst (grep_compile_pattern_list c w)) <> GREP_EXIT_FAILURE ->
  map pattern (patterns (fst (grep_compile_pattern_list c w)))
  = map (fun p => anchored (pattern p)) (patterns c).
Proof.
  intros Hx Hs.
  pose proof (grep_compile_pattern_list_spec c w) as H.
  destruct (grep_compile_pattern_list c w) as [c' w'].
  cbv zeta in H. destruct H as [_ [_ [_ [_ [_ [Htxt _]]]]]]. cbn [fst] in *.
  induction Htxt as [|p p1 l l1 Hp _ IH]; [reflexivity|].
  simpl. rewrite IH. destruct Hp as [Hp|[_ Hp]]; [|contradiction].
  rewrite Hp. unfold compile_text. rewrite Hx. reflexivity.
Qed.

(** C6.  [grep_compile_pattern_list] goes through the whole list whatever
    [regcomp] answers: every pattern of the list ends with the compiled
    form [regcomp] gave for its text, marked [compiled] when there is
    one.  If [regcomp] failed for some pattern the status is the failure
    status, and the scanning step of [grep_main] then reads no stream and
    writes nothing: it leaves the context and the environment as they
    are.  A run of [grep_main] in which a pattern fails to compile ends
    with the failure status, its standard output and standard input as
    they were at the start. *)
Theorem compile_failure_is_fatal (c : grep_ctx) (w : world) :
  let '(c', w') := grep_compile_pattern_list c w in
  List.length (patterns c') = List.length (patterns c) /\
  Forall (compiled_from_text (compile_cflags c)) (patterns c') /\
  (Exists (compile_fails (compile_cflags c)) (patterns c') ->
   status_code c' = GREP_EXIT_FAILURE /\
   forall argv, main_scan c' w' argv = (c', w')) /\
  (forall opts argv w0,
     let '(c1, w1) := main_options (set_status_code zero_ctx GREP_EXIT_NOMATCH) w0 opts in
     let '(c2, w2, argv1) := main_checks c1 w1 argv in
     fixed_string c2 = false ->
     Exists (compile_fails (compile_cflags c2)) (patterns (fst (main_compile c2 w2))) ->
     fst (grep_main opts argv w0) = GREP_EXIT_FAILURE /\
     io_of (snd (grep_main opts argv w0)) = io_of w0).
Proof.
  pose proof (grep_compile_pattern_list_spec c w) as H.
  destruct (grep_compile_pattern_list c w) as [c' w'].
  cbv zeta in H. destruct H as [_ [_ [_ [Hcf [Hfail [Htxt _]]]]]].
  split; [symmetry; eapply Forall2_length; exact Htxt|].
  split; [exact Hcf|].
  split.
  - intros Hex. specialize (Hfail Hex). split; [exact Hfail|].
    intros argv. unfold main_scan. rewrite Hfail. reflexivity.
  - clear. intros opts argv w0.
    pose proof (grep_main_no_scan_after_failure opts argv w0) as Hmain.
    destruct (main_options (set_status_code zero_ctx GREP_EXIT_NOMATCH) w0 opts) as [c1 w1].
    destruct (main_checks c1 w1 argv) as [[c2 w2] argv1].
    intros Hf Hex.
    assert (status_code (fst (main_compile c2 w2)) = GREP_EXIT_FAILURE) as Hs.
    { revert Hex. unfold main_compile.
      destruct (flags_grep_set_fn_match c2) as [F1 [_ [F3 _]]].
      rewrite F1, Hf. cbn [negb].
      pose proof (grep_compile_pattern_list_spec (grep_set_fn_match c2) w2) as H.
      destruct (grep_compile_pattern_list (grep_set_fn_match c2) w2) as [c3 w3].
      cbv zeta in H. destruct H as [_ [_ [_ [_ [Hfail _]]]]].
      rewrite F3 in Hfail. exact Hfail. }
    destruct (main_compile c2 w2) as [c3 w3]. destruct Hmain as [_ Hmain].
    exact (Hmain Hs).
Qed.

End CompileClaims.

(** ** The result status *)

Lemma escalates_refl (a : exit_status) : escalates a a.
Proof. unfold escalates. lia. Qed.

Lemma escalates_trans (a b c : exit_status) :
  escalates a b -> escalates b c -> escalates a c.
Proof. unfold escalates. lia. Qed.

Lemma escalates_failure (a : exit_status) : escalates a GREP_EXIT_FAILURE.
Proof. unfold escalates. destruct a; simpl; lia. Qed.

Lemma escalates_from_failure (b : exit_status) :
  escalates GREP_EXIT_FAILURE b -> b = GREP_EXIT_FAILURE.
Proof. unfold escalates. destruct b; simpl; intros H; [lia|lia|reflexivity]. Qed.

Lemma escalates_same_or_failure (a b : exit_status) :
  b = a \/ b = GREP_EXIT_FAILURE -> escalates a b.
Proof. intros [->| ->]; [apply escalates_refl|apply escalates_failure]. Qed.

Lemma read_loop_escalates {A : Type} (status_of : A -> exit_status)
    (body : A -> string -> A * bool) :
  (forall st raw, escalates (status_of st) (status_of (fst (body st raw)))) ->
  forall pending st fail errind closef,
    escalates (status_of st)
      (status_of (fst (read_loop body st pending fail errind closef))).
Proof.
  intros Hbody. induction pending as [|raw rest IH]; intros st fail errind closef.
  - apply escalates_refl.
  - cbn [read_loop]. specialize (Hbody st raw).
    destruct (body st raw) as [st1 brk]. cbn [fst] in Hbody.
    destruct brk; [exact Hbody|].
    eapply escalates_trans; [exact Hbody|apply IH].
Qed.

Lemma fold_left_escalates {A B : Type} (status_of : A -> exit_status)
    (step : A -> B -> A) :
  (forall st b, escalates (status_of st) (status_of (step st b))) ->
  forall l st, escalates (status_of st) (status_of (fold_left step l st)).
Proof.
  intros Hstep. induction l as [|b l IH]; intros st.
  - apply escalates_refl.
  - cbn [fold_left]. eapply escalates_trans; [apply Hstep|apply IH].
Qed.

Section StatusProperties.

Context {R : regex_lib}.

Lemma grep_warn_status (c : grep_ctx) (w : world) (e : bool) (fmt : string)
    (args : list fmt_arg) :
  status_of (grep_warn c w e fmt args) = GREP_EXIT_FAILURE.
Proof. reflexivity. Qed.



Lemma grep_compile_pattern_list_escalates (c : grep_ctx) (w : world) :
  escalates (status_code c) (status_of (grep_compile_pattern_list c w)).
Proof.
  pose proof (grep_compile_pattern_list_spec c w) as H.
  destruct (grep_compile_pattern_list c w) as [c1 w1].
  cbv zeta in H. destruct H as [H _]. apply escalates_same_or_failure. exact H.
Qed.

Lemma grep_pattern_append_escalates (c : grep_ctx) (w : world) (s : string) :
  escalates (status_code c) (status_of (grep_pattern_append c w s)).
Proof.
  unfold grep_pattern_append.
  destruct (si_add_size_t (num_patterns c) 1) as [wraps1 sz1].
  destruct (if wraps1 then (true, sz1) else si_mul_size_t sz1 sizeof_grep_pattern)
    as [wraps sz].
  destruct wraps; [apply escalates_failure|].
  destruct (alloc w) as [ok w1]. destruct ok; cbn [negb].
  - apply escalates_refl.
  - apply escalates_failure.
Qed.

Lemma pattern_string_body_escalates (buf : string) (st : grep_ctx * world) (tok : string) :
  escalates (status_of st) (status_of (pattern_string_body buf st tok)).
Proof.
  destruct st as [c w]. unfold pattern_string_body.
  destruct (alloc w) as [ok w1]. destruct ok; cbn [negb].
  - apply grep_pattern_append_escalates.
  - apply escalates_failure.
Qed.

Lemma grep_pattern_string_escalates (c : grep_ctx) (w : world) (s : string) :
  escalates (status_code c) (status_of (grep_pattern_string c w s)).
Proof.
  unfold grep_pattern_string. destruct s as [|a s].
  - destruct (alloc w) as [ok w1]. destruct ok; cbn [negb].
    + apply grep_pattern_append_escalates.
    + apply escalates_failure.
  - rewrite strtok_loop_segments.
    apply (fold_left_escalates status_of
             (pattern_string_body (buffer_after_strtok (String a s)))
             (pattern_string_body_escalates _) _ (c, w)).
Qed.

Lemma pattern_file_body_escalates (st : grep_ctx * world) (raw : string) :
  escalates (status_of st) (status_of (fst (pattern_file_body st raw))).
Proof.
  destruct st as [c w]. unfold pattern_file_body. cbn [fst].
  apply grep_pattern_append_escalates.
Qed.

Lemma grep_pattern_file_escalates (c : grep_ctx) (w : world) (path : string) :
  escalates (status_code c) (status_of (grep_pattern_file c w path)).
Proof.
  unfold grep_pattern_file. destruct (w_fopen w path) as [fp|e].
  - pose proof (read_loop_escalates status_of pattern_file_body
                  pattern_file_body_escalates (f_pending fp) (c, w)
                  (f_fail fp) (f_errind fp) (f_close_fails fp)) as H.
    unfold getline_loop.
    destruct (read_loop pattern_file_body (c, w) (f_pending fp) (f_fail fp)
                (f_errind fp) (f_close_fails fp)) as [[c1 w1] fp1].
    cbn [fst status_of] in H.
    destruct (ferror fp1), (fclose_failed fp1);
      try apply escalates_failure; exact H.
  - apply escalates_failure.
Qed.


Lemma note_match_status (c : grep_ctx) :
  status_code (note_match c) =
  match status_code c with
  | GREP_EXIT_FAILURE => GREP_EXIT_FAILURE
  | _ => GREP_EXIT_MATCH
  end.
Proof. unfold note_match. destruct (status_code c) eqn:E; simpl; rewrite ?E; reflexivity. Qed.

Lemma note_match_escalates (c : grep_ctx) :
  escalates (status_code c) (status_code (note_match c)).
Proof.
  rewrite note_match_status. unfold escalates. destruct (status_code c); simpl; lia.
Qed.




Lemma set_flag_status (c : grep_ctx) (f : flag) :
  status_code (set_flag c f) = status_code c.
Proof. reflexivity. Qed.

Lemma main_option_escalates (st : grep_ctx * world) (o : getopt_result) :
  escalates (status_of st) (status_of (main_option (fst st) (snd st) o)).
Proof.
  destruct st as [c w]. unfold main_option. cbn [fst snd].
  repeat match goal with
         | |- context [if Ascii.eqb ?a ?b then _ else _] => destruct (Ascii.eqb a b)
         end;
    first [ apply escalates_refl
          | apply grep_pattern_string_escalates
          | apply grep_pattern_file_escalates
          | apply escalates_failure ].
Qed.

Lemma main_options_escalates (c : grep_ctx) (w : world) (opts : list getopt_result) :
  escalates (status_code c) (status_of (main_options c w opts)).
Proof.
  unfold main_options.
  apply (fold_left_escalates status_of
           (fun st o => main_option (fst st) (snd st) o) main_option_escalates opts (c, w)).
Qed.

Lemma main_checks_escalates (c : grep_ctx) (w : world) (argv : list string) :
  escalates (status_code c) (status_of (fst (main_checks c w argv))).
Proof.
  unfold main_checks.
  assert (forall (b : bool) (c0 : grep_ctx) (w0 : world) fmt,
            escalates (status_code c0)
              (status_of (if b then grep_warn c0 w0 false fmt [] else (c0, w0)))) as Hw
    by (intros b c0 w0 fmt; destruct b; [apply escalates_failure|apply escalates_refl]).
  pose proof (Hw (extended_reg_expr c && fixed_string c) c w "[-E|-F]") as H1.
  destruct (if extended_reg_expr c && fixed_string c
            then grep_warn c w false "[-E|-F]" [] else (c, w)) as [c1 w1].
  pose proof (Hw ((line_count c1 && write_file_names c1) || (line_count c1 && quiet c1)
                  || (write_file_names c1 && quiet c1)) c1 w1 "[-c|-l|-q]") as H2.
  destruct (if (line_count c1 && write_file_names c1) || (line_count c1 && quiet c1)
               || (write_file_names c1 && quiet c1)
            then grep_warn c1 w1 false "[-c|-l|-q]" [] else (c1, w1)) as [c2 w2].
  cbn [fst status_of] in H1, H2.
  eapply escalates_trans; [exact H1|]. eapply escalates_trans; [exact H2|].
  destruct (num_patterns c2 =? 0)%Z; [|apply escalates_refl].
  destruct argv as [|a argv']; [apply escalates_failure|].
  apply grep_pattern_string_escalates.
Qed.

Lemma main_compile_escalates (c : grep_ctx) (w : world) :
  escalates (status_code c) (status_of (main_compile c w)).
Proof.
  unfold main_compile.
  destruct (flags_grep_set_fn_match c) as [_ [_ [_ Hs]]].
  destruct (negb (fixed_string (grep_set_fn_match c))).
  - rewrite <- Hs. apply grep_compile_pattern_list_escalates.
  - unfold status_of. cbn [fst]. rewrite Hs. apply escalates_refl.
Qed.



Lemma grep_free_pattern_list_status (c : grep_ctx) (w : world) :
  status_of (grep_free_pattern_list c w) = status_code c.
Proof. reflexivity. Qed.

End StatusProperties.

(** ** The output modes exclude one another *)

Section ModeProperties.

Context {R : regex_lib}.

Lemma grep_warn_flags (c : grep_ctx) (w : world) (e : bool) (fmt : string)
    (args : list fmt_arg) :
  output_flags (fst (grep_warn c w e fmt args)) = output_flags c.
Proof. reflexivity. Qed.

Lemma grep_pattern_append_flags (c : grep_ctx) (w : world) (s : string) :
  output_flags (fst (grep_pattern_append c w s)) = output_flags c.
Proof.
  unfold grep_pattern_append.
  destruct (si_add_size_t (num_patterns c) 1) as [wraps1 sz1].
  destruct (if wraps1 then (true, sz1) else si_mul_size_t sz1 sizeof_grep_pattern)
    as [wraps sz].
  destruct wraps; [reflexivity|].
  destruct (alloc w) as [ok w1]. destruct ok; reflexivity.
Qed.

Lemma pattern_string_body_flags (buf : string) (st : grep_ctx * world) (tok : string) :
  output_flags (fst (pattern_string_body buf st tok)) = output_flags (fst st).
Proof.
  destruct st as [c w]. unfold pattern_string_body.
  destruct (alloc w) as [ok w1]. destruct ok; cbn [negb].
  - apply grep_pattern_append_flags.
  - reflexivity.
Qed.

Lemma fold_left_flags {B : Type} (step : grep_ctx * world -> B -> grep_ctx * world) :
  (forall st b, output_flags (fst (step st b)) = output_flags (fst st)) ->
  forall l st, output_flags (fst (fold_left step l st)) = output_flags (fst st).
Proof.
  intros Hstep. induction l as [|b l IH]; intros st; [reflexivity|].
  cbn [fold_left]. rewrite IH. apply Hstep.
Qed.

Lemma grep_pattern_string_flags (c : grep_ctx) (w : world) (s : string) :
  output_flags (fst (grep_pattern_string c w s)) = output_flags c.
Proof.
  unfold grep_pattern_string. destruct s as [|a s].
  - destruct (alloc w) as [ok w1]. destruct ok; cbn [negb].
    + apply grep_pattern_append_flags.
    + reflexivity.
  - rewrite strtok_loop_segments.
    apply (fold_left_flags _ (pattern_string_body_flags _) _ (c, w)).
Qed.

Lemma grep_set_fn_match_flags (c : grep_ctx) :
  output_flags (grep_set_fn_match c) = output_flags c.
Proof.
  unfold grep_set_fn_match.
  destruct (fixed_string c), (case_insensitive c), (full_string_match c); reflexivity.
Qed.

Lemma main_compile_flags (c : grep_ctx) (w : world) :
  output_flags (fst (main_compile c w)) = output_flags c.
Proof.
  unfold main_compile. destruct (negb (fixed_string (grep_set_fn_match c))).
  - unfold grep_compile_pattern_list.
    pose proof (compile_loop_spec (compile_cflags (grep_set_fn_match c))
                  (patterns (grep_set_fn_match c)) (grep_set_fn_match c) w) as H.
    destruct (compile_loop _ w _ _) as [[c1 w1] done].
    destruct H as [Hc1 _]. cbn [fst]. rewrite Hc1. apply grep_set_fn_match_flags.
  - apply grep_set_fn_match_flags.
Qed.

(** When [grep_main] gets to scan with [-l], neither [-c] nor [-q] is
    set: the check behind the option loop has set the failure status
    otherwise, and the status never leaves it. *)
Lemma scanning_with_file_names_excludes_count (c : grep_ctx) (w : world)
    (argv : list string) :
  let '(c2, w2, argv1) := main_checks c w argv in
  let '(c3, w3) := main_compile c2 w2 in
  status_code c3 <> GREP_EXIT_FAILURE ->
  write_file_names c3 = true ->
  line_count c3 = false /\ quiet c3 = false.
Proof.
  pose proof (main_compile_flags) as Hcomp.
  pose proof (main_compile_escalates) as Hesc.
  unfold main_checks.
  destruct (if extended_reg_expr c && fixed_string c
            then grep_warn c w false "[-E|-F]" [] else (c, w)) as [c1 w1] eqn:E1.
  assert (output_flags c1 = output_flags c) as F1
    by (destruct (extended_reg_expr c && fixed_string c); injection E1 as <- _; reflexivity).
  set (clash := (line_count c1 && write_file_names c1) || (line_count c1 && quiet c1)
                || (write_file_names c1 && quiet c1)).
  destruct (if clash then grep_warn c1 w1 false "[-c|-l|-q]" [] else (c1, w1))
    as [c2 w2] eqn:E2.
  assert (output_flags c2 = output_flags c1) as F2
    by (destruct clash; injection E2 as <- _; reflexivity).
  assert (clash = true -> status_code c2 = GREP_EXIT_FAILURE) as Hclash
    by (intros Hc; rewrite Hc in E2; injection E2 as <- _; reflexivity).
  assert (forall c3 w3 c4 w4,
            escalates (status_code c2) (status_code c3) ->
            output_flags c3 = output_flags c2 ->
            main_compile c3 w3 = (c4, w4) ->
            status_code c4 <> GREP_EXIT_FAILURE ->
            write_file_names c4 = true ->
            line_count c4 = false /\ quiet c4 = false) as Hfin.
  { intros c3 w3 c4 w4 Hes Hfl Hmc Hst Hwf.
    pose proof (Hcomp c3 w3) as Hf4. pose proof (Hesc c3 w3) as He4.
    rewrite Hmc in Hf4, He4. cbn [fst status_of] in Hf4, He4.
    assert (output_flags c4 = output_flags c1) as Hf by congruence.
    unfold output_flags in Hf. injection Hf as Hlc Hwn Hq.
    destruct clash eqn:Ec.
    - exfalso. apply Hst. apply escalates_from_failure.
      rewrite <- (Hclash eq_refl). eapply escalates_trans; eassumption.
    - unfold clash in Ec. rewrite <- Hlc, <- Hwn, <- Hq, Hwf in Ec.
      destruct (line_count c4), (quiet c4); simpl in Ec; try discriminate.
      split; reflexivity. }
  destruct (num_patterns c2 =? 0)%Z.
  - destruct argv as [|a argv'].
    + cbn [grep_warn]. destruct (main_compile _ (emit_warning w2 _)) as [c4 w4] eqn:E4.
      apply (Hfin (set_status_code c2 GREP_EXIT_FAILURE) _ _ _
               (escalates_failure (status_code c2)) eq_refl E4).
    + pose proof (grep_pattern_string_flags c2 w2 a) as Hf3.
      pose proof (grep_pattern_string_escalates c2 w2 a) as He3.
      destruct (grep_pattern_string c2 w2 a) as [c3 w3].
      destruct (main_compile c3 w3) as [c4 w4] eqn:E4.
      eapply Hfin; [exact He3|exact Hf3|exact E4].
  - destruct (main_compile c2 w2) as [c4 w4] eqn:E4.
    eapply Hfin; [apply escalates_refl|reflexivity|exact E4].
Qed.

End ModeProperties.

(** ** Errors and the status *)





Section Errors.

Context {R : regex_lib}.

Lemma main_checks_rejects (c : grep_ctx) (w : world) (argv : list string) :
  (extended_reg_expr c && fixed_string c)
  || (line_count c && write_file_names c)
  || (line_count c && quiet c)
  || (write_file_names c && quiet c) = true ->
  status_of (fst (main_checks c w argv)) = GREP_EXIT_FAILURE.
Proof.
  intros H. unfold main_checks.
  destruct (if extended_reg_expr c && fixed_string c
            then grep_warn c w false "[-E|-F]" [] else (c, w)) as [c1 w1] eqn:E1.
  assert (output_flags c1 = output_flags c /\
          (extended_reg_expr c && fixed_string c = true ->
           status_code c1 = GREP_EXIT_FAILURE)) as [F1 S1].
  { destruct (extended_reg_expr c && fixed_string c); injection E1 as <- _;
      split; try reflexivity; discriminate. }
  unfold output_flags in F1. injection F1 as Flc Fwn Fq. rewrite Flc, Fwn, Fq.
  destruct (if (line_count c && write_file_names c) || (line_count c && quiet c)
               || (write_file_names c && quiet c)
            then grep_warn c1 w1 false "[-c|-l|-q]" [] else (c1, w1))
    as [c2 w2] eqn:E2.
  assert (status_code c2 = GREP_EXIT_FAILURE) as S2.
  { destruct ((line_count c && write_file_names c) || (line_count c && quiet c)
              || (write_file_names c && quiet c)) eqn:Ec.
    - injection E2 as <- _. reflexivity.
    - injection E2 as <- _. apply S1.
      rewrite <- !orb_assoc in H. apply orb_prop in H. destruct H as [H|H]; [exact H|].
      rewrite !orb_assoc in H. rewrite Ec in H. discriminate H. }
  destruct (num_patterns c2 =? 0)%Z.
  - destruct argv as [|a argv'].
    + reflexivity.
    + cbn [fst]. apply escalates_from_failure. rewrite <- S2.
      apply grep_pattern_string_escalates.
  - exact S2.
Qed.

Lemma main_option_unknown (c : grep_ctx) (w : world) (o : getopt_result) :
  known_option (opt_c o) = false ->
  main_option c w o = (set_status_code c GREP_EXIT_FAILURE, w).
Proof.
  unfold known_option. cbn [list_ascii_of_string existsb]. intros H.
  repeat (apply orb_false_elim in H; destruct H as [? H]).
  unfold main_option.
  repeat match goal with
         | E : Ascii.eqb (opt_c o) ?x = false |- _ => rewrite E; clear E
         end.
  reflexivity.
Qed.

Lemma main_checks_missing (c : grep_ctx) (w : world) :
  num_patterns c = 0 ->
  let '(c2, w2, argv1) := main_checks c w [] in
  status_code c2 = GREP_EXIT_FAILURE /\ num_patterns c2 = 0 /\
  exists before, w_stderr w2 = before ++ [mk_warning false "missing pattern_list" []].
Proof.
  intros H0. unfold main_checks.
  destruct (extended_reg_expr c && fixed_string c);
    cbn [grep_warn line_count write_file_names quiet set_status_code num_patterns];
    destruct ((line_count c && write_file_names c) || (line_count c && quiet c)
              || (write_file_names c && quiet c));
    cbn [grep_warn num_patterns set_status_code]; rewrite H0;
    cbn [Z.eqb grep_warn emit_warning w_stderr status_code set_status_code num_patterns];
    (split; [reflexivity|split; [exact H0|eexists; reflexivity]]).
Qed.





































End Errors.


Section StatusClaim.

Context {R : regex_lib}.




(** What [-s] silences is skipped, not reported: the status stays. *)
Lemma suppressed_fopen_failure_is_skipped (c : grep_ctx) (w : world) (path : string)
    (e : errno_t) :
  w_fopen w path = inr e ->
  ignore_file_error c = true ->
  fopen_error_suppressed e = true ->
  grep_match_output_path c w path = (c, w).
Proof.
  intros Hf Hi He. unfold grep_match_output_path. rewrite Hf, Hi, He. reflexivity.
Qed.


(** The run of [grep_main] is such a sequence of operations. *)
Lemma grep_main_run_ops (opts : list getopt_result) (argv : list string) (w : world) :
  let st0 := (set_status_code zero_ctx GREP_EXIT_NOMATCH, w) in
  let st1 := run_ops st0 (map Op_option opts) in
  fst (grep_main opts argv w) =
  status_of
    (run_ops st1
       [Op_checks argv; Op_compile;
        Op_scan (snd (main_checks (fst st1) (snd st1) argv)); Op_free]).
Proof.
  cbv zeta. unfold grep_main, run_ops.
  assert (forall l st,
            fold_left run_op (map Op_option l) st =
            fold_left (fun st o => main_option (fst st) (snd st) o) l st) as Hopts.
  { induction l as [|o l IH]; intros st; [reflexivity|].
    cbn [map fold_left]. rewrite IH. destruct st as [c0 w0]. reflexivity. }
  rewrite Hopts. fold (main_options (set_status_code zero_ctx GREP_EXIT_NOMATCH) w opts).
  destruct (main_options (set_status_code zero_ctx GREP_EXIT_NOMATCH) w opts) as [c1 w1].
  cbn [fold_left run_op fst snd].
  destruct (main_checks c1 w1 argv) as [[c2 w2] argv1]. cbn [run_op fst snd].
  destruct (main_compile c2 w2) as [c3 w3]. cbn [run_op].
  destruct (main_scan c3 w3 argv1) as [c4 w4]. cbn [run_op].
  reflexivity.
Qed.

End StatusClaim.

(** ** The empty pattern *)

Section EmptyPattern.

Context {R : regex_lib}.

Lemma grep_compile_pattern_list_invert (c : grep_ctx) (w : world) :
  invert_match (fst (grep_compile_pattern_list c w)) = invert_match c.
Proof.
  unfold grep_compile_pattern_list.
  pose proof (compile_loop_spec (compile_cflags c) (patterns c) c w) as H.
  destruct (compile_loop c w (compile_cflags c) (patterns c)) as [[c1 w1] done].
  destruct H as [Hc1 _]. cbn [fst invert_match set_patterns]. rewrite Hc1. reflexivity.
Qed.

Lemma starts_with_empty (s : string) : starts_with s EmptyString = true.
Proof. destruct s; reflexivity. Qed.

Lemma strstr_empty (s : string) : strstr s EmptyString = Some 0%nat.
Proof. destruct s; reflexivity. Qed.

(** The empty pattern under the four fixed-string strategies: the two
    substring strategies report every line, the two equality strategies
    the empty line only. *)
Lemma empty_pattern_fixed_string (p : grep_pattern) (line : string) :
  pattern p = EmptyString ->
  grep_match_fixed_strstr p line = true /\
  grep_match_fixed_strcasestr p line = true /\
  (grep_match_fixed_strcmp p line = true <-> line = EmptyString) /\
  (grep_match_fixed_strcasecmp p line = true <-> line = EmptyString).
Proof.
  intros Hp.
  unfold grep_match_fixed_strstr, grep_match_fixed_strcasestr,
    grep_match_fixed_strcmp, grep_match_fixed_strcasecmp.
  rewrite Hp. rewrite strstr_empty. split; [reflexivity|]. split; [reflexivity|].
  split.
  - apply strcmp_eq0_spec.
  - rewrite strcasecmp_eq0_spec. simpl. destruct line; simpl; split; congruence.
Qed.

(** What regex mode does with a single empty pattern: the text handed to
    [regcomp] and the flags, and the line evaluation as the answer of
    [regexec] for the compiled form. *)
Lemma empty_pattern_regex (c : grep_ctx) (w : world) (r : regex_t) (line : string) :
  fixed_string c = false ->
  patterns c = [fresh_pattern EmptyString] ->
  all_succeed (w_alloc w) ->
  regcomp (if full_string_match c then "^()$" else EmptyString) (compile_cflags c) = inl r ->
  let c' := fst (main_compile c w) in
  patterns c' =
    [mk_pattern (if full_string_match c then "^()$" else EmptyString) (Some r) true] /\
  grep_match_output_line c' line =
    (if invert_match c then negb (regexec r line) else regexec r line).
Proof.
  intros Hf Hp Hw Hr. unfold main_compile.
  destruct (flags_grep_set_fn_match c) as [F1 [F2 [F3 F4]]].
  rewrite F1, Hf. cbn [negb]. cbv zeta.
  pose proof (grep_compile_pattern_list_spec (grep_set_fn_match c) w) as H.
  pose proof (grep_compile_pattern_list_invert (grep_set_fn_match c) w) as Hinv.
  destruct (grep_compile_pattern_list (grep_set_fn_match c) w) as [c' w'].
  cbv zeta in H. destruct H as [_ [_ [Hfn [Hcf [_ [_ Htxt]]]]]].
  rewrite patterns_grep_set_fn_match, F3, Hp in *. cbn [fst] in *.
  assert (Forall anchor_fits [fresh_pattern EmptyString]) as Hfit
    by (constructor; [unfold anchor_fits; simpl; discriminate|constructor]).
  specialize (Htxt Hw Hfit). unfold compile_text in Htxt. rewrite F2 in Htxt.
  cbn [map pattern fresh_pattern] in Htxt.
  assert (anchored EmptyString = "^()$") as Ha by reflexivity. rewrite Ha in Htxt.
  assert (patterns c' =
          [mk_pattern (if full_string_match c then "^()$" else EmptyString) (Some r) true])
    as Hpat.
  { destruct (patterns c') as [|p1 [|p2 l]]; try discriminate.
    injection Htxt as Ht. inversion Hcf as [|x l' Hc1 _]; subst.
    unfold compiled_from_text in Hc1. rewrite Ht, Hr in Hc1.
    destruct p1 as [t rg cp]. cbn [pattern regex compiled] in *.
    destruct Hc1 as [-> ->]. subst t. reflexivity. }
  split; [exact Hpat|].
  assert (fn_match c' = Some grep_match_regex) as Hfm.
  { rewrite Hfn. unfold grep_set_fn_match. rewrite Hf. reflexivity. }
  rewrite (regex_line_evaluation_is_or c' line Hfm), Hpat.
  assert (invert_match (grep_set_fn_match c) = invert_match c) as Hi.
  { unfold grep_set_fn_match. rewrite Hf. reflexivity. }
  rewrite Hinv, Hi. cbn [existsb grep_match_regex regex]. rewrite orb_false_r.
  reflexivity.
Qed.

End EmptyPattern.

(** * Further properties *)

(** ** Overflow-checked arithmetic *)

Local Open Scope Z_scope.

(** X1.  [si_add_size_t] reports a wrap exactly when the sum does not fit
    [size_t], and gives the sum when it reports none. *)
Theorem si_add_size_t_exact (a b : Z) :
  is_size_t a -> is_size_t b ->
  (fst (si_add_size_t a b) = true <-> SIZE_MAX < a + b) /\
  (fst (si_add_size_t a b) = false -> snd (si_add_size_t a b) = a + b).
Proof.
  intros Ha Hb. destruct (si_add_size_t_spec a b (proj1 Ha) Hb) as [H1 H2].
  split; [|exact H2]. rewrite H1. apply Z.ltb_lt.
Qed.

(** X2.  [si_mul_size_t] reports a wrap exactly when the product does not fit
    [size_t], and gives the product when it reports none; a zero factor
    never wraps. *)
Theorem si_mul_size_t_exact (a b : Z) :
  is_size_t a -> is_size_t b ->
  (fst (si_mul_size_t a b) = true <-> SIZE_MAX < a * b) /\
  (fst (si_mul_size_t a b) = false -> snd (si_mul_size_t a b) = a * b).
Proof.
  intros Ha Hb. destruct (si_mul_size_t_spec a b Ha Hb) as [H1 H2].
  split; [|exact H2]. rewrite H1. apply Z.ltb_lt.
Qed.

(** ** What [grep_strcasestr] accepts *)

Lemma strcasestr_inner_return (c : ascii) (s2 : string) :
  strcasestr_inner c s2 = ReturnS1 <-> all_fold_to c s2 = true.
Proof.
  induction s2 as [|d s2 IH]; simpl; [split; reflexivity|].
  destruct (Ascii.eqb (tolower c) (tolower d)); simpl; [exact IH|].
  split; discriminate.
Qed.

Lemma strcasestr_inner_break (c : ascii) (s2 r : string) :
  strcasestr_inner c s2 = Break r ->
  exists run, s2 = (run ++ r)%string /\ all_fold_to c run = true /\ r <> EmptyString.
Proof.
  revert r. induction s2 as [|d s2 IH]; intros r; simpl; [discriminate|].
  destruct (Ascii.eqb (tolower c) (tolower d)) eqn:E; simpl.
  - intros H. destruct (IH _ H) as [run [-> [Hr Hne]]].
    exists (String d run). simpl. rewrite E. repeat split; assumption.
  - intros H. injection H as <-. exists EmptyString. repeat split. discriminate.
Qed.

Lemma strcasestr_inner_run (c : ascii) (run rest : string) :
  all_fold_to c run = true ->
  strcasestr_inner c (run ++ rest)%string = strcasestr_inner c rest.
Proof.
  induction run as [|d run IH]; simpl; [reflexivity|].
  intros H. apply andb_prop in H. destruct H as [-> H]. simpl. apply IH. exact H.
Qed.

Lemma strcasestr_outer_spread (s1 : string) :
  forall s2 off, s2 <> EmptyString ->
    strcasestr_outer s1 s2 off <> None -> spread s2 s1.
Proof.
  induction s1 as [|c s1 IH]; intros s2 off Hne H; simpl in H; [congruence|].
  destruct (strcasestr_inner c s2) as [|r] eqn:E.
  - apply spread_last; [exact Hne|]. apply strcasestr_inner_return. exact E.
  - destruct (strcasestr_inner_break _ _ _ E) as [run [-> [Hrun Hr]]].
    specialize (IH r (S off) Hr H).
    destruct run as [|d run].
    + apply spread_skip. exact IH.
    + apply spread_more; [discriminate|exact Hrun|exact IH].
Qed.

Lemma spread_strcasestr_outer (s2 s1 : string) :
  spread s2 s1 -> forall off, strcasestr_outer s1 s2 off <> None.
Proof.
  induction 1 as [c s run Hne Hrun|c s run rest Hne Hrun Hsp IH|c s p Hsp IH];
    intros off.
  - simpl. apply strcasestr_inner_return in Hrun. rewrite Hrun. discriminate.
  - simpl. rewrite strcasestr_inner_run by exact Hrun.
    destruct (strcasestr_inner c rest) as [|r] eqn:E; [discriminate|].
    destruct (strcasestr_inner_suffix _ _ _ E) as [x ->].
    eapply strcasestr_outer_mono. apply (IH (S off)).
  - eapply strcasestr_outer_skip. apply (IH off).
Qed.

Lemma strcasestr_outer_bound (s1 : string) :
  forall s2 off n, strcasestr_outer s1 s2 off = Some n ->
                   (off <= n < off + String.length s1)%nat.
Proof.
  induction s1 as [|c s1 IH]; intros s2 off n H; simpl in H; [discriminate|].
  destruct (strcasestr_inner c s2) as [|r].
  - injection H as <-. simpl. lia.
  - apply IH in H. simpl. lia.
Qed.

(** X3.  [grep_strcasestr] accepts a non-empty pattern exactly when the
    pattern is spread along the line: what it tests is not a substring
    but a subsequence in which a character of the line may stand for a
    run of pattern characters.  The empty pattern is found at the start. *)
Theorem grep_strcasestr_accepts_spread (s1 s2 : string) :
  (s2 = EmptyString -> grep_strcasestr s1 s2 = Some 0%nat) /\
  (s2 <> EmptyString -> (grep_strcasestr s1 s2 <> None <-> spread s2 s1)).
Proof.
  split.
  - intros ->. reflexivity.
  - intros Hne. unfold grep_strcasestr. destruct s2 as [|d s2]; [congruence|].
    split.
    + apply strcasestr_outer_spread. exact Hne.
    + intros H. apply spread_strcasestr_outer. exact H.
Qed.

(** X4.  The pointer [grep_strcasestr] returns for a non-empty pattern points
    at a character of the line, never at or behind its end. *)
Theorem grep_strcasestr_in_bounds (s1 s2 : string) (n : nat) :
  s2 <> EmptyString ->
  grep_strcasestr s1 s2 = Some n -> (n < String.length s1)%nat.
Proof.
  intros Hne H. unfold grep_strcasestr in H. destruct s2 as [|d s2]; [congruence|].
  apply strcasestr_outer_bound in H. lia.
Qed.

Section FixedStringSearch.

Context {R : regex_lib}.

(** X6.  With [-F] alone the lines selected are those that contain one of the
    patterns as a substring. *)
Theorem fixed_string_selects_substrings (c : grep_ctx) (line : string) :
  fixed_string c = true ->
  case_insensitive c = false ->
  full_string_match c = false ->
  invert_match c = false ->
  (grep_match_output_line (grep_set_fn_match c) line = true <->
   exists p, In p (patterns c) /\ occurs (pattern p) line).
Proof.
  intros Hf Hi Hx Hv.
  assert (grep_set_fn_match c = set_fn_match c grep_match_fixed_strstr) as ->
    by (unfold grep_set_fn_match; rewrite Hf, Hi, Hx; reflexivity).
  unfold grep_match_output_line. rewrite match_loop_orb.
  cbn [invert_match set_fn_match orb]. rewrite Hv.
  change (patterns (set_fn_match c grep_match_fixed_strstr)) with (patterns c).
  rewrite existsb_exists. split.
  - intros [p [Hin Hm]]. exists p. split; [exact Hin|].
    apply strstr_spec. unfold call_fn_match, grep_match_fixed_strstr in Hm.
    cbn [fn_match set_fn_match] in Hm.
    destruct (strstr line (pattern p)); [discriminate|discriminate Hm].
  - intros [p [Hin Ho]]. exists p. split; [exact Hin|].
    apply strstr_spec in Ho. unfold call_fn_match, grep_match_fixed_strstr.
    cbn [fn_match set_fn_match].
    destruct (strstr line (pattern p)); [reflexivity|congruence].
Qed.

End FixedStringSearch.

(** ** Scanning a stream line by line *)

Lemma after_writes_nil (w : world) : after_writes w [] = w.
Proof. destruct w. unfold after_writes. simpl. rewrite app_nil_r. reflexivity. Qed.

Lemma after_writes_app (w : world) (a b : list string) :
  after_writes (after_writes w a) b = after_writes w (a ++ b).
Proof.
  unfold after_writes. cbn [w_alloc w_write w_stdout w_stderr w_freed w_fopen w_stdin].
  rewrite length_app, <- app_assoc, skipn_skipn, Nat.add_comm. reflexivity.
Qed.

Lemma skipn_all_succeed (n : nat) (l : list bool) :
  all_succeed l -> all_succeed (skipn n l).
Proof.
  unfold all_succeed. rewrite !Forall_forall. intros H b Hb. apply H.
  rewrite <- (firstn_skipn n l). apply in_or_app. right. exact Hb.
Qed.

Lemma after_writes_all_succeed (w : world) (texts : list string) :
  all_succeed (w_write w) -> all_succeed (w_write (after_writes w texts)).
Proof. intros H. apply skipn_all_succeed. exact H. Qed.

Lemma write_out_succeeds (w : world) (text : string) :
  all_succeed (w_write w) -> write_out w text = (true, after_writes w [text]).
Proof.
  unfold write_out, after_writes, all_succeed. intros H.
  destruct (w_write w) as [|b l]; simpl; [reflexivity|].
  inversion H; subst. reflexivity.
Qed.

Section ScanModes.

Context {R : regex_lib}.

Lemma note_match_twice (c : grep_ctx) : note_match (note_match c) = note_match c.
Proof. unfold note_match. destruct (status_code c) eqn:E; simpl; rewrite ?E; reflexivity. Qed.

Lemma note_match_cases (c : grep_ctx) :
  note_match c = c \/ note_match c = set_status_code c GREP_EXIT_MATCH.
Proof. unfold note_match. destruct (negb _); [right|left]; reflexivity. Qed.

Lemma selects_note_match (c : grep_ctx) (raw : string) :
  selects (note_match c) raw = selects c raw.
Proof.
  unfold selects. destruct (note_match_cases c) as [-> | ->]; [reflexivity|].
  apply grep_match_output_line_set_status.
Qed.

Lemma selected_output_note_match (c : grep_ctx) (path : string) (pending : list string) :
  forall line_i,
    selected_output (note_match c) path line_i pending =
    selected_output c path line_i pending.
Proof.
  induction pending as [|raw rest IH]; intros line_i; [reflexivity|].
  cbn [selected_output]. rewrite selects_note_match, IH. f_equal.
  destruct (note_match_cases c) as [-> | ->]; reflexivity.
Qed.

Lemma ctx_after_scan_note_match (c : grep_ctx) (pending : list string) :
  ctx_after_scan (note_match c) pending = note_match c.
Proof.
  unfold ctx_after_scan. rewrite note_match_twice. destruct (existsb _ _); reflexivity.
Qed.

Lemma count_selected_note_match (c : grep_ctx) (pending : list string) :
  count_selected (note_match c) pending = count_selected c pending.
Proof.
  unfold count_selected. f_equal. f_equal. apply filter_ext.
  intros raw. apply selects_note_match.
Qed.

(** The output of a selected line when every output call succeeds. *)
Lemma output_match_succeeds (c : grep_ctx) (w : world) (path line : string) (line_i : Z) :
  quiet c || line_count c = true \/ all_succeed (w_write w) ->
  output_match c w path line line_i =
  (c, after_writes w (if quiet c || line_count c then []
                      else line_output c path line_i line)).
Proof.
  intros H. unfold output_match.
  destruct (quiet c) eqn:Eq; [cbn; rewrite after_writes_nil; reflexivity|].
  destruct (line_count c) eqn:Ec; [cbn; rewrite after_writes_nil; reflexivity|].
  destruct H as [H|Hw]; [discriminate H|].
  cbn [Bool.eqb andb orb]. unfold line_output, printf_s_colon, printf_d_colon, puts, terminated.
  destruct (num_files c >? 1)%Z.
  - rewrite (write_out_succeeds w _ Hw). cbn [negb].
    pose proof (after_writes_all_succeed w [(path ++ ":")%string] Hw) as Hw1.
    destruct (line_number c).
    + rewrite (write_out_succeeds _ _ Hw1). cbn [negb].
      rewrite (write_out_succeeds _ _ (after_writes_all_succeed _ _ Hw1)). cbn [negb].
      rewrite !after_writes_app. reflexivity.
    + rewrite (write_out_succeeds _ _ Hw1). cbn [negb].
      rewrite !after_writes_app. reflexivity.
  - destruct (line_number c).
    + rewrite (write_out_succeeds _ _ Hw). cbn [negb].
      rewrite (write_out_succeeds _ _ (after_writes_all_succeed _ _ Hw)). cbn [negb].
      rewrite !after_writes_app. reflexivity.
    + rewrite (write_out_succeeds _ _ Hw). reflexivity.
Qed.

(** The read loop of [grep_match_output_fp] without [-l], when every
    output call it makes succeeds: it reads the stream to its end. *)
Lemma scan_loop_run (path : string) (pending : list string) :
  forall (c : grep_ctx) (w : world) (line_i match_i : Z) (fail errind closef : bool),
    write_file_names c = false ->
    quiet c || line_count c = true \/ all_succeed (w_write w) ->
    read_loop (output_fp_body path) (mk_scan c w line_i match_i) pending
      fail errind closef =
    (mk_scan (ctx_after_scan c pending)
       (after_writes w (if quiet c || line_count c then []
                        else selected_output c path line_i pending))
       (line_i + Z.of_nat (List.length pending))
       (match_i + count_selected c pending),
     mk_FILE [] fail fail closef).
Proof.
  induction pending as [|raw rest IH];
    intros c w line_i match_i fail errind closef Hl Hw.
  - cbn [read_loop selected_output List.length]. unfold ctx_after_scan, count_selected.
    cbn [existsb filter List.length]. rewrite !Z.add_0_r.
    destruct (quiet c || line_count c); rewrite after_writes_nil; reflexivity.
  - cbn [read_loop selected_output]. unfold output_fp_body.
    cbn [sc_ctx sc_world sc_line_i sc_match_i].
    fold (selects c raw). fold (note_match c).
    assert (Z.of_nat (List.length (raw :: rest)) = 1 + Z.of_nat (List.length rest))
      as Hlen by (cbn [List.length]; lia).
    destruct (selects c raw) eqn:Es.
    + assert (write_file_names (note_match c) = false) as Hl1
        by (destruct (note_match_cases c) as [-> | ->]; exact Hl).
      assert (quiet (note_match c) || line_count (note_match c) =
              quiet c || line_count c) as Hq
        by (destruct (note_match_cases c) as [-> | ->]; reflexivity).
      assert (line_output (note_match c) path line_i (chomp raw) =
              line_output c path line_i (chomp raw)) as Hlo
        by (destruct (note_match_cases c) as [-> | ->]; reflexivity).
      rewrite Hl1. rewrite output_match_succeeds by (rewrite Hq; exact Hw).
      rewrite Hq, Hlo. rewrite IH; [|exact Hl1|].
      * rewrite ctx_after_scan_note_match, selected_output_note_match,
          count_selected_note_match, Hq.
        unfold ctx_after_scan, count_selected at 2. cbn [existsb filter].
        rewrite Es. cbn [orb List.length]. f_equal. f_equal.
        -- destruct (quiet c || line_count c);
             rewrite after_writes_app; reflexivity.
        -- lia.
        -- unfold count_selected. lia.
      * rewrite Hq. destruct Hw as [Hw|Hw]; [left; exact Hw|right].
        apply after_writes_all_succeed. exact Hw.
    + rewrite IH by assumption.
      unfold ctx_after_scan, count_selected. cbn [existsb filter].
      rewrite Es. cbn [orb app]. f_equal. f_equal. lia.
Qed.

Lemma ctx_after_scan_cases (c : grep_ctx) (pending : list string) :
  ctx_after_scan c pending = c \/
  ctx_after_scan c pending = set_status_code c GREP_EXIT_MATCH.
Proof.
  unfold ctx_after_scan. destruct (existsb _ _); [apply note_match_cases|left; reflexivity].
Qed.

(** A scan without [-l] whose stream ends without a read error, when the
    output calls it makes succeed. *)
Lemma scan_run (c : grep_ctx) (w : world) (path : string) (fp : FILE) :
  write_file_names c = false ->
  f_fail fp = false ->
  (quiet c = true /\ line_count c = false) \/ all_succeed (w_write w) ->
  grep_match_output_fp c w path fp =
  (ctx_after_scan c (f_pending fp),
   after_writes w (mode_output c path (f_pending fp)),
   mk_FILE [] false false (f_close_fails fp)).
Proof.
  intros Hl Hf Hw. unfold grep_match_output_fp, getline_loop.
  rewrite scan_loop_run;
    [|exact Hl|destruct Hw as [[Hq _]|Hw]; [left; rewrite Hq; reflexivity|right; exact Hw]].
  rewrite Hf, Z.add_0_l. cbn [sc_ctx sc_world sc_match_i ferror f_errind].
  assert (line_count (ctx_after_scan c (f_pending fp)) = line_count c /\
          num_files (ctx_after_scan c (f_pending fp)) = num_files c) as [-> Hn]
    by (destruct (ctx_after_scan_cases c (f_pending fp)) as [-> | ->]; split; reflexivity).
  unfold mode_output. destruct (line_count c) eqn:Ec.
  - rewrite orb_true_r, after_writes_nil, Hn.
    destruct Hw as [[_ Hc]|Hw]; [discriminate Hc|].
    unfold count_output, printf_s_colon, printf_d_nl.
    destruct (num_files c >? 1)%Z.
    + rewrite (write_out_succeeds _ _ Hw). cbn [negb].
      rewrite (write_out_succeeds _ _ (after_writes_all_succeed _ _ Hw)). cbn [negb].
      rewrite after_writes_app. reflexivity.
    + rewrite (write_out_succeeds _ _ Hw). reflexivity.
  - rewrite orb_false_r. destruct (quiet c); reflexivity.
Qed.

(** X7.  Without [-c], [-l] and [-q], a scan of a stream of fewer than
    [INT_MAX] lines whose output calls succeed and whose stream ends
    without a read error writes the selected lines in the order of the
    stream, each after its path when more than one file is scanned and
    after its line number under [-n]; it reads the whole stream, reports
    nothing, and notes a match when a line was selected. *)
Theorem scan_writes_selected_lines (c : grep_ctx) (w : world) (path : string) (fp : FILE) :
  write_file_names c = false ->
  quiet c = false ->
  line_count c = false ->
  all_succeed (w_write w) ->
  f_fail fp = false ->
  fits_int (f_pending fp) ->
  grep_match_output_fp c w path fp =
  (ctx_after_scan c (f_pending fp),
   after_writes w (selected_output c path 1 (f_pending fp)),
   mk_FILE [] false false (f_close_fails fp)).
Proof.
  intros Hl Hq Hc Hw Hf _. rewrite scan_run by (try assumption; right; exact Hw).
  unfold mode_output. rewrite Hq, Hc. reflexivity.
Qed.

(** X8.  With [-c] alone a scan of a stream of fewer than [INT_MAX]
    lines, whose output calls succeed and whose stream ends without a
    read error, writes no line of the stream: it reads the whole stream
    and then writes the number of selected lines, after the path when
    more than one file is scanned.  The count is written also when it is
    zero. *)
Theorem scan_counts_selected_lines (c : grep_ctx) (w : world) (path : string) (fp : FILE) :
  write_file_names c = false ->
  line_count c = true ->
  all_succeed (w_write w) ->
  f_fail fp = false ->
  fits_int (f_pending fp) ->
  grep_match_output_fp c w path fp =
  (ctx_after_scan c (f_pending fp),
   after_writes w (count_output c path (count_selected c (f_pending fp))),
   mk_FILE [] false false (f_close_fails fp)).
Proof.
  intros Hl Hc Hw Hf _. rewrite scan_run by (try assumption; right; exact Hw).
  unfold mode_output. rewrite Hc. reflexivity.
Qed.

(** X9.  With [-q] alone a scan makes no output call at all, whatever
    the output calls would have answered: the standard output and the
    outcomes of the coming output calls are as before.  It still reads
    the stream to its end instead of stopping at the first selected
    line, and notes a match when a line was selected.  A read error at
    the end of the stream is reported with the path and gives the failure
    status; nothing else is reported. *)
Theorem quiet_scan_is_silent (c : grep_ctx) (w : world) (path : string) (fp : FILE) :
  write_file_names c = false ->
  quiet c = true ->
  line_count c = false ->
  grep_match_output_fp c w path fp =
    (if f_fail fp
     then grep_warn (ctx_after_scan c (f_pending fp)) w true path []
     else (ctx_after_scan c (f_pending fp), w),
     mk_FILE [] (f_fail fp) (f_fail fp) (f_close_fails fp)) /\
  w_stdout (snd (fst (grep_match_output_fp c w path fp))) = w_stdout w /\
  w_write (snd (fst (grep_match_output_fp c w path fp))) = w_write w.
Proof.
  intros Hl Hq Hc.
  assert (grep_match_output_fp c w path fp =
          (if f_fail fp
           then grep_warn (ctx_after_scan c (f_pending fp)) w true path []
           else (ctx_after_scan c (f_pending fp), w),
           mk_FILE [] (f_fail fp) (f_fail fp) (f_close_fails fp))) as E.
  { unfold grep_match_output_fp, getline_loop.
    rewrite scan_loop_run by (try exact Hl; left; rewrite Hq; reflexivity).
    rewrite Hq. cbn [orb sc_ctx sc_world sc_match_i ferror f_errind].
    rewrite after_writes_nil.
    assert (line_count (ctx_after_scan c (f_pending fp)) = false) as Hc1
      by (destruct (ctx_after_scan_cases c (f_pending fp)) as [-> | ->]; exact Hc).
    destruct (f_fail fp); cbn [grep_warn line_count set_status_code];
      rewrite Hc1; reflexivity. }
  split; [exact E|]. rewrite E. destruct (f_fail fp); split; reflexivity.
Qed.

(** X10.  A stream without a selected line makes the scan, in whatever
    mode but [-c], make no output call, also under [-l], and read the
    stream to its end.  When the stream ends without a read error the
    context, status included, and the environment are as before; a read
    error at the end of the stream is reported with the path and gives
    the failure status, and nothing else changes. *)
Theorem scan_without_selected_line (c : grep_ctx) (w : world) (path : string) (fp : FILE) :
  line_count c = false ->
  (forall raw, In raw (f_pending fp) -> selects c raw = false) ->
  grep_match_output_fp c w path fp =
  (if f_fail fp then grep_warn c w true path [] else (c, w),
   mk_FILE [] (f_fail fp) (f_fail fp) (f_close_fails fp)).
Proof.
  intros Hc Hsel. unfold grep_match_output_fp, getline_loop.
  rewrite <- (app_nil_r (f_pending fp)).
  rewrite read_loop_skip_no_match by exact Hsel.
  cbn [read_loop sc_ctx sc_world sc_match_i ferror f_errind].
  destruct (f_fail fp); cbn [grep_warn line_count set_status_code];
    rewrite Hc; reflexivity.
Qed.

Lemma output_fp_body_chomp (path : string) (st : scan_state) (raw raw' : string) :
  chomp raw = chomp raw' -> output_fp_body path st raw = output_fp_body path st raw'.
Proof. intros H. unfold output_fp_body. rewrite H. reflexivity. Qed.

Lemma read_loop_chomp (path : string) (pending pending' : list string) :
  Forall2 (fun raw raw' => chomp raw = chomp raw') pending pending' ->
  forall (st : scan_state) (fail errind closef : bool),
    let run := read_loop (output_fp_body path) st pending fail errind closef in
    let run' := read_loop (output_fp_body path) st pending' fail errind closef in
    fst run = fst run' /\ f_errind (snd run) = f_errind (snd run').
Proof.
  induction 1 as [|raw raw' rest rest' Hraw Hrest IH]; intros st fail errind closef.
  - split; reflexivity.
  - cbn [read_loop]. rewrite (output_fp_body_chomp path st raw raw' Hraw).
    destruct (output_fp_body path st raw') as [st1 brk].
    destruct brk; [split; reflexivity|apply IH].
Qed.

Lemma records_from_unterminated (last : string) (ch : ascii) :
  plain_line last = true -> Ascii.eqb ch NL = false ->
  forall cur,
    records_from cur (last ++ String ch EmptyString) =
    [(cur ++ last ++ String ch EmptyString)%string].
Proof.
  intros Hl Hch. induction last as [|a last IH]; intros cur.
  - cbn [append records_from]. rewrite Hch. cbn [records_from].
    destruct (cur ++ String ch EmptyString)%string eqn:E; [|reflexivity].
    destruct cur; discriminate E.
  - cbn [plain_line] in Hl. apply andb_prop in Hl. destruct Hl as [Ha Hl].
    apply andb_prop in Ha. destruct Ha as [Ha _]. apply negb_true_iff in Ha.
    cbn [append records_from]. rewrite Ha, (IH Hl).
    rewrite sapp_assoc. reflexivity.
Qed.

Lemma records_text_of_app (lines : list string) (rest : string) :
  forallb plain_line lines = true ->
  records (text_of lines ++ rest) = map terminated lines ++ records rest.
Proof.
  unfold records. induction lines as [|l lines IH]; intros H; [reflexivity|].
  simpl in H. apply andb_prop in H. destruct H as [Hl H].
  cbn [text_of fold_right map]. fold (text_of lines).
  rewrite sapp_assoc, records_from_plain by exact Hl.
  rewrite IH by exact H. reflexivity.
Qed.

Lemma chomp_last (content : string) (ch : ascii) :
  chomp (content ++ String ch EmptyString) = c_str content.
Proof.
  unfold chomp. f_equal.
  induction content as [|c content IH]; [reflexivity|].
  cbn [append]. destruct content as [|d content]; [reflexivity|].
  change (drop_last (String c (String d content ++ String ch EmptyString)))
    with (String c (drop_last (String d content ++ String ch EmptyString))).
  rewrite IH. reflexivity.
Qed.

(** X11.  The scan overwrites the last byte of every record it reads with
    NUL, be it a newline or not: a last line that the stream leaves
    without its newline is tested and written without its last
    character, as if that were the line terminator. *)
Theorem unterminated_last_line_loses_its_last_character (c : grep_ctx) (w : world)
    (path : string) (lines : list string) (last : string) (ch : ascii) :
  forallb plain_line lines = true ->
  plain_line last = true ->
  Ascii.eqb ch NL = false ->
  fst (grep_match_output_fp c w path
         (stream_of (text_of lines ++ last ++ String ch EmptyString))) =
  fst (grep_match_output_fp c w path (stream_of (text_of (lines ++ [last])))).
Proof.
  intros Hlines Hlast Hch.
  assert (Forall2 (fun raw raw' => chomp raw = chomp raw')
            (records (text_of lines ++ last ++ String ch EmptyString))
            (records (text_of (lines ++ [last])))) as Hrec.
  { rewrite records_text_of_app by exact Hlines.
    rewrite records_text_of
      by (rewrite forallb_app, Hlines; cbn [forallb]; rewrite Hlast; reflexivity).
    unfold records at 1. rewrite (records_from_unterminated last ch Hlast Hch).
    rewrite map_app. apply Forall2_app.
    - clear. induction (map terminated lines); constructor; [reflexivity|assumption].
    - constructor; [|constructor]. cbn [append map].
      unfold terminated. rewrite !chomp_last. reflexivity. }
  unfold grep_match_output_fp, getline_loop, stream_of.
  cbn [f_pending f_fail f_errind f_close_fails].
  destruct (read_loop_chomp path _ _ Hrec (mk_scan c w 1 0) false false false)
    as [H1 H2].
  destruct (read_loop (output_fp_body path) (mk_scan c w 1 0)
              (records (text_of lines ++ last ++ String ch EmptyString))
              false false false) as [st fp1].
  destruct (read_loop (output_fp_body path) (mk_scan c w 1 0)
              (records (text_of (lines ++ [last]))) false false false) as [st' fp1'].
  cbn [fst snd] in H1, H2. subst st'. unfold ferror. rewrite H2.
  destruct (if f_errind fp1' then grep_warn (sc_ctx st) (sc_world st) true path []
            else (sc_ctx st, sc_world st)) as [c2 w2].
  destruct (if line_count c2
            then
              let '(c4, w4) :=
                if (num_files c2 >? 1)%Z
                then
                  let '(ok, w0) := printf_s_colon w2 path in
                  if negb ok then grep_warn c2 w0 true "fputs: %s" [ArgStr path]
                  else (c2, w0)
                else (c2, w2) in
              let '(ok, w5) := printf_d_nl w4 (sc_match_i st) in
              if negb ok then grep_warn c4 w5 true "printf: %d" [ArgNum (sc_match_i st)]
              else (c4, w5)
            else (c2, w2)) as [c3 w3].
  reflexivity.
Qed.

Lemma selects_ctx_after_scan (c : grep_ctx) (l : list string) (raw : string) :
  selects (ctx_after_scan c l) raw = selects c raw.
Proof.
  unfold selects. destruct (ctx_after_scan_cases c l) as [-> | ->]; [reflexivity|].
  apply grep_match_output_line_set_status.
Qed.

Lemma ctx_after_scan_app (c : grep_ctx) (l1 l2 : list string) :
  ctx_after_scan (ctx_after_scan c l1) l2 = ctx_after_scan c (l1 ++ l2).
Proof.
  unfold ctx_after_scan at 1 3. rewrite existsb_app.
  rewrite (existsb_ext_in (selects (ctx_after_scan c l1)) (selects c) l2
             (selects_ctx_after_scan c l1)).
  unfold ctx_after_scan. destruct (existsb (selects c) l1); cbn [orb].
  - rewrite note_match_twice. destruct (existsb (selects c) l2); reflexivity.
  - reflexivity.
Qed.

Lemma selected_output_ext (c c' : grep_ctx) (path : string) (pending : list string) :
  (forall raw, selects c' raw = selects c raw) ->
  num_files c' = num_files c -> line_number c' = line_number c ->
  forall line_i, selected_output c' path line_i pending =
                 selected_output c path line_i pending.
Proof.
  intros Hs Hn Hl. induction pending as [|raw rest IH]; intros line_i; [reflexivity|].
  cbn [selected_output]. rewrite Hs, IH. unfold line_output. rewrite Hn, Hl. reflexivity.
Qed.

Lemma mode_output_ctx_after_scan (c : grep_ctx) (l : list string) (path : string)
    (pending : list string) :
  mode_output (ctx_after_scan c l) path pending = mode_output c path pending.
Proof.
  unfold mode_output, count_output, count_selected.
  rewrite (filter_ext _ _ (selects_ctx_after_scan c l)).
  rewrite (selected_output_ext c (ctx_after_scan c l) path pending
             (selects_ctx_after_scan c l));
    destruct (ctx_after_scan_cases c l) as [-> | ->]; reflexivity.
Qed.

End ScanModes.

(** ** The option loop and the checks behind it *)

Section OptionProperties.

Context {R : regex_lib}.

Lemma grep_pattern_append_flag (c : grep_ctx) (w : world) (s : string) (f : flag) :
  flag_value (fst (grep_pattern_append c w s)) f = flag_value c f.
Proof.
  unfold grep_pattern_append.
  destruct (si_add_size_t (num_patterns c) 1) as [wraps1 sz1].
  destruct (if wraps1 then (true, sz1) else si_mul_size_t sz1 sizeof_grep_pattern)
    as [wraps sz].
  destruct wraps; [destruct f; reflexivity|].
  destruct (alloc w) as [ok w1]. destruct ok; destruct f; reflexivity.
Qed.

Lemma pattern_string_body_flag (f : flag) (buf : string) (st : grep_ctx * world)
    (tok : string) :
  flag_value (fst (pattern_string_body buf st tok)) f = flag_value (fst st) f.
Proof.
  destruct st as [c w]. unfold pattern_string_body.
  destruct (alloc w) as [ok w1]. destruct ok; cbn [negb].
  - apply grep_pattern_append_flag.
  - destruct f; reflexivity.
Qed.

Lemma grep_pattern_string_flag (c : grep_ctx) (w : world) (s : string) (f : flag) :
  flag_value (fst (grep_pattern_string c w s)) f = flag_value c f.
Proof.
  unfold grep_pattern_string. destruct s as [|a s].
  - destruct (alloc w) as [ok w1]. destruct ok; cbn [negb].
    + apply grep_pattern_append_flag.
    + destruct f; reflexivity.
  - rewrite strtok_loop_segments.
    apply (fold_left_preserves (fun st => flag_value (fst st) f) _
             (pattern_string_body_flag f _) _ (c, w)).
Qed.

Lemma pattern_file_body_flag (f : flag) (st : grep_ctx * world) (raw : string) :
  flag_value (fst (fst (pattern_file_body st raw))) f = flag_value (fst st) f.
Proof.
  destruct st as [c w]. unfold pattern_file_body. cbn [fst].
  apply grep_pattern_append_flag.
Qed.

Lemma grep_pattern_file_flag (c : grep_ctx) (w : world) (path : string) (f : flag) :
  flag_value (fst (grep_pattern_file c w path)) f = flag_value c f.
Proof.
  unfold grep_pattern_file. destruct (w_fopen w path) as [fp|e];
    [|destruct f; reflexivity].
  pose proof (read_loop_preserves (fun st => flag_value (fst st) f) pattern_file_body
                (pattern_file_body_flag f)
                (f_pending fp) (c, w) (f_fail fp) (f_errind fp) (f_close_fails fp)) as H.
  unfold getline_loop.
  destruct (read_loop pattern_file_body (c, w) (f_pending fp) (f_fail fp)
              (f_errind fp) (f_close_fails fp)) as [[c1 w1] fp1].
  cbn [fst] in H. rewrite <- H.
  destruct (ferror fp1), (fclose_failed fp1); destruct f; reflexivity.
Qed.

Lemma set_flag_value (c : grep_ctx) (f g : flag) :
  flag_value (set_flag c f) g = flag_value c g || flag_eqb f g.
Proof. destruct f, g; cbn; rewrite ?orb_true_r, ?orb_false_r; reflexivity. Qed.

Lemma flag_letter_eqb (f g : flag) :
  Ascii.eqb (flag_letter f) (flag_letter g) = flag_eqb f g.
Proof. destruct f, g; reflexivity. Qed.

(** One round of the option loop sets the flag of its letter and leaves
    the other flags as they are. *)
Lemma main_option_flag (c : grep_ctx) (w : world) (o : getopt_result) (f : flag) :
  flag_value (fst (main_option c w o)) f =
  flag_value c f || Ascii.eqb (opt_c o) (flag_letter f).
Proof.
  unfold main_option.
  repeat match goal with
         | |- context [if Ascii.eqb ?a ?b then _ else _] =>
             let E := fresh "E" in
             destruct (Ascii.eqb a b) eqn:E;
             [apply Ascii.eqb_eq in E; rewrite E;
              first [ rewrite grep_pattern_string_flag
                    | rewrite grep_pattern_file_flag
                    | cbn [fst]; rewrite set_flag_value ];
              destruct f; cbn; rewrite ?orb_true_r, ?orb_false_r; reflexivity|]
         end.
  destruct f; cbn [fst flag_value set_status_code flag_letter];
    rewrite ?E, ?E0, ?E1, ?E2, ?E3, ?E4, ?E5, ?E6, ?E7, ?E8, ?E9, ?E10, orb_false_r;
    reflexivity.
Qed.

Lemma main_options_flag (opts : list getopt_result) (f : flag) :
  forall (c : grep_ctx) (w : world),
    flag_value (fst (main_options c w opts)) f = flag_value c f || given opts (flag_letter f).
Proof.
  unfold main_options, given.
  induction opts as [|o opts IH]; intros c w.
  - cbn. rewrite orb_false_r. reflexivity.
  - cbn [fold_left existsb fst snd].
    destruct (main_option c w o) as [c1 w1] eqn:E1.
    rewrite IH. pose proof (main_option_flag c w o f) as H. rewrite E1 in H.
    cbn [fst] in H. rewrite H. rewrite orb_assoc. reflexivity.
Qed.

(** X13.  After the option loop a flag is set exactly when its letter was
    among the options: the order of the options and their repetition do
    not matter, and no option clears a flag or sets the flag of another
    letter. *)
Theorem option_loop_sets_given_flags (opts : list getopt_result) (w : world) (f : flag) :
  flag_value (fst (main_options (set_status_code zero_ctx GREP_EXIT_NOMATCH) w opts)) f =
  given opts (flag_letter f).
Proof. rewrite main_options_flag. destruct f; reflexivity. Qed.

(** A failure status behind the option loop or behind the checks makes
    the run fail without a scan. *)
Lemma grep_main_fails_early (opts : list getopt_result) (argv : list string) (w : world) :
  let st1 := main_options (set_status_code zero_ctx GREP_EXIT_NOMATCH) w opts in
  status_of st1 = GREP_EXIT_FAILURE \/
  status_of (fst (main_checks (fst st1) (snd st1) argv)) = GREP_EXIT_FAILURE ->
  fst (grep_main opts argv w) = GREP_EXIT_FAILURE /\
  io_of (snd (grep_main opts argv w)) = io_of w.
Proof.
  cbv zeta. intros H.
  pose proof (grep_main_no_scan_after_failure opts argv w) as Hmain.
  destruct (main_options (set_status_code zero_ctx GREP_EXIT_NOMATCH) w opts) as [c1 w1].
  unfold status_of in H. cbn [fst snd] in H.
  pose proof (main_checks_escalates c1 w1 argv) as He2.
  destruct (main_checks c1 w1 argv) as [[c2 w2] argv1].
  pose proof (main_compile_escalates c2 w2) as He3.
  destruct (main_compile c2 w2) as [c3 w3].
  unfold status_of in *. cbn [fst snd] in *.
  apply Hmain. apply escalates_from_failure.
  destruct H as [H|H].
  - rewrite <- H. eapply escalates_trans; eassumption.
  - rewrite <- H. exact He3.
Qed.

(** X14.  Options of which only one is accepted ([-E] with [-F], two of [-c],
    [-l] and [-q]) make the run fail, in whatever order and between
    whatever other options they are given; nothing is read from the
    standard input and nothing is written to the standard output. *)
Theorem exclusive_options_are_rejected (opts : list getopt_result) (argv : list string)
    (w : world) :
  exclusive_options_given opts = true ->
  fst (grep_main opts argv w) = GREP_EXIT_FAILURE /\
  io_of (snd (grep_main opts argv w)) = io_of w.
Proof.
  intros H. apply grep_main_fails_early. right.
  apply main_checks_rejects.
  rewrite <- H. unfold exclusive_options_given.
  set (c0 := set_status_code zero_ctx GREP_EXIT_NOMATCH).
  pose proof (fun f => main_options_flag opts f c0 w) as Hf.
  pose proof (Hf F_extended_reg_expr) as HE. pose proof (Hf F_fixed_string) as HF.
  pose proof (Hf F_line_count) as Hc. pose proof (Hf F_write_file_names) as Hl.
  pose proof (Hf F_quiet) as Hq.
  cbn [flag_value flag_letter c0 set_status_code zero_ctx extended_reg_expr fixed_string
       line_count write_file_names quiet orb] in HE, HF, Hc, Hl, Hq.
  rewrite HE, HF, Hc, Hl, Hq. reflexivity.
Qed.

Lemma main_options_failure_stays (opts : list getopt_result) :
  forall (c : grep_ctx) (w : world),
    status_code c = GREP_EXIT_FAILURE ->
    status_of (main_options c w opts) = GREP_EXIT_FAILURE.
Proof.
  intros c w H. apply escalates_from_failure. rewrite <- H.
  apply main_options_escalates.
Qed.

Lemma main_options_cons (c : grep_ctx) (w : world) (o : getopt_result)
    (opts : list getopt_result) :
  main_options c w (o :: opts) =
  main_options (fst (main_option c w o)) (snd (main_option c w o)) opts.
Proof. unfold main_options. cbn [fold_left fst snd]. destruct (main_option c w o); reflexivity. Qed.

Lemma main_options_app (c : grep_ctx) (w : world) (pre post : list getopt_result) :
  main_options c w (pre ++ post) =
  main_options (fst (main_options c w pre)) (snd (main_options c w pre)) post.
Proof.
  unfold main_options. rewrite fold_left_app.
  destruct (fold_left _ pre (c, w)); reflexivity.
Qed.

(** X15.  A result of [getopt] outside the letters of "ceEfFilnqsvx" (the
    '?' of an unknown option or of a missing argument), wherever it
    stands among the options, does nothing but set the failure status:
    the option loop goes on with the options behind it, from the state
    the options in front of it left, and the run ends with the failure
    status without a scan. *)
Theorem unknown_option_is_rejected (pre post : list getopt_result) (argv : list string)
    (w : world) (o : getopt_result) :
  known_option (opt_c o) = false ->
  main_options (set_status_code zero_ctx GREP_EXIT_NOMATCH) w (pre ++ o :: post) =
    main_options
      (set_status_code
         (fst (main_options (set_status_code zero_ctx GREP_EXIT_NOMATCH) w pre))
         GREP_EXIT_FAILURE)
      (snd (main_options (set_status_code zero_ctx GREP_EXIT_NOMATCH) w pre)) post /\
  fst (grep_main (pre ++ o :: post) argv w) = GREP_EXIT_FAILURE /\
  io_of (snd (grep_main (pre ++ o :: post) argv w)) = io_of w.
Proof.
  intros Hk.
  assert (main_options (set_status_code zero_ctx GREP_EXIT_NOMATCH) w (pre ++ o :: post) =
          main_options
            (set_status_code
               (fst (main_options (set_status_code zero_ctx GREP_EXIT_NOMATCH) w pre))
               GREP_EXIT_FAILURE)
            (snd (main_options (set_status_code zero_ctx GREP_EXIT_NOMATCH) w pre)) post)
    as E
    by (rewrite main_options_app, main_options_cons, main_option_unknown by exact Hk;
        reflexivity).
  split; [exact E|]. apply grep_main_fails_early. left. rewrite E.
  apply main_options_failure_stays. reflexivity.
Qed.

Lemma main_options_num_patterns (opts : list getopt_result) :
  forall (c : grep_ctx) (w : world),
    given opts "e" = false -> given opts "f" = false ->
    num_patterns (fst (main_options c w opts)) = num_patterns c.
Proof.
  induction opts as [|o opts IH]; intros c w He Hf; [reflexivity|].
  unfold given in He, Hf. cbn [existsb] in He, Hf.
  apply orb_false_elim in He. destruct He as [He1 He].
  apply orb_false_elim in Hf. destruct Hf as [Hf1 Hf].
  rewrite main_options_cons, IH by assumption.
  unfold main_option. rewrite He1, Hf1.
  repeat match goal with
         | |- context [if Ascii.eqb ?a ?b then _ else _] => destruct (Ascii.eqb a b)
         end; reflexivity.
Qed.

Lemma patterns_none (c : grep_ctx) : num_patterns c = 0 -> patterns c = [].
Proof. unfold patterns. intros ->. reflexivity. Qed.

Lemma main_compile_no_patterns (c : grep_ctx) (w : world) :
  num_patterns c = 0 ->
  snd (main_compile c w) = w /\ num_patterns (fst (main_compile c w)) = 0.
Proof.
  intros H0. unfold main_compile.
  assert (num_patterns (grep_set_fn_match c) = 0) as Hn.
  { unfold grep_set_fn_match.
    destruct (fixed_string c), (case_insensitive c), (full_string_match c); exact H0. }
  destruct (negb (fixed_string (grep_set_fn_match c))).
  - unfold grep_compile_pattern_list. rewrite (patterns_none _ Hn).
    cbn [compile_loop fst snd num_patterns set_patterns]. split; [reflexivity|exact Hn].
  - split; [reflexivity|exact Hn].
Qed.

(** X16.  Without [-e], [-f] and operands there is no pattern list: the run
    fails with the diagnostic "missing pattern_list" as the last one
    written, and scans nothing. *)
Theorem missing_pattern_list_is_rejected (opts : list getopt_result) (w : world) :
  given opts "e" = false ->
  given opts "f" = false ->
  fst (grep_main opts [] w) = GREP_EXIT_FAILURE /\
  io_of (snd (grep_main opts [] w)) = io_of w /\
  exists before,
    w_stderr (snd (grep_main opts [] w)) =
    before ++ [mk_warning false "missing pattern_list" []].
Proof.
  intros He Hf.
  pose proof (main_options_num_patterns opts
                (set_status_code zero_ctx GREP_EXIT_NOMATCH) w He Hf) as Hn.
  assert (fst (grep_main opts [] w) = GREP_EXIT_FAILURE /\
          io_of (snd (grep_main opts [] w)) = io_of w) as [G1 G2].
  { apply grep_main_fails_early. right.
    pose proof (main_checks_missing _
                  (snd (main_options (set_status_code zero_ctx GREP_EXIT_NOMATCH) w opts))
                  Hn) as H.
    destruct (main_checks _ _ []) as [[c2 w2] argv1]. apply H. }
  split; [exact G1|split; [exact G2|]].
  unfold grep_main.
  destruct (main_options (set_status_code zero_ctx GREP_EXIT_NOMATCH) w opts) as [c1 w1].
  cbn [fst] in Hn. pose proof (main_checks_missing c1 w1 Hn) as H.
  destruct (main_checks c1 w1 []) as [[c2 w2] argv1].
  destruct H as [Hs [H0 [before Hw]]].
  pose proof (main_compile_no_patterns c2 w2 H0) as [Hw3 Hn3].
  pose proof (main_compile_escalates c2 w2) as He3.
  destruct (main_compile c2 w2) as [c3 w3].
  unfold status_of in He3. cbn [fst snd] in Hw3, Hn3, He3. subst w3.
  rewrite Hs in He3. apply escalates_from_failure in He3.
  unfold main_scan. rewrite He3. cbn [exit_status_eqb negb].
  unfold grep_free_pattern_list. rewrite (patterns_none _ Hn3).
  cbn [fold_left snd]. exists before. exact Hw.
Qed.



End OptionProperties.

(** ** Diagnostics and the status *)

Section Diagnostics.

Context {R : regex_lib}.

Lemma accounted_refl (st : grep_ctx * world) : accounted st st.
Proof. split; [apply escalates_refl|left; reflexivity]. Qed.

Lemma accounted_trans (a b c : grep_ctx * world) :
  accounted a b -> accounted b c -> accounted a c.
Proof.
  intros [E1 T1] [E2 T2]. split; [eapply escalates_trans; eassumption|].
  destruct T2 as [T2|T2]; [|right; exact T2].
  destruct T1 as [T1|T1]; [left; congruence|].
  right. apply escalates_from_failure. rewrite <- T1. exact E2.
Qed.

Lemma accounted_failure (st st' : grep_ctx * world) :
  status_of st' = GREP_EXIT_FAILURE -> accounted st st'.
Proof. intros H. split; [rewrite H; apply escalates_failure|right; exact H]. Qed.

Lemma accounted_same (st st' : grep_ctx * world) :
  status_of st' = status_of st -> w_stderr (snd st') = w_stderr (snd st) ->
  accounted st st'.
Proof. intros H1 H2. split; [rewrite H1; apply escalates_refl|left; exact H2]. Qed.

Lemma accounted_match (c : grep_ctx) (w : world) : accounted (c, w) (note_match c, w).
Proof. split; [apply note_match_escalates|left; reflexivity]. Qed.

(** Straight-line code over the allocation and output calls. *)
Ltac told :=
  unfold puts, printf_s_colon, printf_d_colon, printf_d_nl, write_out, alloc;
  repeat first
    [ progress cbn [negb grep_warn]
    | match goal with
      | |- context [next_outcome ?l] => destruct (next_outcome l) as [[|] ?]
      | |- context [if ?b then _ else _] => destruct b
      end ];
  first [ apply accounted_failure; reflexivity
        | apply accounted_same; reflexivity ].

Lemma fold_left_accounted {B : Type}
    (step : grep_ctx * world -> B -> grep_ctx * world) :
  (forall st b, accounted st (step st b)) ->
  forall l st, accounted st (fold_left step l st).
Proof.
  intros Hstep. induction l as [|b l IH]; intros st; [apply accounted_refl|].
  cbn [fold_left]. eapply accounted_trans; [apply Hstep|apply IH].
Qed.

Lemma read_loop_accounted {A : Type} (view : A -> grep_ctx * world)
    (body : A -> string -> A * bool) :
  (forall st raw, accounted (view st) (view (fst (body st raw)))) ->
  forall pending st fail errind closef,
    accounted (view st) (view (fst (read_loop body st pending fail errind closef))).
Proof.
  intros Hbody. induction pending as [|raw rest IH]; intros st fail errind closef.
  - apply accounted_refl.
  - cbn [read_loop]. specialize (Hbody st raw).
    destruct (body st raw) as [st1 brk]. cbn [fst] in Hbody.
    destruct brk; [exact Hbody|].
    eapply accounted_trans; [exact Hbody|apply IH].
Qed.

Lemma grep_pattern_append_accounted (c : grep_ctx) (w : world) (s : string) :
  accounted (c, w) (grep_pattern_append c w s).
Proof.
  unfold grep_pattern_append.
  destruct (si_add_size_t (num_patterns c) 1) as [wraps1 sz1].
  destruct (if wraps1 then (true, sz1) else si_mul_size_t sz1 sizeof_grep_pattern)
    as [wraps sz].
  destruct wraps; [apply accounted_failure; reflexivity|]. told.
Qed.

Lemma alloc_accounted (c : grep_ctx) (w : world) : accounted (c, w) (c, snd (alloc w)).
Proof. told. Qed.

Lemma pattern_string_body_accounted (buf : string) (st : grep_ctx * world) (tok : string) :
  accounted st (pattern_string_body buf st tok).
Proof.
  destruct st as [c w]. unfold pattern_string_body.
  pose proof (alloc_accounted c w) as H. destruct (alloc w) as [ok w1].
  destruct ok; cbn [negb]; [|apply accounted_failure; reflexivity].
  eapply accounted_trans; [exact H|apply grep_pattern_append_accounted].
Qed.

Lemma grep_pattern_string_accounted (c : grep_ctx) (w : world) (s : string) :
  accounted (c, w) (grep_pattern_string c w s).
Proof.
  unfold grep_pattern_string. destruct s as [|a s].
  - pose proof (alloc_accounted c w) as H. destruct (alloc w) as [ok w1].
    destruct ok; cbn [negb]; [|apply accounted_failure; reflexivity].
    eapply accounted_trans; [exact H|apply grep_pattern_append_accounted].
  - rewrite strtok_loop_segments. apply fold_left_accounted.
    apply pattern_string_body_accounted.
Qed.

Lemma pattern_file_body_accounted (st : grep_ctx * world) (raw : string) :
  accounted st (fst (pattern_file_body st raw)).
Proof.
  destruct st as [c w]. unfold pattern_file_body. cbn [fst].
  apply grep_pattern_append_accounted.
Qed.

Lemma grep_pattern_file_accounted (c : grep_ctx) (w : world) (path : string) :
  accounted (c, w) (grep_pattern_file c w path).
Proof.
  unfold grep_pattern_file. destruct (w_fopen w path) as [fp|e];
    [|apply accounted_failure; reflexivity].
  pose proof (read_loop_accounted (fun st => st) pattern_file_body
                pattern_file_body_accounted (f_pending fp) (c, w)
                (f_fail fp) (f_errind fp) (f_close_fails fp)) as H.
  unfold getline_loop.
  destruct (read_loop pattern_file_body (c, w) (f_pending fp) (f_fail fp)
              (f_errind fp) (f_close_fails fp)) as [[c1 w1] fp1].
  cbn [fst] in H.
  destruct (ferror fp1), (fclose_failed fp1);
    first [apply accounted_failure; reflexivity|exact H].
Qed.

Lemma grep_pattern_add_bol_eol_accounted (c : grep_ctx) (w : world) (p : grep_pattern) :
  accounted (c, w) (fst (grep_pattern_add_bol_eol c w p)).
Proof.
  unfold grep_pattern_add_bol_eol.
  destruct (si_add_size_t _ 5) as [wraps sz].
  destruct wraps; [apply accounted_failure; reflexivity|]. told.
Qed.

Lemma compile_one_accounted (c : grep_ctx) (w : world) (cflags : Z) (p : grep_pattern) :
  accounted (c, w) (fst (compile_one c w cflags p)).
Proof.
  unfold compile_one.
  assert (accounted (c, w)
            (fst (if full_string_match c then grep_pattern_add_bol_eol c w p
                  else (c, w, p)))) as H
    by (destruct (full_string_match c);
        [apply grep_pattern_add_bol_eol_accounted|apply accounted_refl]).
  destruct (if full_string_match c then grep_pattern_add_bol_eol c w p else (c, w, p))
    as [[c1 w1] p1].
  cbn [fst] in H. destruct (regcomp (pattern p1) cflags);
    [exact H|apply accounted_failure; reflexivity].
Qed.

Lemma compile_loop_accounted (cflags : Z) (todo : list grep_pattern) :
  forall (c : grep_ctx) (w : world),
    accounted (c, w) (fst (compile_loop c w cflags todo)).
Proof.
  induction todo as [|p todo IH]; intros c w; [apply accounted_refl|].
  cbn [compile_loop]. pose proof (compile_one_accounted c w cflags p) as H1.
  destruct (compile_one c w cflags p) as [[c1 w1] p1].
  specialize (IH c1 w1). destruct (compile_loop c1 w1 cflags todo) as [[c2 w2] done].
  cbn [fst] in *. eapply accounted_trans; eassumption.
Qed.

Lemma main_compile_accounted (c : grep_ctx) (w : world) :
  accounted (c, w) (main_compile c w).
Proof.
  unfold main_compile, grep_compile_pattern_list.
  destruct (flags_grep_set_fn_match c) as [_ [_ [_ Hs]]].
  assert (accounted (c, w) (grep_set_fn_match c, w)) as H0
    by (apply accounted_same; [exact Hs|reflexivity]).
  destruct (negb (fixed_string (grep_set_fn_match c))); [|exact H0].
  pose proof (compile_loop_accounted (compile_cflags (grep_set_fn_match c))
                (patterns (grep_set_fn_match c)) (grep_set_fn_match c) w) as H.
  destruct (compile_loop _ w _ _) as [[c1 w1] done]. cbn [fst] in H.
  eapply accounted_trans; [exact H0|]. eapply accounted_trans; [exact H|].
  apply accounted_same; reflexivity.
Qed.

Lemma output_match_accounted (c : grep_ctx) (w : world) (path line : string) (line_i : Z) :
  accounted (c, w) (output_match c w path line line_i).
Proof. unfold output_match. told. Qed.

Lemma output_fp_body_accounted (path : string) (st : scan_state) (raw : string) :
  accounted (sc_ctx st, sc_world st)
    (sc_ctx (fst (output_fp_body path st raw)), sc_world (fst (output_fp_body path st raw))).
Proof.
  unfold output_fp_body. fold (note_match (sc_ctx st)).
  destruct (grep_match_output_line (sc_ctx st) (chomp raw)); [|apply accounted_refl].
  eapply accounted_trans; [apply accounted_match|].
  destruct (write_file_names (note_match (sc_ctx st))).
  - told.
  - pose proof (output_match_accounted (note_match (sc_ctx st)) (sc_world st) path
                  (chomp raw) (sc_line_i st)) as H.
    destruct (output_match (note_match (sc_ctx st)) (sc_world st) path (chomp raw)
                (sc_line_i st)) as [c1 w1].
    exact H.
Qed.

Lemma grep_match_output_fp_accounted (c : grep_ctx) (w : world) (path : string) (fp : FILE) :
  accounted (c, w) (fst (grep_match_output_fp c w path fp)).
Proof.
  unfold grep_match_output_fp, getline_loop.
  pose proof (read_loop_accounted (fun st => (sc_ctx st, sc_world st))
                (output_fp_body path) (output_fp_body_accounted path)
                (f_pending fp) (mk_scan c w 1 0)
                (f_fail fp) (f_errind fp) (f_close_fails fp)) as H.
  destruct (read_loop (output_fp_body path) (mk_scan c w 1 0) (f_pending fp)
              (f_fail fp) (f_errind fp) (f_close_fails fp)) as [st fp1].
  cbn [fst sc_ctx sc_world] in H.
  eapply accounted_trans; [exact H|].
  destruct (ferror fp1); cbn [grep_warn]; told.
Qed.

Lemma grep_match_output_path_accounted (st : grep_ctx * world) (path : string) :
  accounted st (grep_match_output_path (fst st) (snd st) path).
Proof.
  destruct st as [c w]. cbn [fst snd].
  unfold grep_match_output_path. destruct (w_fopen w path) as [fp|e].
  - pose proof (grep_match_output_fp_accounted c w path fp) as H.
    destruct (grep_match_output_fp c w path fp) as [[c1 w1] fp1].
    destruct (fclose_failed fp1); [apply accounted_failure; reflexivity|exact H].
  - destruct (if ignore_file_error c then negb (fopen_error_suppressed e) else true);
      [apply accounted_failure; reflexivity|apply accounted_refl].
Qed.

Lemma main_scan_accounted (c : grep_ctx) (w : world) (argv : list string) :
  accounted (c, w) (main_scan c w argv).
Proof.
  unfold main_scan.
  destruct (negb (exit_status_eqb (status_code c) GREP_EXIT_FAILURE));
    [|apply accounted_refl].
  destruct argv as [|a argv'].
  - pose proof (grep_match_output_fp_accounted (set_num_files c 1) w "(standard input)"
                  (w_stdin w)) as H.
    destruct (grep_match_output_fp (set_num_files c 1) w "(standard input)" (w_stdin w))
      as [[c2 w2] fp].
    cbn [fst] in H. eapply accounted_trans; [|eapply accounted_trans; [exact H|]];
      apply accounted_same; reflexivity.
  - unfold main_scan_paths.
    eapply accounted_trans;
      [|apply (fold_left_accounted _ grep_match_output_path_accounted)].
    apply accounted_same; reflexivity.
Qed.

Lemma main_option_accounted (st : grep_ctx * world) (o : getopt_result) :
  accounted st (main_option (fst st) (snd st) o).
Proof.
  destruct st as [c w]. unfold main_option. cbn [fst snd].
  repeat match goal with
         | |- context [if Ascii.eqb ?a ?b then _ else _] => destruct (Ascii.eqb a b)
         end;
    first [ apply grep_pattern_string_accounted
          | apply grep_pattern_file_accounted
          | apply accounted_failure; reflexivity
          | apply accounted_same; reflexivity ].
Qed.

Lemma main_checks_accounted (c : grep_ctx) (w : world) (argv : list string) :
  accounted (c, w) (fst (main_checks c w argv)).
Proof.
  unfold main_checks.
  assert (forall (b : bool) (c0 : grep_ctx) (w0 : world) fmt,
            accounted (c0, w0) (if b then grep_warn c0 w0 false fmt [] else (c0, w0))) as Hw
    by (intros b c0 w0 fmt; destruct b;
        [apply accounted_failure; reflexivity|apply accounted_refl]).
  pose proof (Hw (extended_reg_expr c && fixed_string c) c w "[-E|-F]") as H1.
  destruct (if extended_reg_expr c && fixed_string c
            then grep_warn c w false "[-E|-F]" [] else (c, w)) as [c1 w1].
  pose proof (Hw ((line_count c1 && write_file_names c1) || (line_count c1 && quiet c1)
                  || (write_file_names c1 && quiet c1)) c1 w1 "[-c|-l|-q]") as H2.
  destruct (if (line_count c1 && write_file_names c1) || (line_count c1 && quiet c1)
               || (write_file_names c1 && quiet c1)
            then grep_warn c1 w1 false "[-c|-l|-q]" [] else (c1, w1)) as [c2 w2].
  eapply accounted_trans; [exact H1|]. eapply accounted_trans; [exact H2|].
  destruct (num_patterns c2 =? 0)%Z; [|apply accounted_refl].
  destruct argv as [|a argv']; [apply accounted_failure; reflexivity|].
  apply grep_pattern_string_accounted.
Qed.

Lemma grep_free_pattern_list_accounted (c : grep_ctx) (w : world) :
  accounted (c, w) (grep_free_pattern_list c w).
Proof.
  unfold grep_free_pattern_list. apply accounted_same; [reflexivity|].
  cbn [snd].
  apply (fold_left_preserves w_stderr (fun w0 p => free_str w0 (pattern p))).
  reflexivity.
Qed.

Lemma run_op_accounted (st : grep_ctx * world) (op : operation) :
  accounted st (run_op st op).
Proof.
  destruct st as [c w]. destruct op; cbn [run_op].
  - apply accounted_failure. reflexivity.
  - apply (main_option_accounted (c, w)).
  - apply main_checks_accounted.
  - apply grep_pattern_append_accounted.
  - apply grep_pattern_string_accounted.
  - apply grep_pattern_file_accounted.
  - apply grep_pattern_add_bol_eol_accounted.
  - apply compile_one_accounted.
  - unfold grep_compile_pattern_list.
    pose proof (compile_loop_accounted (compile_cflags c) (patterns c) c w) as H.
    destruct (compile_loop c w _ _) as [[c1 w1] done]. cbn [fst] in H.
    eapply accounted_trans; [exact H|]. apply accounted_same; reflexivity.
  - apply main_compile_accounted.
  - apply (output_fp_body_accounted path (mk_scan c w line_i match_i) raw).
  - apply grep_match_output_fp_accounted.
  - apply (grep_match_output_path_accounted (c, w)).
  - apply main_scan_accounted.
  - apply grep_free_pattern_list_accounted.
Qed.

Lemma grep_main_accounted (opts : list getopt_result) (argv : list string) (w : world) :
  escalates GREP_EXIT_NOMATCH (fst (grep_main opts argv w)) /\
  (w_stderr (snd (grep_main opts argv w)) = w_stderr w \/
   fst (grep_main opts argv w) = GREP_EXIT_FAILURE).
Proof.
  unfold grep_main.
  set (c := set_status_code zero_ctx GREP_EXIT_NOMATCH).
  pose proof (fold_left_accounted _ main_option_accounted opts (c, w)) as H1.
  fold (main_options c w opts) in H1.
  destruct (main_options c w opts) as [c1 w1].
  pose proof (main_checks_accounted c1 w1 argv) as H2.
  destruct (main_checks c1 w1 argv) as [[c2 w2] argv1]. cbn [fst] in H2.
  pose proof (main_compile_accounted c2 w2) as H3.
  destruct (main_compile c2 w2) as [c3 w3].
  pose proof (main_scan_accounted c3 w3 argv1) as H4.
  destruct (main_scan c3 w3 argv1) as [c4 w4].
  pose proof (grep_free_pattern_list_accounted c4 w4) as H5.
  destruct (grep_free_pattern_list c4 w4) as [c5 w5].
  exact (accounted_trans _ _ _ H1
           (accounted_trans _ _ _ H2
              (accounted_trans _ _ _ H3 (accounted_trans _ _ _ H4 H5)))).
Qed.

(** X23.  No diagnostic is written by [grep_warn] without the failure status: when a run of
    [grep_main], or any sequence of the operations it is made of, has
    written to the standard error, its status is the failure status. *)
Theorem diagnostics_imply_failure :
  (forall (ops : list operation) (st : grep_ctx * world),
     w_stderr (snd (run_ops st ops)) <> w_stderr (snd st) ->
     status_of (run_ops st ops) = GREP_EXIT_FAILURE) /\
  (forall (opts : list getopt_result) (argv : list string) (w : world),
     w_stderr (snd (grep_main opts argv w)) <> w_stderr w ->
     fst (grep_main opts argv w) = GREP_EXIT_FAILURE).
Proof.
  split.
  - intros ops st H.
    destruct (fold_left_accounted run_op run_op_accounted ops st) as [_ [T|T]];
      [contradiction|exact T].
  - intros opts argv w H.
    destruct (grep_main_accounted opts argv w) as [_ [T|T]]; [contradiction|exact T].
Qed.

End Diagnostics.

(** ** The pattern store over a run *)

Lemma after_frees_nil (w : world) : after_frees w [] = w.
Proof. destruct w. unfold after_frees. simpl. rewrite app_nil_r. reflexivity. Qed.

Lemma split_nl_plain (l : string) :
  plain_line l = true -> split_nl l = [l].
Proof.
  induction l as [|a l IH]; [reflexivity|].
  cbn [plain_line split_nl]. intros H.
  apply andb_prop in H. destruct H as [H Hl]. apply andb_prop in H. destruct H as [Ha _].
  apply negb_true_iff in Ha. rewrite Ha, (IH Hl). reflexivity.
Qed.

Lemma split_nl_app_plain (l rest : string) :
  plain_line l = true ->
  split_nl (l ++ String NL rest) = l :: split_nl rest.
Proof.
  induction l as [|a l IH].
  - intros _. cbn [append split_nl]. rewrite Ascii.eqb_refl. reflexivity.
  - cbn [plain_line append split_nl]. intros H.
    apply andb_prop in H. destruct H as [H Hl]. apply andb_prop in H. destruct H as [Ha _].
    apply negb_true_iff in Ha. rewrite Ha, (IH Hl). reflexivity.
Qed.

(** Splitting undoes joining. *)
Lemma segments_join_lines (lines : list string) :
  forallb (fun l => nonempty l && plain_line l) lines = true ->
  segments (join_lines lines) = lines.
Proof.
  unfold segments, join_lines.
  induction lines as [|l lines IH]; [reflexivity|].
  cbn [forallb]. intros H. apply andb_prop in H. destruct H as [H Hrest].
  apply andb_prop in H. destruct H as [Hne Hpl].
  destruct lines as [|l2 lines].
  - cbn [concat]. rewrite (split_nl_plain l Hpl). cbn [filter]. rewrite Hne. reflexivity.
  - change (concat (String NL EmptyString) (l :: l2 :: lines))
      with (l ++ String NL (concat (String NL EmptyString) (l2 :: lines)))%string.
    rewrite (split_nl_app_plain l _ Hpl). cbn [filter]. rewrite Hne.
    f_equal. apply IH. exact Hrest.
Qed.

Section StoreOverRun.

Context {R : regex_lib}.

Lemma free_loop_eq (l : list grep_pattern) :
  forall w, fold_left (fun w0 p => free_str w0 (pattern p)) l w =
            after_frees w (map pattern l).
Proof.
  induction l as [|p l IH]; intros w.
  - cbn [fold_left map]. symmetry. apply after_frees_nil.
  - cbn [fold_left map]. rewrite IH. unfold after_frees, free_str.
    cbn [w_alloc w_write w_stdout w_stderr w_freed w_fopen w_stdin].
    rewrite <- app_assoc. reflexivity.
Qed.

(** X22.  [grep_free_pattern_list] releases the text of every stored pattern,
    each once and in the order of the array, and leaves no pattern in
    the store; the status and the rest of the environment stay as they
    are. *)
Theorem grep_free_pattern_list_releases_patterns (c : grep_ctx) (w : world) :
  grep_free_pattern_list c w =
    (set_patterns c [] 0, after_frees w (map pattern (patterns c))) /\
  patterns (fst (grep_free_pattern_list c w)) = [] /\
  status_of (grep_free_pattern_list c w) = status_code c.
Proof.
  unfold grep_free_pattern_list. rewrite free_loop_eq.
  split; [reflexivity|split; reflexivity].
Qed.

(** X20.  A pattern list of non-empty lines joined by newlines is stored line
    by line: [grep_pattern_string] undoes the joining. *)
Theorem grep_pattern_string_splits_joined_lines (c : grep_ctx) (w : world)
    (lines : list string) :
  lines <> [] ->
  forallb (fun l => nonempty l && plain_line l) lines = true ->
  is_size_t (num_patterns c) ->
  (num_patterns c + Z.of_nat (List.length lines)) * sizeof_grep_pattern <= SIZE_MAX ->
  all_succeed (w_alloc w) ->
  patterns (fst (grep_pattern_string c w (join_lines lines))) =
    patterns c ++ map fresh_pattern lines /\
  status_of (grep_pattern_string c w (join_lines lines)) = status_code c.
Proof.
  intros Hne Hl Hn Hcap Hw.
  pose proof (segments_join_lines lines Hl) as Hseg.
  unfold grep_pattern_string.
  destruct (join_lines lines) as [|a s] eqn:E.
  - exfalso. cbn in Hseg. apply Hne. symmetry. exact Hseg.
  - rewrite strtok_loop_segments, Hseg.
    destruct (pattern_string_body_run (buffer_after_strtok (String a s)) lines c w
                Hn Hcap Hw) as [P1 [_ [P3 _]]].
    split; [exact P1|exact P3].
Qed.

Lemma compile_one_succeeds (c : grep_ctx) (w : world) (cflags : Z) (p : grep_pattern) :
  all_succeed (w_alloc w) ->
  anchor_fits p ->
  (exists r, regcomp (compile_text c p) cflags = inl r) ->
  exists w1 p1,
    compile_one c w cflags p = (c, w1, p1) /\
    holds_compiled cflags (compile_text c p) p1 /\
    all_succeed (w_alloc w1) /\
    w_stderr w1 = w_stderr w /\
    w_freed w1 = w_freed w ++ (if full_string_match c then [pattern p] else []).
Proof.
  intros Hw Hfit [r Hr]. unfold compile_one, compile_text in *.
  destruct (full_string_match c).
  - destruct (grep_pattern_add_bol_eol_cases c w p)
      as [[_ [_ ->]]|[[Hbad|Hbad] _]].
    + cbn [pattern]. rewrite Hr. eexists. eexists. split; [reflexivity|].
      destruct (alloc_all_succeed w Hw) as [_ Hw1].
      split; [split; [reflexivity|split; [reflexivity|exists r; split; [reflexivity|exact Hr]]]|].
      split; [exact Hw1|]. unfold alloc. destruct (next_outcome (w_alloc w)).
      split; reflexivity.
    + contradiction.
    + destruct (alloc_all_succeed w Hw) as [Hok _]. congruence.
  - rewrite Hr. eexists. eexists. split; [reflexivity|].
    split; [split; [reflexivity|split; [reflexivity|exists r; split; [reflexivity|exact Hr]]]|].
    split; [exact Hw|]. split; [reflexivity|]. rewrite app_nil_r. reflexivity.
Qed.

Lemma compile_loop_succeeds (cflags : Z) (c : grep_ctx) (todo : list grep_pattern) :
  forall (w : world),
    all_succeed (w_alloc w) ->
    Forall anchor_fits todo ->
    Forall (fun p => exists r, regcomp (compile_text c p) cflags = inl r) todo ->
    exists w1 done,
      compile_loop c w cflags todo = (c, w1, done) /\
      Forall2 (fun p p1 => holds_compiled cflags (compile_text c p) p1) todo done /\
      w_stderr w1 = w_stderr w /\
      w_freed w1 = w_freed w ++ (if full_string_match c then map pattern todo else []).
Proof.
  induction todo as [|p todo IH]; intros w Hw Hfit Hok.
  - exists w, []. split; [reflexivity|]. split; [constructor|]. split; [reflexivity|].
    destruct (full_string_match c); cbn [map]; rewrite app_nil_r; reflexivity.
  - inversion Hfit as [|? ? Hf1 Hf2]; subst. inversion Hok as [|? ? Ho1 Ho2]; subst.
    destruct (compile_one_succeeds c w cflags p Hw Hf1 Ho1)
      as [w1 [p1 [E1 [Hp1 [Hw1 [He1 Hfr1]]]]]].
    destruct (IH w1 Hw1 Hf2 Ho2) as [w2 [done [E2 [Hd [He2 Hfr2]]]]].
    exists w2, (p1 :: done). cbn [compile_loop]. rewrite E1, E2.
    split; [reflexivity|]. split; [constructor; assumption|].
    split; [congruence|]. rewrite Hfr2, Hfr1, <- app_assoc.
    destruct (full_string_match c); reflexivity.
Qed.

(** X21.  When [regcomp] accepts every pattern (and the anchored copies of
    [-x] can be allocated), [grep_compile_pattern_list] reports nothing
    and leaves the status as it is; every pattern then holds the
    compiled form of its text, anchored under [-x], and under [-x] the
    texts replaced by their anchored copies are released, each once. *)
Theorem valid_patterns_compile_silently (c : grep_ctx) (w : world) :
  all_succeed (w_alloc w) ->
  Forall anchor_fits (patterns c) ->
  Forall (compiles c) (patterns c) ->
  let '(c', w') := grep_compile_pattern_list c w in
  status_code c' = status_code c /\
  w_stderr w' = w_stderr w /\
  Forall2 (fun p p' => holds_compiled (compile_cflags c) (compile_text c p) p')
    (patterns c) (patterns c') /\
  w_freed w' =
    w_freed w ++ (if full_string_match c then map pattern (patterns c) else []).
Proof.
  intros Hw Hfit Hok. unfold grep_compile_pattern_list.
  destruct (compile_loop_succeeds (compile_cflags c) c (patterns c) w Hw Hfit Hok)
    as [w1 [done [E [Hd [He Hfr]]]]].
  rewrite E. cbv zeta.
  rewrite (patterns_compiled c c done eq_refl)
    by (symmetry; eapply Forall2_length; exact Hd).
  split; [reflexivity|]. split; [exact He|]. split; [exact Hd|exact Hfr].
Qed.

Lemma main_scan_paths_run (paths : list string) :
  forall (c : grep_ctx) (w : world),
    write_file_names c = false ->
    (quiet c = true /\ line_count c = false) \/ all_succeed (w_write w) ->
    Forall (clean_file w) paths ->
    main_scan_paths c w paths =
    (ctx_after_scan c (flat_map (pending_of w) paths),
     after_writes w (flat_map (fun path => mode_output c path (pending_of w path)) paths)).
Proof.
  unfold main_scan_paths.
  induction paths as [|path paths IH]; intros c w Hl Hw Hclean.
  - cbn [fold_left flat_map]. rewrite after_writes_nil. reflexivity.
  - inversion Hclean as [|? ? [fp [Hfp [_ [Hfail Hclose]]]] Hrest]; subst.
    cbn [fold_left flat_map fst snd].
    unfold grep_match_output_path at 2. rewrite Hfp.
    rewrite scan_run by assumption.
    cbn [fclose_failed f_close_fails]. rewrite Hclose.
    assert (pending_of w path = f_pending fp) as Hp
      by (unfold pending_of; rewrite Hfp; reflexivity).
    rewrite <- Hp.
    set (c1 := ctx_after_scan c (pending_of w path)).
    set (w1 := after_writes w (mode_output c path (pending_of w path))).
    assert (write_file_names c1 = false /\ quiet c1 = quiet c /\
            line_count c1 = line_count c) as [Hl1 [Hq1 Hc1]]
      by (unfold c1; destruct (ctx_after_scan_cases c (pending_of w path)) as [-> | ->];
          repeat split; exact Hl).
    rewrite (IH c1 w1); [|exact Hl1| |].
    + change (pending_of w1) with (pending_of w).
      unfold c1 at 1. rewrite ctx_after_scan_app. f_equal.
      unfold w1. rewrite after_writes_app. f_equal. f_equal.
      apply flat_map_ext. intros p. unfold c1. apply mode_output_ctx_after_scan.
    + rewrite Hq1, Hc1. destruct Hw as [Hw|Hw]; [left; exact Hw|right].
      apply after_writes_all_succeed. exact Hw.
    + exact Hrest.
Qed.

(** X12.  The operands are scanned one after the other in the order given,
    each from its first line, and the status carries over from one file
    to the next: when every file opens, has fewer than [INT_MAX] lines,
    reads and closes without an error and the output calls succeed, the
    output is that of the files in turn and a match is noted when some
    file has a selected line. *)
Theorem operands_are_scanned_in_order (c : grep_ctx) (w : world) (paths : list string) :
  write_file_names c = false ->
  all_succeed (w_write w) ->
  Forall (clean_file w) paths ->
  main_scan_paths c w paths =
  (ctx_after_scan c (flat_map (pending_of w) paths),
   after_writes w (flat_map (fun path => mode_output c path (pending_of w path)) paths)).
Proof.
  intros Hl Hw Hclean. apply main_scan_paths_run; [exact Hl|right; exact Hw|exact Hclean].
Qed.

End StoreOverRun.

(** ** What the pattern loaders leave of the environment *)

Section Frame.

Context {R : regex_lib}.

Variable X : Type.
Variable part : world -> X.
Hypothesis part_alloc : forall w, part (snd (alloc w)) = part w.
Hypothesis part_warning : forall w m, part (emit_warning w m) = part w.
Hypothesis part_free : forall w s, part (free_str w s) = part w.

Lemma grep_pattern_append_part (c : grep_ctx) (w : world) (s : string) :
  part (snd (grep_pattern_append c w s)) = part w.
Proof.
  unfold grep_pattern_append.
  destruct (si_add_size_t (num_patterns c) 1) as [wraps1 sz1].
  destruct (if wraps1 then (true, sz1) else si_mul_size_t sz1 sizeof_grep_pattern)
    as [wraps sz].
  destruct wraps; cbn [grep_warn snd]; [rewrite part_free; apply part_warning|].
  pose proof (part_alloc w) as H. destruct (alloc w) as [ok w1]. cbn [snd] in H.
  destruct ok; cbn [negb grep_warn snd]; [exact H|].
  rewrite part_free, part_warning. exact H.
Qed.

Lemma pattern_string_body_part (buf : string) (st : grep_ctx * world) (tok : string) :
  part (snd (pattern_string_body buf st tok)) = part (snd st).
Proof.
  destruct st as [c w]. unfold pattern_string_body.
  pose proof (part_alloc w) as H. destruct (alloc w) as [ok w1]. cbn [snd] in H |- *.
  destruct ok; cbn [negb grep_warn snd].
  - rewrite grep_pattern_append_part. exact H.
  - rewrite part_warning. exact H.
Qed.

Lemma grep_pattern_string_part (c : grep_ctx) (w : world) (s : string) :
  part (snd (grep_pattern_string c w s)) = part w.
Proof.
  unfold grep_pattern_string. destruct s as [|a s].
  - pose proof (part_alloc w) as H. destruct (alloc w) as [ok w1]. cbn [snd] in H.
    destruct ok; cbn [negb grep_warn snd].
    + rewrite grep_pattern_append_part. exact H.
    + rewrite part_warning. exact H.
  - rewrite strtok_loop_segments.
    apply (fold_left_preserves (fun st => part (snd st)) _
             (pattern_string_body_part _) _ (c, w)).
Qed.

Lemma pattern_file_body_part (st : grep_ctx * world) (raw : string) :
  part (snd (fst (pattern_file_body st raw))) = part (snd st).
Proof.
  destruct st as [c w]. unfold pattern_file_body. cbn [fst snd].
  apply grep_pattern_append_part.
Qed.

Lemma grep_pattern_file_part (c : grep_ctx) (w : world) (path : string) :
  part (snd (grep_pattern_file c w path)) = part w.
Proof.
  unfold grep_pattern_file. destruct (w_fopen w path) as [fp|e];
    [|cbn [grep_warn snd]; apply part_warning].
  pose proof (read_loop_preserves (fun st => part (snd st)) pattern_file_body
                pattern_file_body_part
                (f_pending fp) (c, w) (f_fail fp) (f_errind fp) (f_close_fails fp)) as H.
  unfold getline_loop.
  destruct (read_loop pattern_file_body (c, w) (f_pending fp) (f_fail fp)
              (f_errind fp) (f_close_fails fp)) as [[c1 w1] fp1].
  cbn [fst snd] in H.
  destruct (ferror fp1), (fclose_failed fp1); cbn [grep_warn snd];
    rewrite ?part_warning; exact H.
Qed.

Lemma main_option_part (st : grep_ctx * world) (o : getopt_result) :
  part (snd (main_option (fst st) (snd st) o)) = part (snd st).
Proof.
  destruct st as [c w]. unfold main_option. cbn [fst snd].
  repeat match goal with
         | |- context [if Ascii.eqb ?a ?b then _ else _] => destruct (Ascii.eqb a b)
         end;
    first [ reflexivity
          | apply grep_pattern_string_part
          | apply grep_pattern_file_part ].
Qed.

Lemma main_options_part (c : grep_ctx) (w : world) (opts : list getopt_result) :
  part (snd (main_options c w opts)) = part w.
Proof.
  unfold main_options.
  apply (fold_left_preserves (fun st => part (snd st))
           (fun st o => main_option (fst st) (snd st) o) main_option_part opts (c, w)).
Qed.

End Frame.

Section PatternFiles.

Context {R : regex_lib}.

Lemma main_options_fopen (c : grep_ctx) (w : world) (opts : list getopt_result) :
  w_fopen (snd (main_options c w opts)) = w_fopen w.
Proof.
  apply (main_options_part _ w_fopen).
  - intros w0. unfold alloc. destruct (next_outcome (w_alloc w0)). reflexivity.
  - reflexivity.
  - reflexivity.
Qed.

(** X18.  A pattern file that cannot be opened makes the run fail without a
    scan, wherever its [-f] stands among the options; [-s] silences the
    open failures of the files to search only, not this one. *)
Theorem unreadable_pattern_file_is_fatal (opts : list getopt_result)
    (argv : list string) (w : world) (o : getopt_result) (e : errno_t) :
  In o opts ->
  opt_c o = "f"%char ->
  w_fopen w (optarg o) = inr e ->
  fst (grep_main opts argv w) = GREP_EXIT_FAILURE /\
  io_of (snd (grep_main opts argv w)) = io_of w.
Proof.
  intros Hin Hf He. apply grep_main_fails_early. left.
  apply in_split in Hin. destruct Hin as [pre [post ->]].
  rewrite main_options_app, main_options_cons.
  set (st := main_options (set_status_code zero_ctx GREP_EXIT_NOMATCH) w pre).
  assert (w_fopen (snd st) = w_fopen w) as Hfs by apply main_options_fopen.
  assert (status_of (main_option (fst st) (snd st) o) = GREP_EXIT_FAILURE) as Hs.
  { unfold main_option. rewrite Hf. cbn [Ascii.eqb Bool.eqb].
    unfold grep_pattern_file. rewrite Hfs, He. reflexivity. }
  destruct (main_option (fst st) (snd st) o) as [c1 w1]. cbn [fst snd].
  apply main_options_failure_stays. exact Hs.
Qed.

End PatternFiles.

(** ** A whole run: fixed strings searched in the standard input *)

Section FixedStringRun.

Context {R : regex_lib}.

Lemma selected_output_plain (c : grep_ctx) (path : string) (pending : list string) :
  (num_files c >? 1) = false ->
  line_number c = false ->
  forall line_i,
    selected_output c path line_i pending =
    map (fun raw => terminated (chomp raw)) (filter (selects c) pending).
Proof.
  intros Hn Hl. induction pending as [|raw rest IH]; intros line_i; [reflexivity|].
  cbn [selected_output filter]. rewrite IH. unfold line_output. rewrite Hn, Hl.
  destruct (selects c raw); reflexivity.
Qed.

Lemma existsb_map {A B : Type} (f : B -> bool) (g : A -> B) (l : list A) :
  existsb f (map g l) = existsb (fun x => f (g x)) l.
Proof. induction l as [|x l IH]; simpl; [reflexivity|]. rewrite IH. reflexivity. Qed.

(** The run of [grep -F -e pat] on the standard input, by the records
    [getline] returns. *)
Lemma fixed_string_run (pat : string) (w : world) :
  segments pat <> [] ->
  Z.of_nat (List.length (segments pat)) * sizeof_grep_pattern <= SIZE_MAX ->
  all_succeed (w_alloc w) ->
  all_succeed (w_write w) ->
  f_fail (w_stdin w) = false ->
  let hit raw := existsb (fun t => is_some (strstr (chomp raw) t)) (segments pat) in
  let run := grep_main [opt "F" EmptyString; opt "e" pat] [] w in
  fst run = (if existsb hit (f_pending (w_stdin w))
             then GREP_EXIT_MATCH else GREP_EXIT_NOMATCH) /\
  w_stdout (snd run) =
    w_stdout w ++
    map (fun raw => terminated (chomp raw)) (filter hit (f_pending (w_stdin w))) /\
  w_stderr (snd run) = w_stderr w.
Proof.
  intros Hseg Hcap Hal Hwr Hfail hit run. subst run.
  set (c0 := set_flag (set_status_code zero_ctx GREP_EXIT_NOMATCH) F_fixed_string).
  assert (main_options (set_status_code zero_ctx GREP_EXIT_NOMATCH) w
            [opt "F" EmptyString; opt "e" pat] = grep_pattern_string c0 w pat) as Hopt
    by reflexivity.
  assert (pat <> EmptyString) as Hpat by (intros ->; apply Hseg; reflexivity).
  (* the patterns loaded *)
  assert (patterns (fst (grep_pattern_string c0 w pat)) = map fresh_pattern (segments pat) /\
          num_patterns (fst (grep_pattern_string c0 w pat)) =
            Z.of_nat (List.length (segments pat)) /\
          status_of (grep_pattern_string c0 w pat) = GREP_EXIT_NOMATCH) as [Hp [Hn Hs]].
  { unfold grep_pattern_string. destruct pat as [|a s]; [congruence|].
    rewrite strtok_loop_segments.
    destruct (pattern_string_body_run (buffer_after_strtok (String a s))
                (segments (String a s)) c0 w) as [P1 [P2 [P3 _]]];
      [unfold is_size_t; cbn; split; discriminate|exact Hcap|exact Hal|].
    repeat split; assumption. }
  pose proof (fun f => grep_pattern_string_flag c0 w pat f) as Hflag.
  pose proof (grep_pattern_string_io c0 w pat) as Hio.
  pose proof (grep_pattern_string_accounted c0 w pat) as [_ Herr].
  destruct Herr as [Herr|Herr]; [|rewrite Hs in Herr; discriminate Herr].
  unfold grep_main. rewrite Hopt.
  destruct (grep_pattern_string c0 w pat) as [c1 w1].
  unfold status_of, io_at, io_of in *. cbn [fst snd] in *.
  injection Hio as Hout Hin Hwrite.
  pose proof (Hflag F_line_count) as Fc. pose proof (Hflag F_extended_reg_expr) as FE.
  pose proof (Hflag F_fixed_string) as FF. pose proof (Hflag F_case_insensitive) as Fi.
  pose proof (Hflag F_write_file_names) as Fl. pose proof (Hflag F_line_number) as Fn.
  pose proof (Hflag F_quiet) as Fq. pose proof (Hflag F_invert_match) as Fv.
  pose proof (Hflag F_full_string_match) as Fx.
  cbn in Fc, FE, FF, Fi, Fl, Fn, Fq, Fv, Fx.
  (* the checks *)
  assert (main_checks c1 w1 [] = (c1, w1, [])) as ->.
  { unfold main_checks. rewrite FE. cbn [andb]. rewrite Fc, Fl, Fq. cbn [andb orb].
    destruct (Z.eqb_spec (num_patterns c1) 0) as [H0|_]; [|reflexivity].
    exfalso. rewrite Hn in H0. destruct (segments pat); [congruence|discriminate H0]. }
  (* the match function *)
  assert (main_compile c1 w1 = (set_fn_match c1 grep_match_fixed_strstr, w1)) as ->.
  { unfold main_compile, grep_set_fn_match. rewrite FF, Fi, Fx.
    change (fixed_string (set_fn_match c1 grep_match_fixed_strstr))
      with (fixed_string c1).
    rewrite FF. reflexivity. }
  (* the scan *)
  set (c3 := set_num_files (set_fn_match c1 grep_match_fixed_strstr) 1).
  assert (forall raw, selects c3 raw = hit raw) as Hsel.
  { intros raw. unfold selects, grep_match_output_line. rewrite match_loop_orb.
    change (invert_match c3) with (invert_match c1). rewrite Fv.
    change (patterns c3) with (patterns c1). rewrite Hp, existsb_map. reflexivity. }
  unfold main_scan. cbn [status_code set_fn_match]. rewrite Hs.
  cbn [exit_status_eqb negb]. fold c3.
  rewrite scan_run; [|exact Fl|rewrite Hin; exact Hfail|right; rewrite Hwrite; exact Hwr].
  unfold mode_output. change (line_count c3) with (line_count c1).
  change (quiet c3) with (quiet c1). rewrite Fc, Fq.
  rewrite selected_output_plain; [|reflexivity|exact Fn].
  rewrite (filter_ext _ _ Hsel). rewrite Hin.
  unfold grep_free_pattern_list, ctx_after_scan, note_match.
  rewrite (existsb_ext_in _ _ (f_pending (w_stdin w)) Hsel).
  change (status_code c3) with (status_code c1). rewrite Hs.
  cbn [exit_status_eqb negb fst snd].
  rewrite !(fold_left_preserves w_stdout (fun w0 p => free_str w0 (pattern p)))
    by reflexivity.
  rewrite !(fold_left_preserves w_stderr (fun w0 p => free_str w0 (pattern p)))
    by reflexivity.
  cbn [set_stdin after_writes w_stdout w_stderr]. rewrite Hout, Herr.
  split; [|split; reflexivity].
  destruct (existsb hit (f_pending (w_stdin w))); [reflexivity|exact Hs].
Qed.

Lemma plain_lines_read_back (hit : string -> bool) (lines : list string) :
  forallb plain_line lines = true ->
  existsb (fun raw => hit (chomp raw)) (map terminated lines) = existsb hit lines /\
  map (fun raw => terminated (chomp raw))
    (filter (fun raw => hit (chomp raw)) (map terminated lines)) =
  map terminated (filter hit lines).
Proof.
  induction lines as [|l lines IH]; intros H; [split; reflexivity|].
  cbn [forallb] in H. apply andb_prop in H. destruct H as [Hl H].
  destruct (IH H) as [IH1 IH2].
  assert (chomp (terminated l) = l) as Hch
    by (apply chomp_terminated, c_str_plain; exact Hl).
  cbn [map existsb filter]. rewrite Hch, IH1. split; [reflexivity|].
  destruct (hit l); cbn [map]; rewrite ?Hch, IH2; reflexivity.
Qed.

(** X24.  [grep -F -e pat] on a standard input made of lines that each
    end with their newline and hold no NUL, when no allocation and no
    output call fails: the output is made of the input lines that
    contain one of the non-empty lines of [pat] as a substring, in their
    order and each once; nothing is reported, and the exit status tells
    whether there was such a line. *)
Theorem fixed_string_search_of_stdin (pat : string) (w : world) (lines : list string) :
  segments pat <> [] ->
  Z.of_nat (List.length (segments pat)) * sizeof_grep_pattern <= SIZE_MAX ->
  all_succeed (w_alloc w) ->
  all_succeed (w_write w) ->
  w_stdin w = stream_of (text_of lines) ->
  forallb plain_line lines = true ->
  let hit line := existsb (fun t => is_some (strstr line t)) (segments pat) in
  let run := grep_main [opt "F" EmptyString; opt "e" pat] [] w in
  (forall line, hit line = true <-> exists t, In t (segments pat) /\ occurs t line) /\
  fst run = (if existsb hit lines then GREP_EXIT_MATCH else GREP_EXIT_NOMATCH) /\
  w_stdout (snd run) = w_stdout w ++ map terminated (filter hit lines) /\
  w_stderr (snd run) = w_stderr w.
Proof.
  intros Hseg Hcap Hal Hwr Hin Hpl hit run. subst run.
  assert (f_fail (w_stdin w) = false) as Hfail by (rewrite Hin; reflexivity).
  destruct (fixed_string_run pat w Hseg Hcap Hal Hwr Hfail) as [T1 [T2 T3]].
  assert (f_pending (w_stdin w) = map terminated lines) as Hrec
    by (rewrite Hin; unfold stream_of; cbn [f_pending]; apply records_text_of; exact Hpl).
  rewrite Hrec in T1, T2.
  destruct (plain_lines_read_back hit lines Hpl) as [P1 P2].
  split; [|split; [|split]].
  - intros line. unfold hit. rewrite existsb_exists. split.
    + intros [t [Hin' Ht]]. exists t. split; [exact Hin'|].
      apply strstr_spec. destruct (strstr line t); [discriminate|discriminate Ht].
    + intros [t [Hin' Ho]]. exists t. split; [exact Hin'|].
      apply strstr_spec in Ho. destruct (strstr line t); [reflexivity|congruence].
  - rewrite T1, <- P1. reflexivity.
  - rewrite T2. f_equal. rewrite <- P2. reflexivity.
  - exact T3.
Qed.

End FixedStringRun.

(** * Concrete runs *)

#[local] Existing Instance basic_regex.

(** The end-to-end runs of the specification: the pattern "abc" in
    default regex mode on the lines 123, abcdefg, abc, 456, with the
    default output and with the count. *)
Example grep_abc_stdin :
  grep_main [opt "e" "abc"] [] (calm_world (text_of ["123"; "abcdefg"; "abc"; "456"]))
  = (GREP_EXIT_MATCH,
     mk_world [] [] [terminated "abcdefg"; terminated "abc"] [] ["abc"] no_files
       (mk_FILE [] false false false)).
Proof. vm_compute. reflexivity. Qed.

Example grep_c_abc_stdin :
  w_stdout (snd (grep_main [opt "c" EmptyString; opt "e" "abc"] []
                   (calm_world (text_of ["123"; "abcdefg"; "abc"; "456"]))))
  = [terminated "2"].
Proof. vm_compute. reflexivity. Qed.

(** The invalid pattern of the specification: the run fails and reads
    nothing of its input. *)
Example grep_invalid_pattern :
  grep_main [opt "e" "[abc"] [] (calm_world (text_of ["abc"]))
  = (GREP_EXIT_FAILURE,
     mk_world [] [] []
       [mk_warning false "regcomp(%s): %s"
          [ArgStr "[abc"; ArgStr "Unmatched [, [^, [:, [., or [="]]
       ["[abc"] no_files (stream_of (text_of ["abc"]))).
Proof. vm_compute. reflexivity. Qed.

(** The error runs of the test suite: the allocation of the anchored
    copy fails, the array cannot grow, a line cannot be written. *)
Example grep_x_malloc_fails :
  let '(status, w) :=
    grep_main [opt "x" EmptyString; opt "e" "test"] []
      (world_with [true; true; false] [] (text_of ["test"])) in
  status = GREP_EXIT_FAILURE /\
  map wn_fmt (w_stderr w) = ["malloc: %zu"] /\
  w_stdout w = [] /\ w_stdin w = stream_of (text_of ["test"]).
Proof. vm_compute. repeat split; reflexivity. Qed.

Example grep_realloc_fails :
  let '(status, w) :=
    grep_main [opt "e" "test"] [] (world_with [true; false] [] (text_of ["test"])) in
  status = GREP_EXIT_FAILURE /\
  w_stderr w = [mk_warning true "realloc: %zu" [ArgNum 80];
                mk_warning false "missing pattern_list" []] /\
  w_freed w = ["test"].
Proof. vm_compute. repeat split; reflexivity. Qed.

Example grep_puts_fails :
  let '(status, w) :=
    grep_main [opt "e" "abc"] []
      (world_with [] [false] (text_of ["123"; "abcdefg"; "abc"; "456"])) in
  status = GREP_EXIT_FAILURE /\
  w_stdout w = [terminated "abc"].
Proof. vm_compute. repeat split; reflexivity. Qed.

(** ** Witnesses *)

Lemma grep_match_output_line_is_or_witness :
  grep_match_output_line
    (set_fn_match (ctx_with ["xyz"; "abc"]) grep_match_fixed_strstr) "00abc00"
  = true.
Proof.
  rewrite (grep_match_output_line_is_or
             (set_fn_match (ctx_with ["xyz"; "abc"]) grep_match_fixed_strstr)
             grep_match_fixed_strstr "00abc00" eq_refl).
  reflexivity.
Defined.

Lemma grep_pattern_append_outcomes_witness :
  is_size_t 2 /\
  num_patterns (fst (grep_pattern_append (ctx_with ["xyz"; "abc"]) (calm_world EmptyString) "new")) = 3.
Proof.
  assert (is_size_t (num_patterns (ctx_with ["xyz"; "abc"]))) as H
    by (unfold is_size_t; simpl; split; discriminate).
  split; [exact H|].
  pose proof (grep_pattern_append_outcomes (ctx_with ["xyz"; "abc"])
                (calm_world EmptyString) "new" H) as T.
  destruct (grep_pattern_append (ctx_with ["xyz"; "abc"]) (calm_world EmptyString) "new")
    as [c' w'].
  destruct T as [[_ [_ [T _]]]|[[Hov|Hal] _]].
  - exact T.
  - exfalso. unfold append_overflows in Hov. vm_compute in Hov. discriminate.
  - discriminate.
Defined.

Lemma filenames_only_stops_at_first_match_witness :
  let '(c', w', fp') :=
    grep_match_output_fp ctx_F_l_abc (calm_world EmptyString) "file"
      (stream_of (text_of ["123"; "abc"; "abcdef"; "456"])) in
  f_pending fp' = [terminated "abcdef"; terminated "456"] /\
  w_stdout w' = [] ++ [terminated "file"] /\
  status_code c' <> GREP_EXIT_NOMATCH.
Proof.
  apply (filenames_only_stops_at_first_match ctx_F_l_abc (calm_world EmptyString) "file"
           (stream_of (text_of ["123"; "abc"; "abcdef"; "456"]))
           [terminated "123"] [terminated "abcdef"; terminated "456"] (terminated "abc")).
  - reflexivity.
  - reflexivity.
  - reflexivity.
  - intros raw [<-|[]]. reflexivity.
  - reflexivity.
Defined.


Lemma compile_failure_is_fatal_witness :
  status_code (fst (grep_compile_pattern_list (ctx_with ["[abc"; "d"; "[e"])
                      (calm_world (text_of ["d"]))))
  = GREP_EXIT_FAILURE.
Proof.
  pose proof (compile_failure_is_fatal (ctx_with ["[abc"; "d"; "[e"])
                (calm_world (text_of ["d"]))) as T.
  destruct (grep_compile_pattern_list (ctx_with ["[abc"; "d"; "[e"])
              (calm_world (text_of ["d"]))) as [c' w'] eqn:E.
  destruct T as [_ [_ T]]. apply T.
  assert (patterns c' =
          [mk_pattern "[abc" None false; mk_pattern "d" (Some (mk_bre false false "d" false)) true;
           mk_pattern "[e" None false]) as ->
    by (apply (f_equal fst) in E; cbn [fst] in E; rewrite <- E; vm_compute; reflexivity).
  apply Exists_cons_hd. exists REG_EBRACK. reflexivity.
Defined.

(** All patterns were tried in that run: both bad ones are reported and
    the good one is compiled. *)
Example compile_continues_after_failure :
  let '(c', w') := grep_compile_pattern_list (ctx_with ["[abc"; "d"; "[e"])
                     (calm_world EmptyString) in
  map compiled (patterns c') = [false; true; false] /\
  map wn_args (w_stderr w') =
    [[ArgStr "[abc"; ArgStr "Unmatched [, [^, [:, [., or [="];
     [ArgStr "[e"; ArgStr "Unmatched [, [^, [:, [., or [="]].
Proof. vm_compute. split; reflexivity. Qed.


(** The run of the test suite for it: [grep -s -e abc missing] ends with
    the no-match status and reports nothing. *)
Example grep_s_missing_file :
  grep_main [opt "s" EmptyString; opt "e" "abc"] ["missing"] (calm_world EmptyString)
  = (GREP_EXIT_NOMATCH,
     mk_world [] [] [] [] ["abc"] no_files (stream_of EmptyString)).
Proof. vm_compute. reflexivity. Qed.

Example grep_missing_file :
  fst (grep_main [opt "e" "abc"] ["missing"] (calm_world EmptyString))
  = GREP_EXIT_FAILURE.
Proof. vm_compute. reflexivity. Qed.


Lemma grep_pattern_string_appends_segments_witness :
  map pattern
    (patterns (fst (grep_pattern_string (ctx_with ["old"]) (calm_world EmptyString)
                      (String NL (text_of ["a"; EmptyString; "bc"])))))
  = ["old"; "a"; "bc"].
Proof.
  assert (String NL (text_of ["a"; EmptyString; "bc"]) <> EmptyString) as Hne by discriminate.
  destruct (grep_pattern_string_appends_segments (ctx_with ["old"]) (calm_world EmptyString)
              (String NL (text_of ["a"; EmptyString; "bc"])))
    as [H _].
  - unfold is_size_t. simpl. split; discriminate.
  - vm_compute. discriminate.
  - constructor.
  - destruct (H Hne) as [_ [-> _]]. reflexivity.
Defined.

(** ** The empty pattern with [-x] in regex mode *)

Lemma empty_pattern_anchored_text {R : regex_lib} (w : world) :
  all_succeed (w_alloc w) ->
  map pattern (patterns (fst (main_compile (ctx_x [EmptyString]) w))) = ["^()$"].
Proof.
  intros Hw. unfold main_compile.
  change (fixed_string (grep_set_fn_match (ctx_x [EmptyString]))) with false. cbn [negb].
  pose proof (grep_compile_pattern_list_spec (grep_set_fn_match (ctx_x [EmptyString])) w) as H.
  destruct (grep_compile_pattern_list (grep_set_fn_match (ctx_x [EmptyString])) w) as [c' w'].
  cbv zeta in H. destruct H as [_ [_ [_ [_ [_ [_ Htxt]]]]]]. cbn [fst].
  rewrite Htxt; [reflexivity|exact Hw|].
  repeat constructor. unfold anchor_fits. simpl. discriminate.
Qed.

(** C9.  The empty pattern matches every line under the two fixed-string
    substring strategies, and the empty line only under the two
    fixed-string equality strategies.  In regex mode with [-x] and
    without [-E] the program hands [regcomp] the text "^()$" with the
    flags [REG_NOSUB] alone, a basic regular expression: its parentheses
    are ordinary characters, and the run below, under the basic regular
    expressions of [basic_regex], selects the line "()" and not the empty
    line. *)
Theorem empty_pattern_full_line_basic_regex :
  (forall (R : regex_lib) (line : string),
     grep_match_fixed_strstr (fresh_pattern EmptyString) line = true /\
     grep_match_fixed_strcasestr (fresh_pattern EmptyString) line = true /\
     (grep_match_fixed_strcmp (fresh_pattern EmptyString) line = true
      <-> line = EmptyString) /\
     (grep_match_fixed_strcasecmp (fresh_pattern EmptyString) line = true
      <-> line = EmptyString)) /\
  (forall (R : regex_lib),
     compile_cflags (ctx_x [EmptyString]) = REG_NOSUB /\
     map pattern
       (patterns (fst (main_compile (ctx_x [EmptyString]) (calm_world EmptyString))))
     = ["^()$"]) /\
  w_stdout
    (snd (grep_main [opt "x" EmptyString; opt "e" EmptyString] []
            (calm_world (text_of [EmptyString; "()"; "x"]))))
  = [terminated "()"].
Proof.
  split; [|split].
  - intros R line. apply empty_pattern_fixed_string. reflexivity.
  - intros R. split; [reflexivity|].
    apply empty_pattern_anchored_text. constructor.
  - vm_compute. reflexivity.
Qed.

(** Under the same facility the empty pattern without [-x] selects every
    line. *)
Example grep_empty_pattern_default :
  w_stdout
    (snd (grep_main [opt "e" EmptyString] []
            (calm_world (text_of [EmptyString; "()"; "x"]))))
  = [terminated EmptyString; terminated "()"; terminated "x"].
Proof. vm_compute. reflexivity. Qed.

(** The fixed-string strategies on the empty pattern with [-x]. *)
Example grep_F_x_empty_pattern :
  w_stdout
    (snd (grep_main [opt "F" EmptyString; opt "x" EmptyString; opt "e" EmptyString] []
            (calm_world (text_of [EmptyString; "()"; "x"]))))
  = [terminated EmptyString].
Proof. vm_compute. reflexivity. Qed.

(** ** Witnesses of the further properties *)

Lemma si_add_size_t_exact_witness :
  fst (si_add_size_t SIZE_MAX 1) = true /\ snd (si_add_size_t 3 4) = 7.
Proof.
  assert (forall z, (0 <=? z) && (z <=? SIZE_MAX) = true -> is_size_t z) as Hsz
    by (intros z H; apply andb_prop in H; destruct H as [H1 H2];
        split; [apply Z.leb_le; exact H1|apply Z.leb_le; exact H2]).
  split.
  - apply (proj1 (si_add_size_t_exact SIZE_MAX 1 (Hsz SIZE_MAX eq_refl) (Hsz 1 eq_refl))).
    reflexivity.
  - apply (proj2 (si_add_size_t_exact 3 4 (Hsz 3 eq_refl) (Hsz 4 eq_refl))).
    reflexivity.
Defined.

Lemma si_mul_size_t_exact_witness :
  fst (si_mul_size_t (2 ^ 63) 2) = true /\ snd (si_mul_size_t 0 SIZE_MAX) = 0.
Proof.
  assert (forall z, (0 <=? z) && (z <=? SIZE_MAX) = true -> is_size_t z) as Hsz
    by (intros z H; apply andb_prop in H; destruct H as [H1 H2];
        split; [apply Z.leb_le; exact H1|apply Z.leb_le; exact H2]).
  split.
  - apply (proj1 (si_mul_size_t_exact (2 ^ 63) 2 (Hsz (2 ^ 63) eq_refl) (Hsz 2 eq_refl))).
    reflexivity.
  - apply (proj2 (si_mul_size_t_exact 0 SIZE_MAX (Hsz 0 eq_refl) (Hsz SIZE_MAX eq_refl))).
    reflexivity.
Defined.

(** The pattern "ab" is spread along "axb" without being a substring of
    it. *)
Lemma grep_strcasestr_accepts_spread_witness :
  grep_strcasestr "axb" "ab" <> None.
Proof.
  assert ("ab" <> EmptyString) as Hne by discriminate.
  apply (proj2 (proj2 (grep_strcasestr_accepts_spread "axb" "ab") Hne)).
  apply (spread_more "a" "xb" "a" "b"); [discriminate|reflexivity|].
  apply spread_skip. apply (spread_last "b" EmptyString "b"); [discriminate|reflexivity].
Defined.

Lemma grep_strcasestr_in_bounds_witness :
  (4 < String.length "xxabc")%nat.
Proof.
  apply (grep_strcasestr_in_bounds "xxabc" "ABC" 4); [discriminate|reflexivity].
Defined.

Lemma grep_match_fixed_strcasestr_complete_witness :
  grep_match_fixed_strcasestr (mk_pattern "BC" None false) "abcd" = true.
Proof.
  apply grep_match_fixed_strcasestr_complete.
  exists "a", "d". reflexivity.
Defined.

Lemma fixed_string_selects_substrings_witness :
  grep_match_output_line
    (grep_set_fn_match (set_flag (ctx_with ["xyz"; "abc"]) F_fixed_string)) "00abc00"
  = true.
Proof.
  apply (proj2 (fixed_string_selects_substrings
                  (set_flag (ctx_with ["xyz"; "abc"]) F_fixed_string) "00abc00"
                  eq_refl eq_refl eq_refl eq_refl)).
  exists (mk_pattern "abc" None false). split.
  - right. left. reflexivity.
  - exists "00", "00". reflexivity.
Defined.

Lemma scan_writes_selected_lines_witness :
  w_stdout (snd (fst (grep_match_output_fp (ctx_F_abc F_line_number)
                        (calm_world EmptyString) "file"
                        (stream_of (text_of ["123"; "abc"; "xabc"])))))
  = ["2:"; terminated "abc"; "3:"; terminated "xabc"].
Proof.
  rewrite (scan_writes_selected_lines (ctx_F_abc F_line_number) (calm_world EmptyString)
             "file" (stream_of (text_of ["123"; "abc"; "xabc"]))
             eq_refl eq_refl eq_refl (Forall_nil _) eq_refl eq_refl).
  reflexivity.
Defined.

Lemma scan_counts_selected_lines_witness :
  w_stdout (snd (fst (grep_match_output_fp (ctx_F_abc F_line_count)
                        (calm_world EmptyString) "file"
                        (stream_of (text_of ["123"; "abc"; "xabc"])))))
  = [terminated "2"].
Proof.
  rewrite (scan_counts_selected_lines (ctx_F_abc F_line_count) (calm_world EmptyString)
             "file" (stream_of (text_of ["123"; "abc"; "xabc"]))
             eq_refl eq_refl (Forall_nil _) eq_refl eq_refl).
  reflexivity.
Defined.

Lemma quiet_scan_is_silent_witness :
  snd (fst (grep_match_output_fp (ctx_F_abc F_quiet)
              (world_with [] [false] EmptyString) "file"
              (stream_of (text_of ["123"; "abc"; "xabc"]))))
  = world_with [] [false] EmptyString.
Proof.
  rewrite (proj1 (quiet_scan_is_silent (ctx_F_abc F_quiet)
                    (world_with [] [false] EmptyString)
                    "file" (stream_of (text_of ["123"; "abc"; "xabc"]))
                    eq_refl eq_refl eq_refl)).
  reflexivity.
Defined.

Lemma scan_without_selected_line_witness :
  grep_match_output_fp ctx_F_l_abc (world_with [] [false] EmptyString) "file"
    (stream_of (text_of ["123"; "ab"]))
  = (ctx_F_l_abc, world_with [] [false] EmptyString, mk_FILE [] false false false).
Proof.
  rewrite (scan_without_selected_line ctx_F_l_abc (world_with [] [false] EmptyString)
             "file" (stream_of (text_of ["123"; "ab"])) eq_refl).
  - reflexivity.
  - intros raw [<-|[<-|[]]]; reflexivity.
Defined.

Lemma exclusive_options_are_rejected_witness :
  fst (grep_main [opt "q" EmptyString; opt "e" "abc"; opt "c" EmptyString] ["file"]
         (calm_world EmptyString))
  = GREP_EXIT_FAILURE.
Proof.
  apply (proj1 (exclusive_options_are_rejected
                  [opt "q" EmptyString; opt "e" "abc"; opt "c" EmptyString] ["file"]
                  (calm_world EmptyString) eq_refl)).
Defined.

Lemma unknown_option_is_rejected_witness :
  fst (grep_main [opt "e" "abc"; opt "z" EmptyString; opt "n" EmptyString] []
         (calm_world (text_of ["abc"])))
  = GREP_EXIT_FAILURE.
Proof.
  apply (proj1 (proj2 (unknown_option_is_rejected [opt "e" "abc"] [opt "n" EmptyString] []
                         (calm_world (text_of ["abc"])) (opt "z" EmptyString) eq_refl))).
Defined.

Lemma missing_pattern_list_is_rejected_witness :
  fst (grep_main [opt "i" EmptyString] [] (calm_world (text_of ["abc"])))
  = GREP_EXIT_FAILURE.
Proof.
  apply (proj1 (missing_pattern_list_is_rejected [opt "i" EmptyString]
                  (calm_world (text_of ["abc"])) eq_refl eq_refl)).
Defined.


Lemma grep_pattern_file_terminated_lines_witness :
  map pattern (patterns (fst (grep_pattern_file (ctx_with ["old"]) sample_world "patterns")))
  = ["old"; "abc"; "d"].
Proof.
  destruct (grep_pattern_file_terminated_lines (ctx_with ["old"]) sample_world "patterns"
              ["abc"; "d"]) as [-> _].
  - reflexivity.
  - reflexivity.
  - unfold is_size_t. simpl. split; discriminate.
  - vm_compute. discriminate.
  - constructor.
  - reflexivity.
Defined.

Lemma grep_pattern_string_splits_joined_lines_witness :
  map pattern
    (patterns (fst (grep_pattern_string (ctx_with ["old"]) (calm_world EmptyString)
                      (join_lines ["a"; "b"; "c"]))))
  = ["old"; "a"; "b"; "c"].
Proof.
  destruct (grep_pattern_string_splits_joined_lines (ctx_with ["old"])
              (calm_world EmptyString) ["a"; "b"; "c"]) as [-> _].
  - discriminate.
  - reflexivity.
  - unfold is_size_t. simpl. split; discriminate.
  - vm_compute. discriminate.
  - constructor.
  - reflexivity.
Defined.

Lemma valid_patterns_compile_silently_witness :
  w_freed (snd (grep_compile_pattern_list (ctx_x ["abc"; "d"]) (calm_world EmptyString)))
  = ["abc"; "d"].
Proof.
  pose proof (valid_patterns_compile_silently (ctx_x ["abc"; "d"])
                (calm_world EmptyString)) as T.
  destruct (grep_compile_pattern_list (ctx_x ["abc"; "d"]) (calm_world EmptyString))
    as [c' w'].
  destruct T as [_ [_ [_ T]]].
  - constructor.
  - repeat constructor; unfold anchor_fits; simpl; discriminate.
  - repeat constructor; eexists; vm_compute; reflexivity.
  - exact T.
Defined.

Lemma operands_are_scanned_in_order_witness :
  w_stdout (snd (main_scan_paths (set_num_files (ctx_F_abc F_line_number) 2)
                   sample_world ["a.txt"; "b.txt"]))
  = ["a.txt:"; "1:"; terminated "xabc"; "b.txt:"; "2:"; terminated "abcabc"].
Proof.
  rewrite (operands_are_scanned_in_order (set_num_files (ctx_F_abc F_line_number) 2)
             sample_world ["a.txt"; "b.txt"] eq_refl (Forall_nil _)).
  - reflexivity.
  - repeat constructor; eexists;
      (split; [reflexivity|split; [reflexivity|split; reflexivity]]).
Defined.

Lemma unreadable_pattern_file_is_fatal_witness :
  fst (grep_main [opt "s" EmptyString; opt "f" "missing"] ["a.txt"] sample_world)
  = GREP_EXIT_FAILURE.
Proof.
  apply (proj1 (unreadable_pattern_file_is_fatal
                  [opt "s" EmptyString; opt "f" "missing"] ["a.txt"] sample_world
                  (opt "f" "missing") ENOENT
                  (or_intror (or_introl eq_refl)) eq_refl eq_refl)).
Defined.

Lemma fixed_string_search_of_stdin_witness :
  w_stdout (snd (grep_main [opt "F" EmptyString; opt "e" (join_lines ["abc"; "45"])] []
                   (calm_world (text_of ["123"; "abcdefg"; "abc"; "456"]))))
  = [terminated "abcdefg"; terminated "abc"; terminated "456"].
Proof.
  destruct (fixed_string_search_of_stdin (join_lines ["abc"; "45"])
              (calm_world (text_of ["123"; "abcdefg"; "abc"; "456"]))
              ["123"; "abcdefg"; "abc"; "456"])
    as [_ [_ [T _]]].
  - discriminate.
  - vm_compute. discriminate.
  - constructor.
  - constructor.
  - reflexivity.
  - reflexivity.
  - rewrite T. reflexivity.
Defined.

Lemma diagnostics_imply_failure_witness :
  fst (grep_main [opt "e" "[abc"] [] (calm_world (text_of ["abc"]))) = GREP_EXIT_FAILURE.
Proof.
  apply (proj2 diagnostics_imply_failure). vm_compute. discriminate.
Defined.

(** The input "123", newline, "abc" without a newline behind it: the
    line tested is "ab", and [grep -F abc] selects nothing. *)
Lemma unterminated_last_line_loses_its_last_character_witness :
  fst (grep_match_output_fp (ctx_F_abc F_line_number) (calm_world EmptyString) "file"
         (stream_of (text_of ["123"] ++ "ab" ++ "c")))
  = (ctx_F_abc F_line_number, calm_world EmptyString).
Proof.
  rewrite (unterminated_last_line_loses_its_last_character (ctx_F_abc F_line_number)
             (calm_world EmptyString) "file" ["123"] "ab" "c" eq_refl eq_refl eq_refl).
  reflexivity.
Defined.
